(** * onnx/helper.py: a shallow embedding and its checked properties

    The Python module [onnx/helper.py] builds, decodes and prints the records
    of the ONNX intermediate representation.  This file embeds the functions
    of that module as Rocq functions and proves the properties stated for
    them.

    Conventions of the embedding.
    - A Python function that may raise returns a [result]; the exception is
      the one the source raises ([ValueError], [TypeError], a failed
      [assert], a missing dictionary key, ...).
    - Python integers are [Z].  Python text is a [string], one character per
      code point (code points below 256), and [bytes] is a list of bytes.
    - A protobuf message is a record; an optional field is an [option]
      ([Some] when the field has been set), a repeated field is a [list].
      A write to a value field of an attribute or of a tensor goes through
      the check of the schema layer for the kind of the field: an integer
      field refuses a value outside its range, a 32-bit float field holds
      the value rounded to single precision, and a field refuses a value of
      another type.
    - The float type of the host language is the class [Host].  What the
      module imports from the rest of the package (the element-type tables
      of [onnx.mapping], the constants [IR_VERSION] and
      [defs.onnx_opset_version()]) and the text formatters of the host
      language are the fields of the class [Collaborators]. *)

From stdpp Require Import base option list strings gmap pretty.
From Stdlib Require Import ZArith Lia Strings.Ascii Strings.Byte.
From Stdlib Require Floats.SpecFloat.

Set Warnings "-register-all".

Local Open Scope string_scope.
Local Open Scope Z_scope.
Local Open Scope list_scope.

(** ** Exceptions and results *)

Inductive exn : Type :=
| ValueError (msg : string)
| TypeError (msg : string)
| AssertionError (msg : string)
| AttributeError
| IndexError
| RecursionError
| KeyError.

Inductive result (A : Type) : Type :=
| Ok (a : A)
| Raise (e : exn).
Arguments Ok {A} a.
Arguments Raise {A} e.

Definition bind {A B} (r : result A) (k : A -> result B) : result B :=
  match r with
  | Ok a => k a
  | Raise e => Raise e
  end.

Notation "'let*' x := r 'in' k" := (bind r (fun x => k))
  (at level 10, x pattern, r at level 100, k at level 200).

(** [[f(x) for x in l]]: the elements are computed from left to right and the
    first exception ends the loop. *)
Fixpoint mapM {A B} (f : A -> result B) (l : list A) : result (list B) :=
  match l with
  | [] => Ok []
  | x :: l' =>
      let* y := f x in
      let* ys := mapM f l' in
      Ok (y :: ys)
  end.

Definition bytes : Type := list byte.

(** The error kinds of the specification, as the exceptions the source raises. *)
Definition UnsupportedOpset : exn := ValueError "Unsupported opset-version.".
Definition AmbiguousAttributeType : exn :=
  ValueError "You passed in an iterable attribute but I cannot figure out its applicable type.".
Definition UnsupportedAttributeType : exn :=
  TypeError "value {} is not valid attribute data type.".
Definition UnsupportedAttributeKind : exn := ValueError "Unsupported ONNX attribute: {}".
Definition InvalidRawStringTensor : exn :=
  AssertionError "Can not use raw_data to store string type".
Definition SizeMismatch : exn := ValueError "Number of values does not match tensor's size.".
Definition DenotationLengthMismatch : exn :=
  ValueError "Invalid shape_denotation. Must be of the same length as shape.".
Definition InvalidShapeItem : exn :=
  ValueError "Invalid item in shape: {}. Needs to be of integer_types or text_type.".

(** ** The version table *)

(** A row [(release_version, ir_version, *args)]: the trailing integers are the
    versions of [ai.onnx], [ai.onnx.ml] and, optionally, [ai.onnx.training]. *)
Definition VersionRowType : Type := (string * Z * list Z)%type.

Definition VERSION_TABLE : list VersionRowType :=
  [ ("1.0", 3, [1; 1]);
    ("1.1", 3, [5; 1]);
    ("1.1.2", 3, [6; 1]);
    ("1.2", 3, [7; 1]);
    ("1.3", 3, [8; 1]);
    ("1.4.1", 4, [9; 1]);
    ("1.5.0", 5, [10; 1]);
    ("1.6.0", 6, [11; 2]);
    ("1.7.0", 7, [12; 2; 1]);
    ("1.8.0", 7, [13; 2; 1]);
    ("1.8.1", 7, [13; 2; 1]);
    ("1.9.0", 7, [14; 2; 1]) ].

Abbreviation VersionMapType := (gmap (string * Z) Z).

Definition DOMAIN_NAMES : list string := ["ai.onnx"; "ai.onnx.ml"; "ai.onnx.training"].

Definition row_ir_version (row : VersionRowType) : Z := snd (fst row).

(** The pairs [zip(['ai.onnx', 'ai.onnx.ml', 'ai.onnx.training'], args)] of a row. *)
Definition row_pairs (row : VersionRowType) : list (string * Z) :=
  zip DOMAIN_NAMES (snd row).

(** [if pair not in result: result[pair] = ir_version]. *)
Definition record_pair (ir_version : Z) (result : VersionMapType) (pair : string * Z)
  : VersionMapType :=
  match result !! pair with
  | None => <[pair := ir_version]> result
  | Some _ => result
  end.

Definition process (result : VersionMapType) (row : VersionRowType) : VersionMapType :=
  foldl (record_pair (row_ir_version row)) result (row_pairs row).

Definition create_op_set_id_version_map (table : list VersionRowType) : VersionMapType :=
  foldl process ∅ table.

Definition OP_SET_ID_VERSION_MAP : VersionMapType :=
  create_op_set_id_version_map VERSION_TABLE.

(** Modelled from the spec: the operator-set id record of the schema layer
    (section 3), whose declaration is not part of [helper.py]. *)
Record OperatorSetIdProto : Type := mkOperatorSetIdProto {
  opset_domain : string;
  opset_version : Z
}.

Definition default_min_version : Z := 3.

Definition find_min (domain : string) (version : Z) : result Z :=
  let key := (if decide (domain = EmptyString) then "ai.onnx" else domain, version) in
  match OP_SET_ID_VERSION_MAP !! key with
  | Some ir => Ok ir
  | None => Raise UnsupportedOpset
  end.

(** Python's [max] of a list; it raises [ValueError] on an empty one. *)
Definition py_max (l : list Z) : result Z :=
  match l with
  | [] => Raise (ValueError "max() arg is an empty sequence")
  | x :: l' => Ok (foldl Z.max x l')
  end.

Definition find_min_ir_version_for (opsetidlist : list OperatorSetIdProto) : result Z :=
  match opsetidlist with
  | [] => Ok default_min_version
  | _ :: _ =>
      let* versions := mapM (fun x => find_min (opset_domain x) (opset_version x)) opsetidlist in
      py_max versions
  end.

(** ** Element types of tensors *)

Module DataType.
(** Modelled from the spec: [TensorProto.DataType], the enumerated element-type
    codes that the schema layer supplies (section 6). *)
Inductive t : Type :=
| UNDEFINED | FLOAT | UINT8 | INT8 | UINT16 | INT16 | INT32 | INT64
| STRING | BOOL | FLOAT16 | DOUBLE | UINT32 | UINT64
| COMPLEX64 | COMPLEX128 | BFLOAT16.

#[global] Instance eq_dec : EqDecision t.
Proof. solve_decision. Defined.

(** [TensorProto.DataType.Name]: the identifier of the code. *)
Definition Name (d : t) : string :=
  match d with
  | UNDEFINED => "UNDEFINED" | FLOAT => "FLOAT" | UINT8 => "UINT8"
  | INT8 => "INT8" | UINT16 => "UINT16" | INT16 => "INT16"
  | INT32 => "INT32" | INT64 => "INT64" | STRING => "STRING"
  | BOOL => "BOOL" | FLOAT16 => "FLOAT16" | DOUBLE => "DOUBLE"
  | UINT32 => "UINT32" | UINT64 => "UINT64" | COMPLEX64 => "COMPLEX64"
  | COMPLEX128 => "COMPLEX128" | BFLOAT16 => "BFLOAT16"
  end.
End DataType.

(** Modelled from the spec: the storage categories of section 4.3, that is
    the typed storage fields of a tensor record, the values of
    [mapping.STORAGE_TENSOR_TYPE_TO_FIELD]. *)
Inductive TensorField : Type :=
| float_data_field | int32_data_field | string_data_field
| int64_data_field | double_data_field | uint64_data_field.

Module AttributeType.
(** Modelled from the spec: [AttributeProto.AttributeType], the kind tag of an
    attribute record, one per variant of section 3. *)
Inductive t : Type :=
| UNDEFINED | FLOAT | INT | STRING | TENSOR | GRAPH | SPARSE_TENSOR
| FLOATS | INTS | STRINGS | TENSORS | GRAPHS | SPARSE_TENSORS.
End AttributeType.

(** The float type of the host language: its values are carried, never
    computed with, except for the conversion [float(v)] of an integer and for
    the rounding of a value to single precision, which is what a 32-bit float
    field gives back once the value has been written to it. *)
Class Host : Type := {
  float : Type;
  float_of_int : Z -> float;
  float_zero : float;
  float32 : float -> float
}.

Section Records.
Context `{Host}.

(** An element of the value sequence given to [make_tensor]. *)
Inductive elem : Type :=
| EInt (z : Z)
| EFloat (x : float)
| EComplex (re im : float)
| EBytes (b : bytes).

(** Modelled from the spec: the tensor record of the schema layer
    (section 3): name, data type, dims and either one of the typed value
    sequences or the raw byte buffer. *)
Record TensorProto : Type := mkTensorProto {
  tensor_name : string;
  tensor_data_type : DataType.t;
  tensor_dims : list Z;
  float_data : list elem;
  int32_data : list elem;
  string_data : list elem;
  int64_data : list elem;
  double_data : list elem;
  uint64_data : list elem;
  raw_data : option bytes
}.

Definition TensorProto_default : TensorProto :=
  mkTensorProto EmptyString DataType.UNDEFINED [] [] [] [] [] [] [] None.

(** Modelled from the spec: the sparse tensor record (section 3). *)
Record SparseTensorProto : Type := mkSparseTensorProto {
  sparse_values : TensorProto;
  sparse_indices : TensorProto;
  sparse_dims : list Z
}.

Definition SparseTensorProto_default : SparseTensorProto :=
  mkSparseTensorProto TensorProto_default TensorProto_default [].

(** Modelled from the spec: a dimension of a shape (section 3) is a concrete
    size, a symbolic name or unset, with an optional denotation.  This is its
    [value] oneof. *)
Inductive DimensionValue : Type :=
| dim_unset
| dim_value (v : Z)
| dim_param (p : string).

Record Dimension : Type := mkDimension {
  dim_which : DimensionValue;
  dim_denotation : option string
}.

(** Modelled from the spec: the type descriptors of section 3, with a shape
    that may be absent.  [tt_shape] is [None] while the [shape] field has
    never been touched and [Some dims] once it has, even with no dimension. *)
Record TensorTypeProto : Type := mkTensorTypeProto {
  tt_elem_type : DataType.t;
  tt_shape : option (list Dimension)
}.

(** The [value] oneof of a type descriptor. *)
Inductive TypeProto : Type :=
| type_unset
| tensor_type (t : TensorTypeProto)
| sparse_tensor_type (t : TensorTypeProto)
| sequence_type (elem_type : TypeProto).

(** Modelled from the spec: the value-info record (section 3). *)
Record ValueInfoProto : Type := mkValueInfoProto {
  vi_name : string;
  vi_doc_string : option string;
  vi_type : TypeProto
}.

(** Modelled from the spec: the attribute, node and graph records of the
    schema layer (section 3).  An attribute record has the kind tag and one
    field per variant, as the source reads and writes them ([attr.f],
    [attr.ints], [attr.type], ...).  Its fields [f] and [floats] are 32-bit
    float fields and its fields [i] and [ints] signed 64-bit integer fields:
    what they hold is decided by the setters of the record. *)
Inductive AttributeProto : Type := mkAttributeProto {
  attr_name : string;
  attr_doc_string : option string;
  attr_type : AttributeType.t;
  attr_f : option float;
  attr_i : option Z;
  attr_s : option bytes;
  attr_t : option TensorProto;
  attr_g : option GraphProto;
  attr_sparse_tensor : option SparseTensorProto;
  attr_floats : list float;
  attr_ints : list Z;
  attr_strings : list bytes;
  attr_tensors : list TensorProto;
  attr_graphs : list GraphProto;
  attr_sparse_tensors : list SparseTensorProto
}
with NodeProto : Type := mkNodeProto {
  node_op_type : string;
  node_input : list string;
  node_output : list string;
  node_name : option string;
  node_doc_string : option string;
  node_domain : option string;
  node_attribute : list AttributeProto
}
with GraphProto : Type := mkGraphProto {
  graph_name : string;
  graph_node : list NodeProto;
  graph_input : list ValueInfoProto;
  graph_output : list ValueInfoProto;
  graph_initializer : list TensorProto;
  graph_sparse_initializer : list SparseTensorProto;
  graph_value_info : list ValueInfoProto;
  graph_doc_string : option string
}.

Definition GraphProto_default : GraphProto :=
  mkGraphProto EmptyString [] [] [] [] [] [] None.

(** Modelled from the spec: the model record (section 3), with the fields
    that [make_model] can be given by keyword. *)
Record ModelProto : Type := mkModelProto {
  model_ir_version : Z;
  model_graph : GraphProto;
  model_opset_import : list OperatorSetIdProto;
  model_producer_name : option string;
  model_producer_version : option string;
  model_domain : option string;
  model_model_version : option Z;
  model_doc_string : option string
}.

End Records.

(** ** The value fields of the schema layer *)

Section Fields.
Context `{Host}.

(** Modelled from the spec: the kinds of the value fields of the schema layer
    (section 4.3: the 8, 16 and 32-bit integer kinds share an [int32]-width
    field, the 64-bit integer kinds an [int64]-width field, the floating
    kinds a [float] or a [double] field, and [STRING] a field of byte
    strings).  The fields [f] and [floats] of an attribute are of the kind
    [float_kind], its fields [i] and [ints] of the kind [int64_kind]. *)
Inductive FieldKind : Type :=
| float_kind | double_kind | int32_kind | int64_kind | uint64_kind | bytes_kind.

Definition field_kind (field : TensorField) : FieldKind :=
  match field with
  | float_data_field => float_kind
  | int32_data_field => int32_kind
  | string_data_field => bytes_kind
  | int64_data_field => int64_kind
  | double_data_field => double_kind
  | uint64_data_field => uint64_kind
  end.

(** The errors of a refused write: [ValueError] for an integer outside the
    range of the field, [TypeError] for a value of another type. *)
Definition ValueOutOfRange : exn := ValueError "Value out of range: {}".
Definition FieldTypeError : exn := TypeError "{} has type {}, but expected one of: {}".

Definition int32_min : Z := -2147483648.
Definition int32_max : Z := 2147483647.
Definition int64_min : Z := -9223372036854775808.
Definition int64_max : Z := 9223372036854775807.
Definition uint64_max : Z := 18446744073709551615.

Definition check_range (lo hi z : Z) : result Z :=
  if (lo <=? z) && (z <=? hi) then Ok z else Raise ValueOutOfRange.

Definition check_int64 (z : Z) : result Z := check_range int64_min int64_max z.

(** Modelled from the spec: what a field of the kind [kind] holds after a write of
    the element [x], or the error of the write.  A float field takes a float
    or an integer, an integer field an integer of its range, a field of byte
    strings a [bytes] object. *)
Definition check_value (kind : FieldKind) (x : elem) : result elem :=
  match kind, x with
  | float_kind, EFloat f => Ok (EFloat (float32 f))
  | float_kind, EInt z => Ok (EFloat (float32 (float_of_int z)))
  | double_kind, EFloat f => Ok (EFloat f)
  | double_kind, EInt z => Ok (EFloat (float_of_int z))
  | int32_kind, EInt z => let* z := check_range int32_min int32_max z in Ok (EInt z)
  | int64_kind, EInt z => let* z := check_int64 z in Ok (EInt z)
  | uint64_kind, EInt z => let* z := check_range 0 uint64_max z in Ok (EInt z)
  | bytes_kind, EBytes b => Ok (EBytes b)
  | _, _ => Raise FieldTypeError
  end.

End Fields.

(** What [helper.py] imports from the rest of the package and from the host
    language.  The three tables are the dictionaries of [onnx.mapping]
    ([None]: the key is missing and the lookup raises [KeyError]). *)
Class Collaborators `{Host} : Type := {
  IR_VERSION : Z;
  onnx_opset_version : Z;
  TENSOR_TYPE_TO_NP_TYPE_itemsize : DataType.t -> option Z;
  TENSOR_TYPE_TO_STORAGE_TENSOR_TYPE : DataType.t -> option DataType.t;
  STORAGE_TENSOR_TYPE_TO_FIELD : DataType.t -> option TensorField;
  (** ['{:.15g}'.format(f)] *)
  str_float : float -> string;
  (** [repr(s)] of a text *)
  repr : string -> string;
  (** [s.decode('utf-8', errors='ignore')] *)
  decode_utf8_ignore : bytes -> string;
  (** [str(field)] of a repeated tensor field *)
  str_repeated : list elem -> string
}.

Section Builders.
Context `{Collaborators}.

(** Python truthiness of a text and of an optional text. *)
Definition truthy (s : string) : bool :=
  match s with
  | EmptyString => false
  | String _ _ => true
  end.

Definition truthy_opt (s : option string) : option string :=
  match s with
  | Some s' => if truthy s' then Some s' else None
  | None => None
  end.

Definition lookup_table {A B} (table : A -> option B) (key : A) : result B :=
  match table key with
  | Some v => Ok v
  | None => Raise KeyError
  end.

(** ** Models *)

Definition make_opsetid (domain : string) (version : Z) : OperatorSetIdProto :=
  mkOperatorSetIdProto domain version.

(** The keyword arguments of [make_model]: [None] is a keyword that is not
    passed (for [opset_imports] also one passed as [None], which both
    functions below treat alike). *)
Record ModelKwargs : Type := mkModelKwargs {
  kw_ir_version : option Z;
  kw_opset_imports : option (list OperatorSetIdProto);
  kw_producer_name : option string;
  kw_producer_version : option string;
  kw_domain : option string;
  kw_model_version : option Z;
  kw_doc_string : option string
}.

Definition no_kwargs : ModelKwargs := mkModelKwargs None None None None None None None.

Definition make_model (graph : GraphProto) (kwargs : ModelKwargs) : ModelProto :=
  let opset_import :=
    match kw_opset_imports kwargs with
    | Some opset_imports => opset_imports
    | None => [mkOperatorSetIdProto EmptyString onnx_opset_version]
    end in
  (* [model.ir_version = IR_VERSION], then [setattr(model, k, v)] for the
     keywords that are left *)
  mkModelProto
    (default IR_VERSION (kw_ir_version kwargs))
    graph
    opset_import
    (kw_producer_name kwargs)
    (kw_producer_version kwargs)
    (kw_domain kwargs)
    (kw_model_version kwargs)
    (kw_doc_string kwargs).

Definition set_kw_ir_version (v : Z) (kwargs : ModelKwargs) : ModelKwargs :=
  mkModelKwargs (Some v) (kw_opset_imports kwargs) (kw_producer_name kwargs)
    (kw_producer_version kwargs) (kw_domain kwargs) (kw_model_version kwargs)
    (kw_doc_string kwargs).

Definition make_model_gen_version (graph : GraphProto) (kwargs : ModelKwargs)
  : result ModelProto :=
  match kw_ir_version kwargs with
  | None =>
      let imports := default [] (kw_opset_imports kwargs) in
      let* ir_version := find_min_ir_version_for imports in
      Ok (make_model graph (set_kw_ir_version ir_version kwargs))
  | Some _ => Ok (make_model graph kwargs)
  end.

(** ** Tensors *)

(** The value sequence of [make_tensor]: a list of elements or a [bytes]
    object (whose items are integers). *)
Inductive tensor_vals : Type :=
| ValList (l : list elem)
| ValBytes (b : bytes).

Definition vals_items (vals : tensor_vals) : list elem :=
  match vals with
  | ValList l => l
  | ValBytes b => map (fun c => EInt (Z.of_N (Byte.to_N c))) b
  end.

Definition vals_len (vals : tensor_vals) : Z := Z.of_nat (length (vals_items vals)).

(** [x.real] and [x.imag]: numbers have them, [bytes] has not. *)
Definition real (x : elem) : result elem :=
  match x with
  | EInt z => Ok (EInt z)
  | EFloat f => Ok (EFloat f)
  | EComplex re _ => Ok (EFloat re)
  | EBytes _ => Raise AttributeError
  end.

Definition imag (x : elem) : result elem :=
  match x with
  | EInt _ => Ok (EInt 0)
  | EFloat _ => Ok (EFloat float_zero)
  | EComplex _ im => Ok (EFloat im)
  | EBytes _ => Raise AttributeError
  end.

(** [[(ca[i // 2].real if (i % 2 == 0) else ca[i // 2].imag)
      for i in range(len(ca) * 2)]] *)
Definition split_complex_to_pairs (ca : list elem) : result (list elem) :=
  mapM (fun i : nat =>
          match ca !! (i / 2)%nat with
          | Some c => if (i mod 2 =? 0)%nat then real c else imag c
          | None => Raise IndexError
          end)
       (seq 0 (length ca * 2)).

Definition getattr_tensor (t : TensorProto) (field : TensorField) : list elem :=
  match field with
  | float_data_field => float_data t
  | int32_data_field => int32_data t
  | string_data_field => string_data t
  | int64_data_field => int64_data t
  | double_data_field => double_data t
  | uint64_data_field => uint64_data t
  end.

(** [getattr(tensor, field).extend(vals)]: every element goes through the
    check of the field, and the first one refused gives the error. *)
Definition extend_tensor_field (field : TensorField) (vals : list elem) (t : TensorProto)
  : result TensorProto :=
  let* vals := mapM (check_value (field_kind field)) vals in
  let 'mkTensorProto n d dims fd i32 sd i64 dd u64 raw := t in
  Ok match field with
     | float_data_field => mkTensorProto n d dims (fd ++ vals) i32 sd i64 dd u64 raw
     | int32_data_field => mkTensorProto n d dims fd (i32 ++ vals) sd i64 dd u64 raw
     | string_data_field => mkTensorProto n d dims fd i32 (sd ++ vals) i64 dd u64 raw
     | int64_data_field => mkTensorProto n d dims fd i32 sd (i64 ++ vals) dd u64 raw
     | double_data_field => mkTensorProto n d dims fd i32 sd i64 (dd ++ vals) u64 raw
     | uint64_data_field => mkTensorProto n d dims fd i32 sd i64 dd (u64 ++ vals) raw
     end.

Definition set_raw_data (b : bytes) (t : TensorProto) : TensorProto :=
  let 'mkTensorProto n d dims fd i32 sd i64 dd u64 _ := t in
  mkTensorProto n d dims fd i32 sd i64 dd u64 (Some b).

Definition extend_dims (dims : list Z) (t : TensorProto) : TensorProto :=
  let 'mkTensorProto n d dims0 fd i32 sd i64 dd u64 raw := t in
  mkTensorProto n d (dims0 ++ dims) fd i32 sd i64 dd u64 raw.

Definition is_complex (data_type : DataType.t) : bool :=
  bool_decide (data_type = DataType.COMPLEX64) || bool_decide (data_type = DataType.COMPLEX128).

Definition make_tensor (name : string) (data_type : DataType.t) (dims : list Z)
    (vals : tensor_vals) (raw : bool) : result TensorProto :=
  let tensor := mkTensorProto name data_type [] [] [] [] [] [] [] None in
  let* _ :=
    if bool_decide (data_type = DataType.STRING) && raw
    then Raise InvalidRawStringTensor else Ok tt in
  (* Check number of vals specified equals tensor size *)
  let* size :=
    if raw then lookup_table TENSOR_TYPE_TO_NP_TYPE_itemsize data_type else Ok 1 in
  let size := foldl Z.mul size dims in
  if bool_decide (vals_len vals <> size) then Raise SizeMismatch else
  let* vals :=
    if is_complex data_type
    then (let* pairs := split_complex_to_pairs (vals_items vals) in Ok (ValList pairs))
    else Ok vals in
  let* tensor :=
    if raw then
      match vals with
      | ValBytes b => Ok (set_raw_data b tensor)
      | ValList _ => Raise (TypeError "raw_data expects bytes")
      end
    else
      let* storage := lookup_table TENSOR_TYPE_TO_STORAGE_TENSOR_TYPE data_type in
      let* field := lookup_table STORAGE_TENSOR_TYPE_TO_FIELD storage in
      extend_tensor_field field (vals_items vals) tensor in
  Ok (extend_dims dims tensor).

Definition make_sparse_tensor (values indices : TensorProto) (dims : list Z)
  : SparseTensorProto :=
  mkSparseTensorProto values indices dims.

End Builders.

(** ** Attributes *)

Section Attributes.
Context `{Host}.

(** The host values offered to [make_attribute] and returned by
    [get_attribute_value].  [PyList] is a list or tuple, which can be
    traversed any number of times; [PyIter l] is a one-shot iterator (a
    generator, a [map] object) that still has [l] to yield. *)
Inductive pyval : Type :=
| PyNone
| PyBool (b : bool)
| PyInt (z : Z)
| PyFloat (x : float)
| PyText (s : string)
| PyBytes (b : bytes)
| PyTensorProto (t : TensorProto)
| PySparseTensorProto (t : SparseTensorProto)
| PyGraphProto (g : GraphProto)
| PyList (l : list pyval)
| PyIter (l : list pyval).

(** [s.encode('utf-8')] for a text of code points below 256: one byte below
    128, two bytes from there on. *)
Definition utf8_encode_char (c : ascii) : bytes :=
  let n := N_of_ascii c in
  if (n <? 128)%N then [byte_of_ascii c]
  else [byte_of_ascii (ascii_of_N (192 + n / 64));
        byte_of_ascii (ascii_of_N (128 + n mod 64))].

Fixpoint utf8_encode (s : string) : bytes :=
  match s with
  | EmptyString => []
  | String c s' => utf8_encode_char c ++ utf8_encode s'
  end.

(** [_to_bytes_or_false]: [None] stands for the [False] of the source. *)
Definition _to_bytes_or_false (val : pyval) : option bytes :=
  match val with
  | PyBytes b => Some b
  | PyText s => Some (utf8_encode s)
  | _ => None
  end.

Definition isinstance_float (v : pyval) : bool :=
  match v with PyFloat _ => true | _ => false end.

(** [isinstance(v, numbers.Integral)]: [int] and [bool]. *)
Definition isinstance_Integral (v : pyval) : bool :=
  match v with PyInt _ | PyBool _ => true | _ => false end.

(** [isinstance(v, numbers.Real)]: [int], [bool] and [float]. *)
Definition isinstance_Real (v : pyval) : bool :=
  match v with PyInt _ | PyBool _ | PyFloat _ => true | _ => false end.

Definition isinstance_TensorProto (v : pyval) : bool :=
  match v with PyTensorProto _ => true | _ => false end.

Definition isinstance_SparseTensorProto (v : pyval) : bool :=
  match v with PySparseTensorProto _ => true | _ => false end.

Definition isinstance_GraphProto (v : pyval) : bool :=
  match v with PyGraphProto _ => true | _ => false end.

(** [isinstance(v, collections.Iterable)] *)
Definition isinstance_Iterable (v : pyval) : bool :=
  match v with PyText _ | PyBytes _ | PyList _ | PyIter _ => true | _ => false end.

(** [int(v)] and [float(v)] *)
Definition py_int (v : pyval) : result Z :=
  match v with
  | PyInt z => Ok z
  | PyBool b => Ok (if b then 1 else 0)
  | _ => Raise (TypeError "int() argument must be a number")
  end.

Definition py_float (v : pyval) : result float :=
  match v with
  | PyFloat x => Ok x
  | PyInt z => Ok (float_of_int z)
  | PyBool b => Ok (float_of_int (if b then 1 else 0))
  | _ => Raise (TypeError "float() argument must be a number")
  end.

(** [for v in value]: what the first traversal of a value yields, and what a
    traversal yields once an earlier one has run to its end. *)
Definition first_pass (value : pyval) : list pyval :=
  match value with
  | PyList l => l
  | PyIter l => l
  | PyText s => map (fun c => PyText (String c EmptyString)) (String.list_ascii_of_string s)
  | PyBytes b => map (fun c => PyInt (Z.of_N (Byte.to_N c))) b
  | _ => []
  end.

Definition later_pass (value : pyval) : list pyval :=
  match value with
  | PyIter _ => []
  | _ => first_pass value
  end.

Definition attr_new (key : string) (doc_string : option string) : AttributeProto :=
  mkAttributeProto key doc_string AttributeType.UNDEFINED
    None None None None None None [] [] [] [] [] [].

Definition attr_set_type (ty : AttributeType.t) (a : AttributeProto) : AttributeProto :=
  let 'mkAttributeProto n d _ f i s t g sp fl il sl tl gl spl := a in
  mkAttributeProto n d ty f i s t g sp fl il sl tl gl spl.

(** [attr.f = x]: a 32-bit float field. *)
Definition attr_set_f (x : float) (a : AttributeProto) : AttributeProto :=
  let 'mkAttributeProto n d ty _ i s t g sp fl il sl tl gl spl := a in
  mkAttributeProto n d ty (Some (float32 x)) i s t g sp fl il sl tl gl spl.

(** [attr.i = x]: a signed 64-bit integer field. *)
Definition attr_set_i (x : Z) (a : AttributeProto) : result AttributeProto :=
  let* x := check_int64 x in
  let 'mkAttributeProto n d ty f _ s t g sp fl il sl tl gl spl := a in
  Ok (mkAttributeProto n d ty f (Some x) s t g sp fl il sl tl gl spl).

Definition attr_set_s (x : bytes) (a : AttributeProto) : AttributeProto :=
  let 'mkAttributeProto n d ty f i _ t g sp fl il sl tl gl spl := a in
  mkAttributeProto n d ty f i (Some x) t g sp fl il sl tl gl spl.

Definition attr_set_t (x : TensorProto) (a : AttributeProto) : AttributeProto :=
  let 'mkAttributeProto n d ty f i s _ g sp fl il sl tl gl spl := a in
  mkAttributeProto n d ty f i s (Some x) g sp fl il sl tl gl spl.

Definition attr_set_g (x : GraphProto) (a : AttributeProto) : AttributeProto :=
  let 'mkAttributeProto n d ty f i s t _ sp fl il sl tl gl spl := a in
  mkAttributeProto n d ty f i s t (Some x) sp fl il sl tl gl spl.

Definition attr_set_sparse_tensor (x : SparseTensorProto) (a : AttributeProto)
  : AttributeProto :=
  let 'mkAttributeProto n d ty f i s t g _ fl il sl tl gl spl := a in
  mkAttributeProto n d ty f i s t g (Some x) fl il sl tl gl spl.

(** [attr.floats.extend(xs)]: repeated 32-bit floats. *)
Definition attr_extend_floats (xs : list float) (a : AttributeProto) : AttributeProto :=
  let 'mkAttributeProto n d ty f i s t g sp fl il sl tl gl spl := a in
  mkAttributeProto n d ty f i s t g sp (fl ++ map float32 xs) il sl tl gl spl.

(** [attr.ints.extend(xs)]: repeated signed 64-bit integers; the first one
    out of range gives the error. *)
Definition attr_extend_ints (xs : list Z) (a : AttributeProto) : result AttributeProto :=
  let* xs := mapM check_int64 xs in
  let 'mkAttributeProto n d ty f i s t g sp fl il sl tl gl spl := a in
  Ok (mkAttributeProto n d ty f i s t g sp fl (il ++ xs) sl tl gl spl).

Definition attr_extend_strings (xs : list bytes) (a : AttributeProto) : AttributeProto :=
  let 'mkAttributeProto n d ty f i s t g sp fl il sl tl gl spl := a in
  mkAttributeProto n d ty f i s t g sp fl il (sl ++ xs) tl gl spl.

Definition attr_extend_tensors (xs : list TensorProto) (a : AttributeProto)
  : AttributeProto :=
  let 'mkAttributeProto n d ty f i s t g sp fl il sl tl gl spl := a in
  mkAttributeProto n d ty f i s t g sp fl il sl (tl ++ xs) gl spl.

Definition attr_extend_graphs (xs : list GraphProto) (a : AttributeProto)
  : AttributeProto :=
  let 'mkAttributeProto n d ty f i s t g sp fl il sl tl gl spl := a in
  mkAttributeProto n d ty f i s t g sp fl il sl tl (gl ++ xs) spl.

Definition attr_extend_sparse_tensors (xs : list SparseTensorProto) (a : AttributeProto)
  : AttributeProto :=
  let 'mkAttributeProto n d ty f i s t g sp fl il sl tl gl spl := a in
  mkAttributeProto n d ty f i s t g sp fl il sl tl gl (spl ++ xs).

(** The elements of a repeated message field extended with a host sequence:
    the runtime refuses an element of another type. *)
Definition as_TensorProto (v : pyval) : result TensorProto :=
  match v with
  | PyTensorProto t => Ok t
  | _ => Raise (TypeError "expected TensorProto")
  end.

Definition as_SparseTensorProto (v : pyval) : result SparseTensorProto :=
  match v with
  | PySparseTensorProto t => Ok t
  | _ => Raise (TypeError "expected SparseTensorProto")
  end.

Definition as_GraphProto (v : pyval) : result GraphProto :=
  match v with
  | PyGraphProto g => Ok g
  | _ => Raise (TypeError "expected GraphProto")
  end.

(** The iterable cases of [make_attribute].  [byte_array] is built by the
    first traversal of [value]; every test and every [extend] after it
    traverses [value] again. *)
Definition make_attribute_iterable (attr : AttributeProto) (value : pyval)
  : result AttributeProto :=
  let byte_array := map _to_bytes_or_false (first_pass value) in
  if forallb isinstance_Integral (later_pass value) then
    (* Turn np.int32/64 into Python built-in int. *)
    let* ints := mapM py_int (later_pass value) in
    let* attr := attr_extend_ints ints attr in
    Ok (attr_set_type AttributeType.INTS attr)
  else if forallb isinstance_Real (later_pass value) then
    (* Since ints and floats are members of Real, this allows a mix of ints
       and floats (and converts the ints to floats). *)
    let* floats := mapM py_float (later_pass value) in
    Ok (attr_set_type AttributeType.FLOATS (attr_extend_floats floats attr))
  else if forallb (fun bytes_or_false => bool_decide (is_Some bytes_or_false)) byte_array then
    Ok (attr_set_type AttributeType.STRINGS (attr_extend_strings (omap id byte_array) attr))
  else if forallb isinstance_TensorProto (later_pass value) then
    let* tensors := mapM as_TensorProto (later_pass value) in
    Ok (attr_set_type AttributeType.TENSORS (attr_extend_tensors tensors attr))
  else if forallb isinstance_SparseTensorProto (later_pass value) then
    let* sparse_tensors := mapM as_SparseTensorProto (later_pass value) in
    Ok (attr_set_type AttributeType.SPARSE_TENSORS
          (attr_extend_sparse_tensors sparse_tensors attr))
  else if forallb isinstance_GraphProto (later_pass value) then
    let* graphs := mapM as_GraphProto (later_pass value) in
    Ok (attr_set_type AttributeType.GRAPHS (attr_extend_graphs graphs attr))
  else
    Raise AmbiguousAttributeType.

(** Makes an AttributeProto based on the value type. *)
Definition make_attribute (key : string) (value : pyval) (doc_string : option string)
  : result AttributeProto :=
  let attr := attr_new key (truthy_opt doc_string) in
  let is_iterable := isinstance_Iterable value in
  let bytes_or_false := _to_bytes_or_false value in
  (* First, singular cases *)
  match value with
  | PyFloat x =>
      Ok (attr_set_type AttributeType.FLOAT (attr_set_f x attr))
  | _ =>
  if isinstance_Integral value then
    let* i := py_int value in
    let* attr := attr_set_i i attr in
    Ok (attr_set_type AttributeType.INT attr)
  else
  match bytes_or_false with
  | Some b =>
      Ok (attr_set_type AttributeType.STRING (attr_set_s b attr))
  | None =>
  match value with
  | PyTensorProto t =>
      Ok (attr_set_type AttributeType.TENSOR (attr_set_t t attr))
  | PySparseTensorProto t =>
      Ok (attr_set_type AttributeType.SPARSE_TENSOR (attr_set_sparse_tensor t attr))
  | PyGraphProto g =>
      Ok (attr_set_type AttributeType.GRAPH (attr_set_g g attr))
  | _ =>
  (* third, iterable cases *)
  if is_iterable then make_attribute_iterable attr value
  else Raise UnsupportedAttributeType
  end end end.

(** A field that was never set reads as its default. *)
Definition get_attribute_value (attr : AttributeProto) : result pyval :=
  match attr_type attr with
  | AttributeType.FLOAT => Ok (PyFloat (default float_zero (attr_f attr)))
  | AttributeType.INT => Ok (PyInt (default 0 (attr_i attr)))
  | AttributeType.STRING => Ok (PyBytes (default [] (attr_s attr)))
  | AttributeType.TENSOR => Ok (PyTensorProto (default TensorProto_default (attr_t attr)))
  | AttributeType.SPARSE_TENSOR =>
      Ok (PySparseTensorProto (default SparseTensorProto_default (attr_sparse_tensor attr)))
  | AttributeType.GRAPH => Ok (PyGraphProto (default GraphProto_default (attr_g attr)))
  | AttributeType.FLOATS => Ok (PyList (map PyFloat (attr_floats attr)))
  | AttributeType.INTS => Ok (PyList (map PyInt (attr_ints attr)))
  | AttributeType.STRINGS => Ok (PyList (map PyBytes (attr_strings attr)))
  | AttributeType.TENSORS => Ok (PyList (map PyTensorProto (attr_tensors attr)))
  | AttributeType.SPARSE_TENSORS =>
      Ok (PyList (map PySparseTensorProto (attr_sparse_tensors attr)))
  | AttributeType.GRAPHS => Ok (PyList (map PyGraphProto (attr_graphs attr)))
  | AttributeType.UNDEFINED => Raise UnsupportedAttributeKind
  end.

End Attributes.

(** ** Value infos *)

Section ValueInfos.
Context `{Host}.

(** An entry of the [shape] argument: [None], an integer, a text, or a value
    of any other type. *)
Inductive shape_item : Type :=
| ShapeNone
| ShapeInt (d : Z)
| ShapeText (d : string)
| ShapeOther.

(** Python truthiness of an optional list: [None] and [[]] are false. *)
Definition truthy_list {A} (l : option (list A)) : bool :=
  match l with
  | Some (_ :: _) => true
  | _ => false
  end.

Definition enumerate {A} (l : list A) : list (nat * A) := zip (seq 0 (length l)) l.

(** One round of the loop [for i, d in enumerate(shape)]. *)
Definition make_dim (shape_denotation : option (list string)) (entry : nat * shape_item)
  : result Dimension :=
  let '(i, d) := entry in
  let* which :=
    match d with
    | ShapeNone => Ok dim_unset
    | ShapeInt v => Ok (dim_value v)
    | ShapeText p => Ok (dim_param p)
    | ShapeOther => Raise InvalidShapeItem
    end in
  if truthy_list shape_denotation then
    match default [] shape_denotation !! i with
    | Some denotation => Ok (mkDimension which (Some denotation))
    | None => Raise IndexError
    end
  else Ok (mkDimension which None).

(** The block under [if shape is not None:], which [make_tensor_value_info]
    and [make_sparse_tensor_value_info] both have, word for word. *)
Definition make_shape (shape : list shape_item) (shape_denotation : option (list string))
  : result (list Dimension) :=
  let* _ :=
    if truthy_list shape_denotation then
      if bool_decide (length (default [] shape_denotation) <> length shape)
      then Raise DenotationLengthMismatch else Ok tt
    else Ok tt in
  mapM (make_dim shape_denotation) (enumerate shape).

Definition make_optional_shape (shape : option (list shape_item))
    (shape_denotation : option (list string)) : result (option (list Dimension)) :=
  match shape with
  | None => Ok None
  | Some shape =>
      let* dims := make_shape shape shape_denotation in
      Ok (Some dims)
  end.

Definition make_empty_tensor_value_info (name : string) : ValueInfoProto :=
  mkValueInfoProto name None type_unset.

(** Makes a ValueInfoProto based on the data type and shape. *)
Definition make_tensor_value_info (name : string) (elem_type : DataType.t)
    (shape : option (list shape_item)) (doc_string : string)
    (shape_denotation : option (list string)) : result ValueInfoProto :=
  let doc := if truthy doc_string then Some doc_string else None in
  let* tensor_shape_proto := make_optional_shape shape shape_denotation in
  Ok (mkValueInfoProto name doc (tensor_type (mkTensorTypeProto elem_type tensor_shape_proto))).

Definition make_sparse_tensor_value_info (name : string) (elem_type : DataType.t)
    (shape : option (list shape_item)) (doc_string : string)
    (shape_denotation : option (list string)) : result ValueInfoProto :=
  let doc := if truthy doc_string then Some doc_string else None in
  let* sparse_tensor_shape_proto := make_optional_shape shape shape_denotation in
  Ok (mkValueInfoProto name doc
        (sparse_tensor_type (mkTensorTypeProto elem_type sparse_tensor_shape_proto))).

Definition type_tensor_shape (t : TypeProto) : option (list Dimension) :=
  match t with
  | tensor_type ty => tt_shape ty
  | _ => None
  end.

(** Makes a ValueInfoProto based on the data type and shape for Sequence. *)
Definition make_sequence_value_info (name : string) (elem_type : DataType.t)
    (shape : option (list shape_item)) (doc_string : string)
    (elem_shape_denotation : option (list string)) : result ValueInfoProto :=
  let doc := if truthy doc_string then Some doc_string else None in
  let* tensor_value_info :=
    make_tensor_value_info name elem_type shape doc_string elem_shape_denotation in
  let elem_shape :=
    match shape with
    | Some _ => Some (default [] (type_tensor_shape (vi_type tensor_value_info)))
    | None => None
    end in
  Ok (mkValueInfoProto name doc
        (sequence_type (tensor_type (mkTensorTypeProto elem_type elem_shape)))).

End ValueInfos.

(** ** The printer *)

Section Printer.
Context `{Collaborators}.

(** [sep.join(l)] *)
Definition join (sep : string) (l : list string) : string := String.concat sep l.

(** [str(i)] and ['{:d}'.format(i)] of an integer. *)
Definition str_int (i : Z) : string := pretty i.

(** ['%{}'.format(name)] *)
Definition percent (name : string) : string := "%" +:+ name.

(** [sorted(l)] on texts: insertion in code-point order. *)
Fixpoint insert_sorted (s : string) (l : list string) : list string :=
  match l with
  | [] => [s]
  | x :: l' => if String.leb s x then s :: l else x :: insert_sorted s l'
  end.

Definition sorted (l : list string) : list string := foldr insert_sorted [] l.

(** [_sanitize_str] on the [bytes] of a string attribute. *)
Definition _sanitize_str (s : bytes) : string :=
  let sanitized := decode_utf8_ignore s in
  if (String.length sanitized <? 64)%nat then sanitized
  else String.substring 0 64 sanitized
       +:+ "...<+len=" +:+ pretty (Z.of_nat (String.length sanitized - 64)) +:+ ">".

(** [str_list(str_elem, xs)] *)
Definition str_list {A} (str_elem : A -> string) (xs : list A) : string :=
  "[" +:+ join ", " (map str_elem xs) +:+ "]".

Definition nonempty {A} (l : list A) : bool :=
  match l with
  | [] => false
  | _ :: _ => true
  end.

(** [printable_attribute(attr, subgraphs=True)]: the text and the graphs that
    the attribute hands to its caller.  The branches are tried in the order of
    the source: the fields [f], [i], [s], [t], [g], then the lists. *)
Definition printable_attribute (attr : AttributeProto)
  : result (string * list GraphProto) :=
  let content := [attr_name attr; "="] in
  let* (value, graphs) :=
    match attr_f attr, attr_i attr, attr_s attr, attr_t attr, attr_g attr with
    | Some f, _, _, _, _ => Ok ([str_float f], [])
    | None, Some i, _, _, _ => Ok ([str_int i], [])
    | None, None, Some s, _, _ => Ok ([repr (_sanitize_str s)], [])
    | None, None, None, Some t, _ =>
        if (0 <? length (tensor_dims t))%nat then Ok (["<Tensor>"], [])
        else
          (* special case to print scalars *)
          let* field := lookup_table STORAGE_TENSOR_TYPE_TO_FIELD (tensor_data_type t) in
          Ok (["<Scalar Tensor " +:+ str_repeated (getattr_tensor t field) +:+ ">"], [])
    | None, None, None, None, Some g =>
        Ok (["<graph " +:+ graph_name g +:+ ">"], [g])
    | None, None, None, None, None =>
        if nonempty (attr_floats attr) then
          Ok ([str_list str_float (attr_floats attr)], [])
        else if nonempty (attr_ints attr) then
          Ok ([str_list str_int (attr_ints attr)], [])
        else if nonempty (attr_strings attr) then
          Ok ([str_list repr (map _sanitize_str (attr_strings attr))], [])
        else if nonempty (attr_tensors attr) then
          Ok (["[<Tensor>, ...]"], [])
        else if nonempty (attr_graphs attr) then
          let n := length (attr_graphs attr) in
          Ok (["["]
              ++ imap (fun i g =>
                         "<graph " +:+ graph_name g +:+ ">"
                         +:+ (if bool_decide (i <> (n - 1)%nat) then "," else EmptyString))
                      (attr_graphs attr)
              ++ ["]"],
              attr_graphs attr)
        else Ok (["<Unknown>"], [])
    end in
  Ok (join " " (content ++ value), graphs).

Definition printable_dim (dim : Dimension) : result string :=
  match dim_which dim with
  | dim_unset => Raise (AssertionError EmptyString)
  | dim_value v => Ok (str_int v)
  | dim_param p => Ok p
  end.

Definition printable_type (t : TypeProto) : result string :=
  match t with
  | tensor_type ty =>
      let s := DataType.Name (tt_elem_type ty) in
      match tt_shape ty with
      | Some dims =>
          if nonempty dims then
            let* printed := mapM printable_dim dims in
            Ok (s +:+ ", " +:+ join "x" printed)
          else Ok (s +:+ ", scalar")
      | None => Ok s
      end
  | type_unset => Ok EmptyString
  | sparse_tensor_type _ => Ok "Unknown type sparse_tensor_type"
  | sequence_type _ => Ok "Unknown type sequence_type"
  end.

(** A message is always true in [if v.type:]. *)
Definition printable_value_info (v : ValueInfoProto) : result string :=
  let s := percent (vi_name v) in
  let* ty := printable_type (vi_type v) in
  Ok (s +:+ "[" +:+ ty +:+ "]").

Definition printable_tensor_proto (t : TensorProto) : string :=
  let s := "%" +:+ tensor_name t +:+ "[" in
  let s := s +:+ DataType.Name (tensor_data_type t) in
  let s :=
    if nonempty (tensor_dims t)
    then s +:+ ", " +:+ join "x" (map str_int (tensor_dims t))
    else s +:+ ", scalar" in
  s +:+ "]".

(** [printable_node(node, prefix, subgraphs=True)] *)
Definition printable_node (node : NodeProto) (prefix : string)
  : result (string * list GraphProto) :=
  let content :=
    if nonempty (node_output node)
    then [join ", " (map percent (node_output node)); "="]
    else [] in
  (* To deal with nested graphs *)
  let* printed := mapM printable_attribute (node_attribute node) in
  let graphs := concat (map snd printed) in
  let printed_attrs := map fst printed in
  let printed_attributes := join ", " (sorted printed_attrs) in
  let printed_inputs := join ", " (map percent (node_input node)) in
  let content :=
    if nonempty (node_attribute node)
    then content ++ [node_op_type node +:+ "[" +:+ printed_attributes +:+ "]("
                     +:+ printed_inputs +:+ ")"]
    else content ++ [node_op_type node +:+ "(" +:+ printed_inputs +:+ ")"] in
  Ok (prefix +:+ join " " content, graphs).

(** The three parenthesised sections of the header of [printable_graph]: the
    lines written so far and the words of the header line still open. *)
Definition graph_header (graph : GraphProto) (prefix : string)
  : result (list string * list string) :=
  let content : list string := [] in
  let header := ["graph"; graph_name graph] in
  let initializers : gset string := list_to_set (map tensor_name (graph_initializer graph)) in
  if nonempty (graph_input graph) then
    let header := header ++ ["("] in
    let* printed := mapM (fun inp =>
                            let* s := printable_value_info inp in
                            Ok (bool_decide (vi_name inp ∈ initializers), s))
                         (graph_input graph) in
    (* required inputs *)
    let in_strs := map snd (filter (fun p => fst p = false) printed) in
    (* optional inputs with initializer providing default value *)
    let in_with_init_strs := map snd (filter (fun p => fst p = true) printed) in
    let '(content, header) :=
      if nonempty in_strs
      then (content ++ [prefix +:+ join " " header]
                    ++ map (fun line => prefix +:+ "  " +:+ line) in_strs, [])
      else (content, header) in
    let header := header ++ [")"] in
    let '(content, header) :=
      if nonempty in_with_init_strs then
        let header := header ++ ["optional inputs with matching initializers ("] in
        (content ++ [prefix +:+ join " " header]
                 ++ map (fun line => prefix +:+ "  " +:+ line) in_with_init_strs, [")"])
      else (content, header) in
    (* from IR 4 onwards an initializer is not required to have a matching
       graph input so output the name, type and shape of those as well *)
    let '(content, header) :=
      if bool_decide (length in_with_init_strs < size initializers)%nat then
        let graph_inputs : gset string := list_to_set (map vi_name (graph_input graph)) in
        let init_strs :=
          map printable_tensor_proto
              (filter (fun i => tensor_name i ∉ graph_inputs) (graph_initializer graph)) in
        let header := header ++ ["initializers ("] in
        (content ++ [prefix +:+ join " " header]
                 ++ map (fun line => prefix +:+ "  " +:+ line) init_strs, [")"])
      else (content, header) in
    Ok (content, header)
  else Ok (content, header).

(** [printable_graph] up to and including the closing bracket: the lines of
    the graph's own block, and the graphs its nodes handed up, in the order of
    the nodes. *)
Definition graph_block (graph : GraphProto) (prefix : string)
  : result (list string * list GraphProto) :=
  let indent := prefix +:+ "  " in
  (* header *)
  let* (content, header) := graph_header graph prefix in
  let header := header ++ ["{"] in
  let content := content ++ [prefix +:+ join " " header] in
  (* body *)
  let* printed := mapM (fun node => printable_node node indent) (graph_node graph) in
  let content := content ++ map fst printed in
  let graphs := concat (map snd printed) in
  (* tail *)
  let tail :=
    if nonempty (graph_output graph)
    then ["return"; join ", " (map (fun out => percent (vi_name out)) (graph_output graph))]
    else ["return"] in
  let content := content ++ [indent +:+ join " " tail] in
  (* closing bracket *)
  let content := content ++ [prefix +:+ "}"] in
  Ok (content, graphs).

(** The depth of nesting of a graph: one more than that of the deepest graph
    among the attributes of its nodes. *)
Fixpoint graph_depth (g : GraphProto) : nat :=
  S (list_max (map node_depth (graph_node g)))
with node_depth (n : NodeProto) : nat :=
  list_max (map attr_depth (node_attribute n))
with attr_depth (a : AttributeProto) : nat :=
  Nat.max (match attr_g a with Some g => graph_depth g | None => 0%nat end)
          (list_max (map graph_depth (attr_graphs a))).

(** [printable_graph] with a bound on the depth of the recursion. *)
Fixpoint printable_graph_rec (depth : nat) (graph : GraphProto) (prefix : string)
  : result string :=
  match depth with
  | O => Raise RecursionError
  | S depth' =>
      let* (content, graphs) := graph_block graph prefix in
      let* nested := mapM (fun g => printable_graph_rec depth' g EmptyString) graphs in
      let content := content ++ map (fun s => String "010" EmptyString +:+ s) nested in
      Ok (join (String "010" EmptyString) content)
  end.

(** The recursion of the source goes as deep as the graphs are nested. *)
Definition printable_graph (graph : GraphProto) (prefix : string) : result string :=
  printable_graph_rec (graph_depth graph) graph prefix.

End Printer.



From Stdlib Require Import Sorting.Sorted.

(** ** Nodes and graphs *)

Section NodesAndGraphs.
Context `{Host}.

Definition make_operatorsetid (domain : string) (version : Z) : OperatorSetIdProto :=
  mkOperatorSetIdProto domain version.

(** [sorted(kwargs.items())]: the items of a dictionary are pairs with
    distinct keys, so two of them are always ordered by their keys and the
    values are never compared. *)
Fixpoint insert_item (item : string * pyval) (l : list (string * pyval))
  : list (string * pyval) :=
  match l with
  | [] => [item]
  | x :: l' =>
      if String.leb (fst item) (fst x) then item :: l else x :: insert_item item l'
  end.

Definition sorted_items (items : list (string * pyval)) : list (string * pyval) :=
  foldr insert_item [] items.

(** Construct a NodeProto.  [kwargs] are the items of the keyword dictionary,
    in the order the keywords were passed. *)
Definition make_node (op_type : string) (inputs outputs : list string)
    (name doc_string domain : option string) (kwargs : list (string * pyval))
  : result NodeProto :=
  let* attributes :=
    mapM (fun item => make_attribute (fst item) (snd item) None) (sorted_items kwargs) in
  Ok (mkNodeProto op_type inputs outputs (truthy_opt name) (truthy_opt doc_string)
        domain attributes).

(** [initializer], [sparse_initializer] and [value_info] that are [None] are
    read as empty lists. *)
Definition make_graph (nodes : list NodeProto) (name : string)
    (inputs outputs : list ValueInfoProto) (initializer : option (list TensorProto))
    (doc_string : option string) (value_info : option (list ValueInfoProto))
    (sparse_initializer : option (list SparseTensorProto)) : GraphProto :=
  mkGraphProto name nodes inputs outputs
    (default [] initializer)
    (default [] sparse_initializer)
    (default [] value_info)
    (truthy_opt doc_string).

End NodesAndGraphs.

(** ** Stripping doc strings *)

Section StripDocString.
Context `{Host}.

(** [strip_doc_string] walks the fields of a message: it clears a field named
    [doc_string] and goes into every message field, each element of a
    repeated one and a singular one when it is set.  On the records of this
    file: a value info has a doc string and, in its type, no other; the
    records of a tensor and of a sparse tensor carry no doc string, so the
    initializers and the tensors of an attribute are passed on as they are. *)
Definition strip_doc_string_value_info (v : ValueInfoProto) : ValueInfoProto :=
  mkValueInfoProto (vi_name v) None (vi_type v).

Fixpoint strip_doc_string (g : GraphProto) : GraphProto :=
  mkGraphProto (graph_name g)
    (map strip_doc_string_node (graph_node g))
    (map strip_doc_string_value_info (graph_input g))
    (map strip_doc_string_value_info (graph_output g))
    (graph_initializer g)
    (graph_sparse_initializer g)
    (map strip_doc_string_value_info (graph_value_info g))
    None
with strip_doc_string_node (n : NodeProto) : NodeProto :=
  mkNodeProto (node_op_type n) (node_input n) (node_output n) (node_name n) None
    (node_domain n)
    (map strip_doc_string_attribute (node_attribute n))
with strip_doc_string_attribute (a : AttributeProto) : AttributeProto :=
  mkAttributeProto (attr_name a) None (attr_type a) (attr_f a) (attr_i a) (attr_s a)
    (attr_t a)
    (match attr_g a with Some g => Some (strip_doc_string g) | None => None end)
    (attr_sparse_tensor a) (attr_floats a) (attr_ints a) (attr_strings a) (attr_tensors a)
    (map strip_doc_string (attr_graphs a))
    (attr_sparse_tensors a).

End StripDocString.

(** ** Notions used to state the properties *)

(** The first row of a table, in file order, whose pairs include [pair]. *)
Definition first_row_introducing (pair : string * Z) (table : list VersionRowType)
  : option VersionRowType :=
  List.find (fun row => bool_decide (pair ∈ row_pairs row)) table.

(** The key under which [find_min] looks an operator-set id up. *)
Definition opset_key (x : OperatorSetIdProto) : string * Z :=
  (if decide (opset_domain x = EmptyString) then "ai.onnx" else opset_domain x,
   opset_version x).

Section AttributeValues.
Context `{Host}.

(** The twelve variants of an attribute value, as the data model of the
    specification has them. *)
Inductive AttributeValue : Type :=
| AFloat (x : float)
| AInt (i : Z)
| AString (s : bytes)
| ATensor (t : TensorProto)
| ASparseTensor (t : SparseTensorProto)
| AGraph (g : GraphProto)
| AFloats (l : list float)
| AInts (l : list Z)
| AStrings (l : list bytes)
| ATensors (l : list TensorProto)
| ASparseTensors (l : list SparseTensorProto)
| AGraphs (l : list GraphProto).

(** The host value of a variant. *)
Definition host_value (v : AttributeValue) : pyval :=
  match v with
  | AFloat x => PyFloat x
  | AInt i => PyInt i
  | AString s => PyBytes s
  | ATensor t => PyTensorProto t
  | ASparseTensor t => PySparseTensorProto t
  | AGraph g => PyGraphProto g
  | AFloats l => PyList (map PyFloat l)
  | AInts l => PyList (map PyInt l)
  | AStrings l => PyList (map PyBytes l)
  | ATensors l => PyList (map PyTensorProto l)
  | ASparseTensors l => PyList (map PySparseTensorProto l)
  | AGraphs l => PyList (map PyGraphProto l)
  end.

(** The record of a variant: the kind tag and the one populated field. *)
Definition attribute_record (key : string) (doc : option string) (v : AttributeValue)
  : AttributeProto :=
  let mk ty f i s t g sp fl il sl tl gl spl :=
    mkAttributeProto key doc ty f i s t g sp fl il sl tl gl spl in
  match v with
  | AFloat x => mk AttributeType.FLOAT (Some x) None None None None None [] [] [] [] [] []
  | AInt i => mk AttributeType.INT None (Some i) None None None None [] [] [] [] [] []
  | AString s => mk AttributeType.STRING None None (Some s) None None None [] [] [] [] [] []
  | ATensor t => mk AttributeType.TENSOR None None None (Some t) None None [] [] [] [] [] []
  | ASparseTensor t =>
      mk AttributeType.SPARSE_TENSOR None None None None None (Some t) [] [] [] [] [] []
  | AGraph g => mk AttributeType.GRAPH None None None None (Some g) None [] [] [] [] [] []
  | AFloats l => mk AttributeType.FLOATS None None None None None None l [] [] [] [] []
  | AInts l => mk AttributeType.INTS None None None None None None [] l [] [] [] []
  | AStrings l => mk AttributeType.STRINGS None None None None None None [] [] l [] [] []
  | ATensors l => mk AttributeType.TENSORS None None None None None None [] [] [] l [] []
  | ASparseTensors l =>
      mk AttributeType.SPARSE_TENSORS None None None None None None [] [] [] [] [] l
  | AGraphs l => mk AttributeType.GRAPHS None None None None None None [] [] [] [] l []
  end.

(** What a host value is as an integral, as a number upcast to floating, as
    text or bytes, and as a record. *)
Definition as_integral (v : pyval) : option Z :=
  match v with
  | PyInt z => Some z
  | PyBool b => Some (if b then 1 else 0)
  | _ => None
  end.

Definition as_numeric (v : pyval) : option float :=
  match v with
  | PyFloat x => Some x
  | _ => float_of_int <$> as_integral v
  end.

Definition as_tensor (v : pyval) : option TensorProto :=
  match v with PyTensorProto t => Some t | _ => None end.

Definition as_sparse_tensor (v : pyval) : option SparseTensorProto :=
  match v with PySparseTensorProto t => Some t | _ => None end.

Definition as_graph (v : pyval) : option GraphProto :=
  match v with PyGraphProto g => Some g | _ => None end.

(** [all_of f l] is the list of the [f x] when every element of [l] has one. *)
Fixpoint all_of {A} (f : pyval -> option A) (l : list pyval) : option (list A) :=
  match l with
  | [] => Some []
  | x :: l' =>
      match f x, all_of f l' with
      | Some y, Some ys => Some (y :: ys)
      | _, _ => None
      end
  end.

(** The disambiguation order of section 4.2 of the specification, in its
    words: first match wins, over all the elements of an iterable. *)
Definition select_list_variant (elements : list pyval) : result AttributeValue :=
  match all_of as_integral elements with
  | Some ints => Ok (AInts ints)
  | None =>
  match all_of as_numeric elements with
  | Some floats => Ok (AFloats floats)
  | None =>
  match all_of _to_bytes_or_false elements with
  | Some strings => Ok (AStrings strings)
  | None =>
  match all_of as_tensor elements with
  | Some tensors => Ok (ATensors tensors)
  | None =>
  match all_of as_sparse_tensor elements with
  | Some sparse_tensors => Ok (ASparseTensors sparse_tensors)
  | None =>
  match all_of as_graph elements with
  | Some graphs => Ok (AGraphs graphs)
  | None => Raise AmbiguousAttributeType
  end end end end end end.

Definition select_variant (value : pyval) : result AttributeValue :=
  match value with
  | PyFloat x => Ok (AFloat x)
  | PyInt z => Ok (AInt z)
  | PyBool b => Ok (AInt (if b then 1 else 0))
  | PyText s => Ok (AString (utf8_encode s))
  | PyBytes b => Ok (AString b)
  | PyTensorProto t => Ok (ATensor t)
  | PySparseTensorProto t => Ok (ASparseTensor t)
  | PyGraphProto g => Ok (AGraph g)
  | PyList elements => select_list_variant elements
  | PyIter elements => select_list_variant elements
  | PyNone => Raise UnsupportedAttributeType
  end.

Definition one_shot (value : pyval) : bool :=
  match value with PyIter _ => true | _ => false end.

(** A float that is a single-precision value and an integer that fits in 64
    bits, signed: the values that the fields of an attribute record hold as
    they are. *)
Definition single_precision (x : float) : Prop := float32 x = x.

Definition fits_int64 (z : Z) : Prop := int64_min <= z <= int64_max.

(** A variant all of whose floats are single-precision values and all of
    whose integers fit in 64 bits. *)
Definition fits_fields (v : AttributeValue) : Prop :=
  match v with
  | AFloat x => single_precision x
  | AInt i => fits_int64 i
  | AFloats l => Forall single_precision l
  | AInts l => Forall fits_int64 l
  | _ => True
  end.

(** A variant as the fields of the record hold it: the floats rounded to
    single precision, the integers unchanged when all of them fit in 64 bits,
    and no record otherwise. *)
Definition held (v : AttributeValue) : result AttributeValue :=
  match v with
  | AFloat x => Ok (AFloat (float32 x))
  | AInt i => let* i := check_int64 i in Ok (AInt i)
  | AFloats l => Ok (AFloats (map float32 l))
  | AInts l => let* l := mapM check_int64 l in Ok (AInts l)
  | _ => Ok v
  end.

(** The graphs of a graph-valued attribute: its graph, or the graphs of its
    list of graphs; those of the attributes of a node, in the order of the
    attributes; and those of the nodes of a graph, in the order of the
    nodes. *)
Definition attribute_graphs (a : AttributeProto) : list GraphProto :=
  match attr_g a with
  | Some g => [g]
  | None => attr_graphs a
  end.

Definition node_graphs (n : NodeProto) : list GraphProto :=
  flat_map attribute_graphs (node_attribute n).

Definition nested_graphs (g : GraphProto) : list GraphProto :=
  flat_map node_graphs (graph_node g).

(** An attribute that is the record of a variant, as [make_attribute] makes
    them; a node and a graph whose attributes are such records. *)
Definition well_formed_attribute (a : AttributeProto) : Prop :=
  exists key doc v, a = attribute_record key doc v.

Definition well_formed_node (n : NodeProto) : Prop :=
  Forall well_formed_attribute (node_attribute n).

Definition well_formed_nodes (g : GraphProto) : Prop :=
  Forall well_formed_node (graph_node g).

End AttributeValues.

(** The expected element count of a tensor: the product of its dimensions,
    1 for a scalar. *)
Definition dims_product (dims : list Z) : Z := foldr Z.mul 1 dims.

Section ShapeNotions.
Context `{Host}.

(** A complex element of a tensor, and the two real entries it is stored as. *)
Definition complex_elem (c : float * float) : elem := EComplex (fst c) (snd c).

Definition real_imag_pair (c : float * float) : list elem := [EFloat (fst c); EFloat (snd c)].

(** A real number as a float field holds it: rounded to single precision in
    the 32-bit field, unchanged in the 64-bit one. *)
Definition held_real (field : TensorField) (x : float) : float :=
  match field with
  | float_data_field => float32 x
  | _ => x
  end.

Definition held_pair (field : TensorField) (c : float * float) : list elem :=
  [EFloat (held_real field (fst c)); EFloat (held_real field (snd c))].

(** The [value] of the dimension built from an entry of [shape], for the
    entries that have one. *)
Definition shape_item_value (d : shape_item) : option DimensionValue :=
  match d with
  | ShapeNone => Some dim_unset
  | ShapeInt v => Some (dim_value v)
  | ShapeText p => Some (dim_param p)
  | ShapeOther => None
  end.

(** The dimension built from the entry [d] and the denotation [s]. *)
Definition denoted_dim (d : shape_item) (s : string) : Dimension :=
  mkDimension (default dim_unset (shape_item_value d)) (Some s).

(** The shape of the type of a value info, tensor or sparse tensor. *)
Definition vi_shape (v : ValueInfoProto) : option (list Dimension) :=
  match vi_type v with
  | tensor_type ty => tt_shape ty
  | sparse_tensor_type ty => tt_shape ty
  | _ => None
  end.

(** A graph with the name of [g] and nothing else; an attribute and a node
    whose nested graphs are emptied in this way. *)
Definition hollow (g : GraphProto) : GraphProto :=
  mkGraphProto (graph_name g) [] [] [] [] [] [] None.

Definition hollow_attribute (a : AttributeProto) : AttributeProto :=
  let 'mkAttributeProto n d ty f i s t g sp fl il sl tl gl spl := a in
  mkAttributeProto n d ty f i s t (hollow <$> g) sp fl il sl tl (map hollow gl) spl.

Definition hollow_node (n : NodeProto) : NodeProto :=
  let 'mkNodeProto op inp out name doc dom attrs := n in
  mkNodeProto op inp out name doc dom (map hollow_attribute attrs).

End ShapeNotions.

(** The line feed that separates the lines of a printed graph. *)
Definition newline : string := String "010" EmptyString.

Section PrinterNotions.
Context `{Host}.

(** The [return] line of a printed graph. *)
Definition last_line (prefix : string) (graph : GraphProto) : string :=
  (prefix +:+ "  ") +:+
  String.concat " "
    (if match graph_output graph with [] => false | _ :: _ => true end
     then ["return";
           String.concat ", " (map (fun out => "%" +:+ vi_name out) (graph_output graph))]
     else ["return"]).

(** A printed item whose graphs are emptied. *)
Definition hollow_graphs (p : string * list GraphProto) : string * list GraphProto :=
  (fst p, map hollow (snd p)).

End PrinterNotions.

(** ** Notions used to state further properties *)

(** Insertion in the order of a key, of which [insert_sorted] and
    [insert_item] are the instances for texts and for dictionary items. *)
Fixpoint insert_by {A} (key : A -> string) (a : A) (l : list A) : list A :=
  match l with
  | [] => [a]
  | x :: l' => if String.leb (key a) (key x) then a :: l else x :: insert_by key a l'
  end.

Definition sorted_by {A} (key : A -> string) (l : list A) : list A :=
  foldr (insert_by key) [] l.

(** The order of texts by code points. *)
Definition text_le (s1 s2 : string) : Prop := String.leb s1 s2 = true.

Section FurtherNotions.
Context `{Host}.

(** The graphs that a variant carries. *)
Definition variant_graphs (v : AttributeValue) : list GraphProto :=
  match v with
  | AGraph g => [g]
  | AGraphs l => l
  | _ => []
  end.

(** The variants that the printer has no text for. *)
Definition unprintable_variant (v : AttributeValue) : Prop :=
  match v with
  | ASparseTensor _ | ASparseTensors _ => True
  | AFloats l => l = []
  | AInts l => l = []
  | AStrings l => l = []
  | ATensors l => l = []
  | AGraphs l => l = []
  | _ => False
  end.

Definition is_bytes_elem (x : elem) : Prop :=
  match x with EBytes _ => True | _ => False end.

(** The real and the imaginary part of an element that has them. *)
Definition real_part (x : elem) : elem :=
  match real x with Ok r => r | Raise _ => x end.

Definition imag_part (x : elem) : elem :=
  match imag x with Ok r => r | Raise _ => x end.

(** The dimension built from an entry of [shape] when no denotation is given. *)
Definition plain_dim (d : shape_item) : Dimension :=
  mkDimension (default dim_unset (shape_item_value d)) None.

Definition sizeless (d : Dimension) : Prop := dim_which d = dim_unset.

End FurtherNotions.

Section DocFree.
Context `{Host}.

(** A graph, a node and an attribute in which no doc string is set, at any
    depth of nesting. *)
Fixpoint doc_free (g : GraphProto) : Prop :=
  graph_doc_string g = None
  /\ foldr (fun n rest => doc_free_node n /\ rest) True (graph_node g)
  /\ Forall (fun v => vi_doc_string v = None)
       (graph_input g ++ graph_output g ++ graph_value_info g)
with doc_free_node (n : NodeProto) : Prop :=
  node_doc_string n = None
  /\ foldr (fun a rest => doc_free_attribute a /\ rest) True (node_attribute n)
with doc_free_attribute (a : AttributeProto) : Prop :=
  attr_doc_string a = None
  /\ match attr_g a with Some g => doc_free g | None => True end
  /\ foldr (fun g rest => doc_free g /\ rest) True (attr_graphs a).

(** The graphs directly nested in a graph: those of the attributes of its
    nodes. *)
Definition nested_in (g' g : GraphProto) : Prop :=
  exists n a, n ∈ graph_node g /\ a ∈ node_attribute n
              /\ (attr_g a = Some g' \/ g' ∈ attr_graphs a).

End DocFree.
(** ** An instance of the collaborators

    Floats are IEEE 754 binary64 numbers, [float(v)] rounds an integer to
    the nearest one and a 32-bit float field holds the nearest binary32
    number.  The constants and the three tables are those of the
    package at release 1.9.  The formatters are simple stand-ins for the ones
    of the host language: the properties below hold for every instance, and
    this one serves to run the functions on concrete inputs. *)

(** A binary64 number rounded to the nearest binary32 number, as a binary64
    number again. *)
Definition round_to_single (x : SpecFloat.spec_float) : SpecFloat.spec_float :=
  match x with
  | SpecFloat.S754_finite s m e =>
      match SpecFloat.binary_normalize 24 128 (if s then Z.neg m else Z.pos m) e s with
      | SpecFloat.S754_finite s' m' e' =>
          SpecFloat.binary_normalize 53 1024 (if s' then Z.neg m' else Z.pos m') e' s'
      | y => y
      end
  | _ => x
  end.

#[local] Instance binary64 : Host := {|
  float := SpecFloat.spec_float;
  float_of_int := fun z => SpecFloat.binary_normalize 53 1024 z 0 false;
  float_zero := SpecFloat.S754_zero false;
  float32 := round_to_single
|}.

Definition sample_itemsize (d : DataType.t) : option Z :=
  match d with
  | DataType.FLOAT => Some 4 | DataType.UINT8 => Some 1 | DataType.INT8 => Some 1
  | DataType.UINT16 => Some 2 | DataType.INT16 => Some 2 | DataType.INT32 => Some 4
  | DataType.INT64 => Some 8 | DataType.BOOL => Some 1 | DataType.FLOAT16 => Some 2
  | DataType.DOUBLE => Some 8 | DataType.COMPLEX64 => Some 8
  | DataType.COMPLEX128 => Some 16 | DataType.UINT32 => Some 4
  | DataType.UINT64 => Some 8 | DataType.STRING => Some 8
  | DataType.UNDEFINED | DataType.BFLOAT16 => None
  end.

Definition sample_storage_type (d : DataType.t) : option DataType.t :=
  match d with
  | DataType.FLOAT => Some DataType.FLOAT
  | DataType.UINT8 | DataType.INT8 | DataType.UINT16 | DataType.INT16
  | DataType.INT32 | DataType.BOOL | DataType.BFLOAT16 => Some DataType.INT32
  | DataType.INT64 => Some DataType.INT64
  | DataType.FLOAT16 => Some DataType.UINT16
  | DataType.DOUBLE => Some DataType.DOUBLE
  | DataType.COMPLEX64 => Some DataType.FLOAT
  | DataType.COMPLEX128 => Some DataType.DOUBLE
  | DataType.UINT32 => Some DataType.UINT32
  | DataType.UINT64 => Some DataType.UINT64
  | DataType.STRING => Some DataType.STRING
  | DataType.UNDEFINED => None
  end.

Definition sample_storage_field (d : DataType.t) : option TensorField :=
  match d with
  | DataType.FLOAT | DataType.COMPLEX64 => Some float_data_field
  | DataType.INT32 | DataType.UINT16 | DataType.BOOL => Some int32_data_field
  | DataType.INT64 => Some int64_data_field
  | DataType.DOUBLE | DataType.COMPLEX128 => Some double_data_field
  | DataType.UINT32 | DataType.UINT64 => Some uint64_data_field
  | DataType.STRING => Some string_data_field
  | _ => None
  end.

Definition sample_str_float (f : SpecFloat.spec_float) : string :=
  match f with
  | SpecFloat.S754_zero s => if s then "-0" else "0"
  | SpecFloat.S754_infinity s => if s then "-inf" else "inf"
  | SpecFloat.S754_nan => "nan"
  | SpecFloat.S754_finite s m e =>
      (if s then "-" else EmptyString) +:+ pretty (Z.pos m) +:+ "p" +:+ pretty e
  end.

Definition sample_repr (s : string) : string := "'" +:+ s +:+ "'".

Definition sample_decode (b : bytes) : string :=
  String.string_of_list_ascii
    (map ascii_of_byte (filter (fun c => (Byte.to_N c < 128)%N) b)).

Definition sample_str_elem (e : elem) : string :=
  match e with
  | EInt z => pretty z
  | EFloat x => sample_str_float x
  | EComplex re im => "(" +:+ sample_str_float re +:+ "+" +:+ sample_str_float im +:+ "j)"
  | EBytes b => "b" +:+ sample_repr (sample_decode b)
  end.

#[local] Instance sample_collaborators : Collaborators := {|
  IR_VERSION := 7;
  onnx_opset_version := 14;
  TENSOR_TYPE_TO_NP_TYPE_itemsize := sample_itemsize;
  TENSOR_TYPE_TO_STORAGE_TENSOR_TYPE := sample_storage_type;
  STORAGE_TENSOR_TYPE_TO_FIELD := sample_storage_field;
  str_float := sample_str_float;
  repr := sample_repr;
  decode_utf8_ignore := sample_decode;
  str_repeated := fun l => "[" +:+ String.concat ", " (map sample_str_elem l) +:+ "]"
|}.

(** ** Concrete inputs *)

Definition zero : float := float_zero.
Definition one : float := float_of_int 1.
Definition two : float := float_of_int 2.

(** The binary64 number nearest to one tenth, which is not a single-precision
    value. *)
Definition tenth : float := SpecFloat.S754_finite false 7205759403792794 (-56).

(** A graph [G] whose node has the graph [A] as an attribute, [A] having a
    node with the graph [B] as an attribute. *)
Definition graph_B : GraphProto := mkGraphProto "B" [] [] [] [] [] [] None.

Definition graph_A : GraphProto :=
  mkGraphProto "A"
    [mkNodeProto "If" ["c"] ["o"] None None None
       [attribute_record "body" None (AGraph graph_B)]]
    [] [] [] [] [] None.

Definition graph_G : GraphProto :=
  mkGraphProto "G"
    [mkNodeProto "Loop" ["x"] ["y"] None None None
       [attribute_record "then" None (AGraph graph_A);
        attribute_record "axis" None (AInt 3)]]
    [mkValueInfoProto "x" None type_unset]
    [mkValueInfoProto "y" None type_unset]
    [] [] [] None.

Definition block_G : list string :=
  ["graph G ("; "  %x[]"; ") {"; "  %y = Loop[axis = 3, then = <graph A>](%x)";
   "  return %y"; "}"].

Definition block_A : list string :=
  ["graph A {"; "  %o = If[body = <graph B>](%c)"; "  return"; "}"].

Definition block_B : list string := ["graph B {"; "  return"; "}"].

(** Keyword arguments with [ir_version=5] and nothing else. *)
Definition kwargs_ir_5 : ModelKwargs := mkModelKwargs (Some 5) None None None None None None.

(** Keyword arguments with [opset_imports] for [ai.onnx] 12 and [ai.onnx.ml] 2. *)
Definition kwargs_imports : ModelKwargs :=
  mkModelKwargs None
    (Some [mkOperatorSetIdProto EmptyString 12; mkOperatorSetIdProto "ai.onnx.ml" 2])
    None None None None None.

(** ** Further concrete inputs *)

(** A tensor of no dimension whose data type, [UINT8], has no entry in the
    table of storage fields. *)
Definition scalar_uint8 : TensorProto :=
  mkTensorProto "t" DataType.UINT8 [] [] [EInt 7] [] [] [] [] None.

(** A value info whose shape has a dimension with no value, and a graph that
    declares it as an input. *)
Definition sizeless_info : ValueInfoProto :=
  mkValueInfoProto "x" None
    (tensor_type (mkTensorTypeProto DataType.FLOAT
                    (Some [mkDimension dim_unset None; mkDimension (dim_value 3) None]))).

Definition graph_sizeless : GraphProto :=
  mkGraphProto "S" [] [sizeless_info] [] [] [] [] None.

(** Two nodes with the same attributes in two orders. *)
Definition node_then_axis : NodeProto :=
  mkNodeProto "Loop" ["x"] ["y"] None None None
    [attribute_record "then" None (AGraph graph_A); attribute_record "axis" None (AInt 3)].

Definition node_axis_then : NodeProto :=
  mkNodeProto "Loop" ["x"] ["y"] None None None
    [attribute_record "axis" None (AInt 3); attribute_record "then" None (AGraph graph_A)].

(** A node without attributes. *)
Definition node_relu : NodeProto := mkNodeProto "Relu" ["x"] ["y"] None None None [].

(** The 64 bytes of a text of 64 letters. *)
Definition bytes_64 : bytes := replicate 64 "a"%byte.

(** * Properties *)

(** ** The error monad *)

Lemma mapM_Ok_length {A B} (f : A -> result B) (l : list A) (ys : list B) :
  mapM f l = Ok ys -> length ys = length l.
Proof.
  revert ys; induction l as [|x l IH]; intros ys; simpl.
  - intros [= <-]; reflexivity.
  - destruct (f x) as [y|e]; simpl; [|discriminate].
    destruct (mapM f l) as [ys'|e]; simpl; [|discriminate].
    intros [= <-]; simpl; f_equal; apply IH; reflexivity.
Qed.

Lemma mapM_total {A B} (f : A -> result B) (g : A -> B) (l : list A) :
  (forall x, x ∈ l -> f x = Ok (g x)) -> mapM f l = Ok (map g l).
Proof.
  induction l as [|x l IH]; intros Hf; simpl; [reflexivity|].
  rewrite Hf by left. simpl. rewrite IH; [reflexivity|].
  intros y Hy; apply Hf; right; exact Hy.
Qed.

Lemma mapM_Forall2 {A B} (f : A -> result B) (l : list A) (ys : list B) :
  mapM f l = Ok ys <-> Forall2 (fun x y => f x = Ok y) l ys.
Proof.
  revert ys; induction l as [|x l IH]; intros ys; simpl.
  - split; [intros [= <-]; constructor | intros Hys; inversion Hys; reflexivity].
  - split.
    + destruct (f x) as [y|e] eqn:Hx; simpl; [|discriminate].
      destruct (mapM f l) as [ys'|e] eqn:Hl; simpl; [|discriminate].
      intros [= <-]. constructor; [exact Hx | apply IH; reflexivity].
    + intros Hys; inversion Hys as [|? y ? ys' Hx Hl]; subst.
      rewrite Hx; simpl. apply IH in Hl. rewrite Hl; reflexivity.
Qed.

Lemma mapM_Raise {A B} (f : A -> result B) (l : list A) (e : exn) :
  (forall x, x ∈ l -> f x = Raise e \/ exists y, f x = Ok y) ->
  (exists x, x ∈ l /\ f x = Raise e) ->
  mapM f l = Raise e.
Proof.
  induction l as [|x l IH]; intros Hall [z [Hz Hfz]].
  - inversion Hz.
  - simpl. destruct (Hall x) as [Hx|[y Hx]]; [left| |]; rewrite Hx; simpl; [reflexivity|].
    rewrite IH; [reflexivity| |].
    + intros w Hw; apply Hall; right; exact Hw.
    + apply elem_of_cons in Hz as [->|Hz]; [congruence|]. exists z; auto.
Qed.

(** ** The version table *)

Lemma record_pairs_lookup (ir : Z) (pairs : list (string * Z)) (res : VersionMapType)
    (k : string * Z) :
  foldl (record_pair ir) res pairs !! k =
  match res !! k with
  | Some v => Some v
  | None => if bool_decide (k ∈ pairs) then Some ir else None
  end.
Proof.
  revert res; induction pairs as [|p pairs IH]; intros res; simpl.
  - destruct (res !! k); reflexivity.
  - rewrite IH. unfold record_pair.
    destruct (decide (p = k)) as [->|Hne].
    + destruct (res !! k) as [v|] eqn:Hk; [rewrite Hk; reflexivity|].
      rewrite lookup_insert_eq.
      rewrite bool_decide_eq_true_2 by left. reflexivity.
    + assert (Hin : bool_decide (k ∈ p :: pairs) = bool_decide (k ∈ pairs)).
      { apply bool_decide_ext. rewrite elem_of_cons.
        split; [intros [Heq|Hin]; [congruence | exact Hin] | intros Hin; right; exact Hin]. }
      rewrite Hin.
      destruct (res !! p); [reflexivity|].
      rewrite lookup_insert_ne by exact Hne. reflexivity.
Qed.

Lemma process_lookup (res : VersionMapType) (row : VersionRowType) (k : string * Z) :
  process res row !! k =
  match res !! k with
  | Some v => Some v
  | None => if bool_decide (k ∈ row_pairs row) then Some (row_ir_version row) else None
  end.
Proof. apply record_pairs_lookup. Qed.

Lemma foldl_process_lookup (table : list VersionRowType) (res : VersionMapType)
    (k : string * Z) :
  foldl process res table !! k =
  match res !! k with
  | Some v => Some v
  | None => row_ir_version <$> first_row_introducing k table
  end.
Proof.
  revert res; induction table as [|row table IH]; intros res; simpl.
  - destruct (res !! k); reflexivity.
  - rewrite IH, process_lookup.
    destruct (res !! k); [reflexivity|].
    destruct (bool_decide (k ∈ row_pairs row)); reflexivity.
Qed.

Lemma create_op_set_id_version_map_lookup (table : list VersionRowType) (k : string * Z) :
  create_op_set_id_version_map table !! k = row_ir_version <$> first_row_introducing k table.
Proof.
  unfold create_op_set_id_version_map. rewrite foldl_process_lookup, lookup_empty.
  reflexivity.
Qed.

Lemma row_pairs_domain (row : VersionRowType) (domain : string) (version : Z) :
  (domain, version) ∈ row_pairs row -> domain ∈ DOMAIN_NAMES.
Proof.
  unfold row_pairs. intros Hin.
  apply list_elem_of_lookup in Hin as [i Hi].
  apply lookup_zip_with_Some in Hi as (d & v & Heq & Hd & _).
  injection Heq as -> ->. apply list_elem_of_lookup. exists i; exact Hd.
Qed.

Lemma DOMAIN_NAMES_nonempty (domain : string) :
  domain ∈ DOMAIN_NAMES -> domain <> EmptyString.
Proof.
  unfold DOMAIN_NAMES. rewrite !elem_of_cons, elem_of_nil.
  intros [->|[->|[->|[]]]]; discriminate.
Qed.

Lemma find_min_key (x : OperatorSetIdProto) :
  find_min (opset_domain x) (opset_version x) =
  match OP_SET_ID_VERSION_MAP !! opset_key x with
  | Some ir => Ok ir
  | None => Raise UnsupportedOpset
  end.
Proof. reflexivity. Qed.

Lemma foldl_max_spec (l : list Z) (x : Z) :
  foldl Z.max x l ∈ x :: l /\ Forall (fun y => y <= foldl Z.max x l) (x :: l).
Proof.
  revert x; induction l as [|y l IH]; intros x; simpl.
  - split; [left | constructor; [lia | constructor]].
  - destruct (IH (Z.max x y)) as [Hin Hall].
    inversion Hall as [|? ? Hhd Htl]; subst.
    split.
    + apply elem_of_cons in Hin as [Heq|Hin].
      * rewrite Heq. destruct (Z.max_spec x y) as [[_ ->]|[_ ->]];
          [right; left | left].
      * right; right; exact Hin.
    + constructor; [lia|]. constructor; [lia | exact Htl].
Qed.

(** C3. The version map is first-write-wins: on every table, a pair is mapped
    to the IR version of the first row, in file order, that has the pair, and
    to nothing when no row has it; on [VERSION_TABLE] that IR version is what
    [find_min_ir_version_for] returns for the pair, even when a later row has
    the pair with another IR version (as row 1.5.0, of IR version 5, has
    [("ai.onnx.ml", 1)], first introduced by row 1.0 with IR version 3). *)
Theorem version_map_first_write_wins
    (table : list VersionRowType) (domain : string) (version : Z) (row : VersionRowType) :
  create_op_set_id_version_map table !! (domain, version)
    = row_ir_version <$> first_row_introducing (domain, version) table
  /\ (first_row_introducing (domain, version) VERSION_TABLE = Some row ->
      OP_SET_ID_VERSION_MAP !! (domain, version) = Some (row_ir_version row)
      /\ find_min_ir_version_for [mkOperatorSetIdProto domain version]
         = Ok (row_ir_version row))
  /\ (("1.5.0", 5, [10; 1]) ∈ VERSION_TABLE
      /\ ("ai.onnx.ml", 1) ∈ row_pairs ("1.5.0", 5, [10; 1])
      /\ find_min_ir_version_for [mkOperatorSetIdProto "ai.onnx.ml" 1] = Ok 3).
Proof.
  split; [apply create_op_set_id_version_map_lookup|].
  split.
  - intros Hrow.
    assert (Hmap : OP_SET_ID_VERSION_MAP !! (domain, version) = Some (row_ir_version row)).
    { unfold OP_SET_ID_VERSION_MAP.
      rewrite create_op_set_id_version_map_lookup, Hrow. reflexivity. }
    split; [exact Hmap|].
    assert (Hne : domain <> EmptyString).
    { apply find_some in Hrow as [_ Hin]. apply bool_decide_eq_true_1 in Hin.
      eapply DOMAIN_NAMES_nonempty, row_pairs_domain, Hin. }
    unfold find_min_ir_version_for, mapM.
    rewrite find_min_key. unfold opset_key; cbn [opset_domain opset_version].
    destruct (decide (domain = EmptyString)) as [Heq|_]; [contradiction|].
    rewrite Hmap. reflexivity.
  - split; [|split].
    + unfold VERSION_TABLE. do 6 right. left.
    + unfold row_pairs, DOMAIN_NAMES; simpl. right; left.
    + vm_compute. reflexivity.
Qed.

(** C4. [find_min_ir_version_for] returns 3 for the empty list.  For a
    non-empty list, with the empty domain read as ["ai.onnx"]: it raises
    [UnsupportedOpset] when some id has no entry in the version map, and when
    every id has one it returns the maximum of their IR versions. *)
Theorem find_min_ir_version_for_spec (opsetidlist : list OperatorSetIdProto) :
  find_min_ir_version_for [] = Ok 3
  /\ (opsetidlist <> [] ->
      ((exists x, x ∈ opsetidlist /\ OP_SET_ID_VERSION_MAP !! opset_key x = None) ->
       find_min_ir_version_for opsetidlist = Raise UnsupportedOpset)
      /\ (forall irs,
            Forall2 (fun x ir => OP_SET_ID_VERSION_MAP !! opset_key x = Some ir)
                    opsetidlist irs ->
            exists m, find_min_ir_version_for opsetidlist = Ok m
                      /\ m ∈ irs /\ Forall (fun ir => ir <= m) irs)).
Proof.
  split; [reflexivity|].
  intros Hne. destruct opsetidlist as [|x0 l]; [contradiction|].
  unfold find_min_ir_version_for.
  split.
  - intros [x [Hx Hnone]].
    rewrite (mapM_Raise _ _ UnsupportedOpset); [reflexivity| |].
    + intros y _. rewrite find_min_key.
      destruct (OP_SET_ID_VERSION_MAP !! opset_key y) as [ir|]; [right; eauto | left; reflexivity].
    + exists x; split; [exact Hx|]. rewrite find_min_key, Hnone. reflexivity.
  - intros irs Hirs.
    assert (Hm : mapM (fun x => find_min (opset_domain x) (opset_version x)) (x0 :: l) = Ok irs).
    { apply mapM_Forall2. eapply Forall2_impl; [exact Hirs|].
      intros y ir Hy; cbv beta in Hy. rewrite find_min_key, Hy. reflexivity. }
    rewrite Hm. cbn [bind].
    inversion Hirs as [|? ir0 ? irs' _ _]; subst. cbn [py_max].
    exists (foldl Z.max ir0 irs'). split; [reflexivity|].
    apply foldl_max_spec.
Qed.

(** ** Attributes *)

Section AttributeProperties.
Context `{Host}.

(** A test over all the elements followed by a conversion of each of them
    agrees with the conversion that may fail. *)
Lemma all_of_forallb {A} (P : pyval -> bool) (f : pyval -> result A)
    (g : pyval -> option A) (l : list pyval) :
  (forall x, match g x with
             | Some y => P x = true /\ f x = Ok y
             | None => P x = false
             end) ->
  match all_of g l with
  | Some ys => forallb P l = true /\ mapM f l = Ok ys
  | None => forallb P l = false
  end.
Proof.
  intros Hg. induction l as [|x l IH]; simpl; [split; reflexivity|].
  specialize (Hg x). destruct (g x) as [y|].
  - destruct Hg as [HP Hf]. rewrite HP, Hf. simpl.
    destruct (all_of g l) as [ys|].
    + destruct IH as [Hall Hm]. rewrite Hall, Hm. split; reflexivity.
    + exact IH.
  - rewrite Hg. reflexivity.
Qed.

Lemma all_of_bytes (l : list pyval) :
  match all_of _to_bytes_or_false l with
  | Some ys =>
      forallb (fun b : option bytes => bool_decide (is_Some b)) (map _to_bytes_or_false l) = true
      /\ omap id (map _to_bytes_or_false l) = ys
  | None =>
      forallb (fun b : option bytes => bool_decide (is_Some b)) (map _to_bytes_or_false l) = false
  end.
Proof.
  induction l as [|x l IH]; simpl; [split; reflexivity|].
  destruct (_to_bytes_or_false x) as [b|]; simpl; [|reflexivity].
  destruct (all_of _to_bytes_or_false l) as [ys|].
  - destruct IH as [Hall Hm]. split; [exact Hall|].
    unfold omap in *; simpl. unfold omap in Hm. rewrite Hm. reflexivity.
  - exact IH.
Qed.

Ltac by_cases_on_value :=
  intros [| b | | | | | | | | |]; simpl; auto; destruct b; auto.

Lemma integral_agree (x : pyval) :
  match as_integral x with
  | Some y => isinstance_Integral x = true /\ py_int x = Ok y
  | None => isinstance_Integral x = false
  end.
Proof. revert x. by_cases_on_value. Qed.

Lemma numeric_agree (x : pyval) :
  match as_numeric x with
  | Some y => isinstance_Real x = true /\ py_float x = Ok y
  | None => isinstance_Real x = false
  end.
Proof. revert x. by_cases_on_value. Qed.

Lemma tensor_agree (x : pyval) :
  match as_tensor x with
  | Some y => isinstance_TensorProto x = true /\ as_TensorProto x = Ok y
  | None => isinstance_TensorProto x = false
  end.
Proof. destruct x; simpl; auto. Qed.

Lemma sparse_tensor_agree (x : pyval) :
  match as_sparse_tensor x with
  | Some y => isinstance_SparseTensorProto x = true /\ as_SparseTensorProto x = Ok y
  | None => isinstance_SparseTensorProto x = false
  end.
Proof. destruct x; simpl; auto. Qed.

Lemma graph_agree (x : pyval) :
  match as_graph x with
  | Some y => isinstance_GraphProto x = true /\ as_GraphProto x = Ok y
  | None => isinstance_GraphProto x = false
  end.
Proof. destruct x; simpl; auto. Qed.

(** On a list or tuple, the iterable cases of [make_attribute] follow the
    disambiguation order of the specification. *)
Lemma make_attribute_iterable_list (key : string) (doc : option string) (l : list pyval) :
  make_attribute_iterable (attr_new key doc) (PyList l) =
  let* v := select_list_variant l in
  let* w := held v in
  Ok (attribute_record key doc w).
Proof.
  unfold make_attribute_iterable, select_list_variant.
  cbn [later_pass first_pass].
  pose proof (all_of_forallb _ _ _ l integral_agree) as H1.
  destruct (all_of as_integral l) as [ints|].
  { destruct H1 as [-> ->]. cbn [bind held]. unfold attr_extend_ints, attr_new.
    destruct (mapM check_int64 ints); reflexivity. }
  rewrite H1; clear H1.
  pose proof (all_of_forallb _ _ _ l numeric_agree) as H2.
  destruct (all_of as_numeric l) as [floats|]; [destruct H2 as [-> ->]; reflexivity|].
  rewrite H2; clear H2.
  pose proof (all_of_bytes l) as H3.
  destruct (all_of _to_bytes_or_false l) as [strings|]; [destruct H3 as [-> ->]; reflexivity|].
  rewrite H3; clear H3.
  pose proof (all_of_forallb _ _ _ l tensor_agree) as H4.
  destruct (all_of as_tensor l) as [tensors|]; [destruct H4 as [-> ->]; reflexivity|].
  rewrite H4; clear H4.
  pose proof (all_of_forallb _ _ _ l sparse_tensor_agree) as H5.
  destruct (all_of as_sparse_tensor l) as [sparse_tensors|];
    [destruct H5 as [-> ->]; reflexivity|].
  rewrite H5; clear H5.
  pose proof (all_of_forallb _ _ _ l graph_agree) as H6.
  destruct (all_of as_graph l) as [graphs|]; [destruct H6 as [-> ->]; reflexivity|].
  rewrite H6. reflexivity.
Qed.

(** [make_attribute] refines the priority list of the specification on every
    host value that is not a one-shot iterator. *)
Lemma make_attribute_refines_priority (key : string) (value : pyval) (doc : option string) :
  one_shot value = false ->
  make_attribute key value doc =
  let* v := select_variant value in
  let* w := held v in
  Ok (attribute_record key (truthy_opt doc) w).
Proof.
  intros Hone. destruct value as [| b | z | | | | | | | l | l];
    try discriminate Hone; try reflexivity.
  - destruct b; reflexivity.
  - unfold make_attribute. cbn [isinstance_Integral py_int bind select_variant held].
    unfold attr_set_i, attr_new. destruct (check_int64 z); reflexivity.
  - unfold make_attribute. cbn [isinstance_Integral _to_bytes_or_false isinstance_Iterable].
    apply make_attribute_iterable_list.
Qed.

(** A one-shot iterator is exhausted by the traversal that builds
    [byte_array]: every later test sees no element and the record is an empty
    list of integers, whatever the iterator had to yield. *)
Lemma make_attribute_one_shot (key : string) (l : list pyval) (doc : option string) :
  make_attribute key (PyIter l) doc = Ok (attribute_record key (truthy_opt doc) (AInts [])).
Proof. reflexivity. Qed.

Lemma get_attribute_value_record (key : string) (doc : option string) (v : AttributeValue) :
  get_attribute_value (attribute_record key doc v) = Ok (host_value v).
Proof. destruct v; reflexivity. Qed.

Lemma all_of_map_Some {A} (f : pyval -> option A) (C : A -> pyval) (l : list A) :
  (forall x, f (C x) = Some x) -> all_of f (map C l) = Some l.
Proof.
  intros Hf. induction l as [|x l IH]; simpl; [reflexivity|].
  rewrite Hf, IH. reflexivity.
Qed.

Lemma all_of_map_None {A B} (f : pyval -> option A) (C : B -> pyval) (l : list B) :
  (forall x, f (C x) = None) -> l <> [] -> all_of f (map C l) = None.
Proof.
  intros Hf Hne. destruct l as [|x l]; [contradiction|]. simpl. rewrite Hf. reflexivity.
Qed.

(** The variant selected for the host value of a variant has the same host
    value (an empty list of any kind is selected as an empty list of
    integers). *)
Lemma select_variant_host_value (v : AttributeValue) :
  exists v', select_variant (host_value v) = Ok v' /\ host_value v' = host_value v
             /\ (v' = v \/ v' = AInts []).
Proof.
  destruct v as [x|i|s|t|t|g|l|l|l|l|l|l]; try (eexists; repeat split; left; reflexivity);
    (destruct (decide (l = [])) as [->|Hne];
     [exists (AInts []); repeat split; right; reflexivity|]);
    cbn [host_value select_variant]; unfold select_list_variant.
  - rewrite (all_of_map_None as_integral PyFloat) by auto.
    rewrite (all_of_map_Some as_numeric PyFloat) by auto.
    eexists; repeat split; left; reflexivity.
  - rewrite (all_of_map_Some as_integral PyInt) by auto.
    eexists; repeat split; left; reflexivity.
  - rewrite (all_of_map_None as_integral PyBytes) by auto.
    rewrite (all_of_map_None as_numeric PyBytes) by auto.
    rewrite (all_of_map_Some _to_bytes_or_false PyBytes) by auto.
    eexists; repeat split; left; reflexivity.
  - rewrite (all_of_map_None as_integral PyTensorProto) by auto.
    rewrite (all_of_map_None as_numeric PyTensorProto) by auto.
    rewrite (all_of_map_None _to_bytes_or_false PyTensorProto) by auto.
    rewrite (all_of_map_Some as_tensor PyTensorProto) by auto.
    eexists; repeat split; left; reflexivity.
  - rewrite (all_of_map_None as_integral PySparseTensorProto) by auto.
    rewrite (all_of_map_None as_numeric PySparseTensorProto) by auto.
    rewrite (all_of_map_None _to_bytes_or_false PySparseTensorProto) by auto.
    rewrite (all_of_map_None as_tensor PySparseTensorProto) by auto.
    rewrite (all_of_map_Some as_sparse_tensor PySparseTensorProto) by auto.
    eexists; repeat split; left; reflexivity.
  - rewrite (all_of_map_None as_integral PyGraphProto) by auto.
    rewrite (all_of_map_None as_numeric PyGraphProto) by auto.
    rewrite (all_of_map_None _to_bytes_or_false PyGraphProto) by auto.
    rewrite (all_of_map_None as_tensor PyGraphProto) by auto.
    rewrite (all_of_map_None as_sparse_tensor PyGraphProto) by auto.
    rewrite (all_of_map_Some as_graph PyGraphProto) by auto.
    eexists; repeat split; left; reflexivity.
Qed.

Lemma one_shot_host_value (v : AttributeValue) : one_shot (host_value v) = false.
Proof. destruct v; reflexivity. Qed.

Lemma mapM_check_int64 (l : list Z) : Forall fits_int64 l -> mapM check_int64 l = Ok l.
Proof.
  induction 1 as [|z l Hz _ IH]; [reflexivity|].
  cbn [mapM]. unfold check_int64 at 1, check_range.
  destruct Hz as [Hlo Hhi].
  rewrite (proj2 (Z.leb_le _ _) Hlo), (proj2 (Z.leb_le _ _) Hhi). cbn [andb bind].
  rewrite IH. reflexivity.
Qed.

Lemma check_int64_refuses (z : Z) : ~ fits_int64 z -> check_int64 z = Raise ValueOutOfRange.
Proof.
  intros Hz. unfold check_int64, check_range.
  destruct (int64_min <=? z) eqn:Hlo; [|reflexivity].
  destruct (z <=? int64_max) eqn:Hhi; [|reflexivity].
  exfalso. apply Hz. split; [apply Z.leb_le, Hlo | apply Z.leb_le, Hhi].
Qed.

Lemma mapM_check_int64_refuses (l : list Z) :
  Exists (fun z => ~ fits_int64 z) l -> mapM check_int64 l = Raise ValueOutOfRange.
Proof.
  induction l as [|z l IH]; intros Hex; [inversion Hex|].
  cbn [mapM]. unfold check_int64 at 1, check_range.
  destruct ((int64_min <=? z) && (z <=? int64_max)) eqn:Hz; [|reflexivity].
  cbn [bind]. rewrite IH; [reflexivity|].
  apply Exists_cons in Hex as [Hbad|Hex]; [|exact Hex].
  exfalso. apply Hbad. apply andb_prop in Hz as [Hlo Hhi].
  split; [apply Z.leb_le, Hlo | apply Z.leb_le, Hhi].
Qed.

Lemma map_single_precision (l : list float) :
  Forall single_precision l -> map float32 l = l.
Proof. induction 1 as [|x l Hx _ IH]; [reflexivity|]. cbn [map]. rewrite Hx, IH. reflexivity. Qed.

(** The fields hold a variant as it is when its floats are single-precision
    values and its integers fit in 64 bits. *)
Lemma held_fits_fields (v : AttributeValue) : fits_fields v -> held v = Ok v.
Proof.
  destruct v as [x|i|s|t|t|g|l|l|l|l|l|l]; cbn [fits_fields held]; intros Hv;
    try reflexivity.
  - rewrite Hv. reflexivity.
  - unfold check_int64, check_range. destruct Hv as [Hlo Hhi].
    rewrite (proj2 (Z.leb_le _ _) Hlo), (proj2 (Z.leb_le _ _) Hhi). reflexivity.
  - rewrite map_single_precision by exact Hv. reflexivity.
  - rewrite mapM_check_int64 by exact Hv. reflexivity.
Qed.

Lemma all_of_integral_ints (l : list Z) : all_of as_integral (map PyInt l) = Some l.
Proof. apply all_of_map_Some. reflexivity. Qed.

(** C1, as amended.  Encoding the host value of any of the twelve variants
    with [make_attribute] succeeds and decoding the record with
    [get_attribute_value] gives the host value back, when the floats of the
    value are single-precision values and its integers fit in 64 bits,
    signed.  A float comes back rounded to single precision, alone or in a
    list; an integer outside the 64-bit range makes [make_attribute] fail
    with [ValueError], alone or in a list.  The integer list [[1, 2, 3]]
    comes back as it is, the mixed list [[1, 2.0]] comes back as
    [[float(1), 2.0]], and a text comes back as its UTF-8 bytes. *)
Theorem attribute_round_trip (key : string) (doc : option string) :
  (forall v : AttributeValue,
     fits_fields v ->
     exists attr, make_attribute key (host_value v) doc = Ok attr
                  /\ get_attribute_value attr = Ok (host_value v))
  /\ (forall x : float,
        exists attr, make_attribute key (PyFloat x) doc = Ok attr
                     /\ get_attribute_value attr = Ok (PyFloat (float32 x)))
  /\ (forall l : list float,
        exists attr, make_attribute key (PyList (map PyFloat l)) doc = Ok attr
                     /\ get_attribute_value attr = Ok (PyList (map PyFloat (map float32 l))))
  /\ (forall i : Z,
        ~ fits_int64 i -> make_attribute key (PyInt i) doc = Raise ValueOutOfRange)
  /\ (forall l : list Z,
        Exists (fun i => ~ fits_int64 i) l ->
        make_attribute key (PyList (map PyInt l)) doc = Raise ValueOutOfRange)
  /\ (exists attr, make_attribute key (PyList [PyInt 1; PyInt 2; PyInt 3]) doc = Ok attr
                   /\ get_attribute_value attr = Ok (PyList [PyInt 1; PyInt 2; PyInt 3]))
  /\ (forall two : float,
        single_precision (float_of_int 1) -> single_precision two ->
        exists attr, make_attribute key (PyList [PyInt 1; PyFloat two]) doc = Ok attr
                     /\ get_attribute_value attr
                        = Ok (PyList [PyFloat (float_of_int 1); PyFloat two]))
  /\ (forall s : string,
        exists attr, make_attribute key (PyText s) doc = Ok attr
                     /\ get_attribute_value attr = Ok (PyBytes (utf8_encode s))).
Proof.
  split; [|split; [|split; [|split; [|split; [|split; [|split]]]]]].
  - intros v Hv.
    destruct (select_variant_host_value v) as (v' & Hsel & Hhost & Hv').
    exists (attribute_record key (truthy_opt doc) v'). split.
    + rewrite make_attribute_refines_priority by apply one_shot_host_value.
      rewrite Hsel. cbn [bind].
      destruct Hv' as [-> | ->]; [rewrite held_fits_fields by exact Hv|]; reflexivity.
    + rewrite get_attribute_value_record, Hhost. reflexivity.
  - intros x. eexists; split; reflexivity.
  - intros l. destruct (decide (l = [])) as [-> | Hne]; [eexists; split; reflexivity|].
    exists (attribute_record key (truthy_opt doc) (AFloats (map float32 l))). split.
    + rewrite make_attribute_refines_priority by reflexivity.
      cbn [select_variant]. unfold select_list_variant.
      rewrite (all_of_map_None as_integral PyFloat) by auto.
      rewrite (all_of_map_Some as_numeric PyFloat) by auto.
      reflexivity.
    + reflexivity.
  - intros i Hi.
    rewrite make_attribute_refines_priority by reflexivity.
    cbn [select_variant bind held]. rewrite check_int64_refuses by exact Hi. reflexivity.
  - intros l Hl.
    rewrite make_attribute_refines_priority by reflexivity.
    cbn [select_variant]. unfold select_list_variant.
    rewrite all_of_integral_ints. cbn [bind held].
    rewrite mapM_check_int64_refuses by exact Hl. reflexivity.
  - eexists; split; reflexivity.
  - intros two Hone Htwo.
    exists (attribute_record key (truthy_opt doc) (AFloats [float_of_int 1; two])). split.
    + rewrite make_attribute_refines_priority by reflexivity.
      cbn [select_variant select_list_variant all_of as_integral as_numeric fmap
           option_fmap option_map bind held map].
      unfold single_precision in Hone, Htwo. rewrite Hone, Htwo. reflexivity.
    + reflexivity.
  - intros s. eexists; split; reflexivity.
Qed.

(** C2, at the input where the source departs from it.  The elements of a
    one-shot iterator that yields the single float [x] are all numeric and
    not all integral, so the priority list selects [Floats [x]]; the source
    returns an empty [Ints] record.  On the list with the same element it
    returns the [Floats] record, whose field holds [x] in single precision. *)
Theorem make_attribute_one_shot_iterator_loses_elements (key : string) (x : float) :
  select_variant (PyIter [PyFloat x]) = Ok (AFloats [x])
  /\ make_attribute key (PyIter [PyFloat x]) None = Ok (attribute_record key None (AInts []))
  /\ make_attribute key (PyList [PyFloat x]) None
     = Ok (attribute_record key None (AFloats [float32 x])).
Proof. repeat split. Qed.

End AttributeProperties.

(** ** Models *)

Section ModelProperties.
Context `{Collaborators}.


End ModelProperties.

(** ** Tensors *)

Section TensorProperties.
Context `{Collaborators}.

Lemma foldl_mul_dims_product (dims : list Z) (w : Z) :
  foldl Z.mul w dims = dims_product dims * w.
Proof.
  unfold dims_product. revert w; induction dims as [|d dims IH]; intros w; simpl; [lia|].
  rewrite IH. lia.
Qed.

Lemma mapM_app {A B} (f : A -> result B) (l1 l2 : list A) :
  mapM f (l1 ++ l2) =
  let* ys1 := mapM f l1 in let* ys2 := mapM f l2 in Ok (ys1 ++ ys2).
Proof.
  induction l1 as [|x l1 IH]; simpl.
  - destruct (mapM f l2); reflexivity.
  - destruct (f x) as [y|e]; simpl; [|reflexivity].
    rewrite IH. destruct (mapM f l1) as [ys1|e]; simpl; [|reflexivity].
    destruct (mapM f l2); reflexivity.
Qed.

(** The comprehension of [split_complex_to_pairs] reads the element [i // 2]
    at the index [i]: its real part at the even indices, its imaginary part at
    the odd ones. *)
Lemma split_pairs_from (pre ca : list elem) :
  mapM (fun i : nat =>
          match (pre ++ ca) !! (i / 2)%nat with
          | Some c => if (i mod 2 =? 0)%nat then real c else imag c
          | None => Raise IndexError
          end)
       (seq (length pre * 2) (length ca * 2))
  = mapM (fun r : result elem => r) (flat_map (fun c => [real c; imag c]) ca).
Proof.
  revert pre; induction ca as [|c ca IH]; intros pre; [reflexivity|].
  cbn [length Nat.mul Nat.add seq flat_map app mapM].
  set (n := length pre).
  assert (Hdiv0 : ((n * 2) / 2 = n)%nat) by (apply Nat.div_mul; lia).
  assert (Hmod0 : ((n * 2) mod 2 = 0)%nat) by (apply Nat.Div0.mod_mul).
  assert (Hdiv1 : (S (n * 2) / 2 = n)%nat).
  { symmetry. apply (Nat.div_unique _ 2 n 1); lia. }
  assert (Hmod1 : (S (n * 2) mod 2 = 1)%nat).
  { symmetry. apply (Nat.mod_unique _ 2 n 1); lia. }
  assert (Hc : (pre ++ c :: ca) !! n = Some c).
  { unfold n. rewrite lookup_app_r by lia. rewrite Nat.sub_diag. reflexivity. }
  rewrite Hdiv0, Hmod0, Hdiv1, Hmod1, Hc. cbn [Nat.eqb].
  specialize (IH (pre ++ [c])).
  rewrite <- app_assoc in IH. cbn [app] in IH.
  rewrite length_app in IH. cbn [length] in IH. fold n in IH.
  replace ((n + 1) * 2)%nat with (S (S (n * 2))) in IH by lia.
  rewrite IH. reflexivity.
Qed.

Lemma split_complex_to_pairs_flat (ca : list elem) :
  split_complex_to_pairs ca
  = mapM (fun r : result elem => r) (flat_map (fun c => [real c; imag c]) ca).
Proof. apply (split_pairs_from [] ca). Qed.

Lemma split_complex_to_pairs_complex (cs : list (float * float)) :
  split_complex_to_pairs (map complex_elem cs) = Ok (flat_map real_imag_pair cs).
Proof.
  rewrite split_complex_to_pairs_flat.
  induction cs as [|[re im] cs IH]; [reflexivity|].
  cbn [map flat_map app mapM complex_elem real imag bind fst snd].
  rewrite IH. reflexivity.
Qed.

Lemma getattr_extend_tensor_field (field : TensorField) (vals stored : list elem)
    (name : string) (data_type : DataType.t) :
  mapM (check_value (field_kind field)) vals = Ok stored ->
  exists t,
    extend_tensor_field field vals (mkTensorProto name data_type [] [] [] [] [] [] [] None)
    = Ok t
    /\ getattr_tensor t field = stored
    /\ tensor_name t = name /\ tensor_data_type t = data_type /\ tensor_dims t = []
    /\ raw_data t = None.
Proof.
  intros Hm. unfold extend_tensor_field. rewrite Hm. cbn [bind].
  eexists; split; [reflexivity|]. destruct field; repeat split.
Qed.

Lemma extend_tensor_field_Raise (field : TensorField) (vals : list elem) (t : TensorProto)
    (e : exn) :
  mapM (check_value (field_kind field)) vals = Raise e ->
  extend_tensor_field field vals t = Raise e.
Proof. intros Hm. unfold extend_tensor_field. rewrite Hm. reflexivity. Qed.

Lemma getattr_extend_dims (dims : list Z) (t : TensorProto) (field : TensorField) :
  getattr_tensor (extend_dims dims t) field = getattr_tensor t field.
Proof. destruct t, field; reflexivity. Qed.

Lemma extend_dims_fields (dims : list Z) (t : TensorProto) :
  tensor_name (extend_dims dims t) = tensor_name t
  /\ tensor_data_type (extend_dims dims t) = tensor_data_type t
  /\ tensor_dims (extend_dims dims t) = tensor_dims t ++ dims
  /\ raw_data (extend_dims dims t) = raw_data t.
Proof. destruct t; repeat split. Qed.

Lemma flat_map_held_pairs_length (field : TensorField) (cs : list (float * float)) :
  length (flat_map (held_pair field) cs) = (2 * length cs)%nat.
Proof. induction cs as [|c cs IH]; simpl; [reflexivity|]. rewrite IH. lia. Qed.

(** A float field takes every real and imaginary part. *)
Lemma check_value_pairs (field : TensorField) (cs : list (float * float)) :
  field = float_data_field \/ field = double_data_field ->
  mapM (check_value (field_kind field)) (flat_map real_imag_pair cs)
  = Ok (flat_map (held_pair field) cs).
Proof.
  intros Hfield. induction cs as [|[re im] cs IH]; [reflexivity|].
  cbn [flat_map real_imag_pair held_pair app fst snd mapM].
  rewrite IH. destruct Hfield as [-> | ->]; reflexivity.
Qed.

Lemma held_pairs_exact (field : TensorField) (cs : list (float * float)) :
  field = double_data_field
  \/ Forall (fun c => single_precision (fst c) /\ single_precision (snd c)) cs ->
  flat_map (held_pair field) cs = flat_map real_imag_pair cs.
Proof.
  intros Hexact. induction cs as [|[re im] cs IH]; [reflexivity|].
  cbn [flat_map]. rewrite IH.
  - f_equal. unfold held_pair, real_imag_pair. cbn [fst snd].
    destruct Hexact as [-> | Hcs]; [reflexivity|].
    apply Forall_cons in Hcs as [[Hre Him] _]. cbn [fst snd] in Hre, Him.
    unfold single_precision in Hre, Him.
    destruct field; cbn [held_real]; rewrite ?Hre, ?Him; reflexivity.
  - destruct Hexact as [-> | Hcs]; [left; reflexivity|].
    right. apply Forall_cons in Hcs as [_ Hcs]. exact Hcs.
Qed.


Lemma mapM_Raise_inv {A B} (f : A -> result B) (l : list A) (e : exn) :
  mapM f l = Raise e -> exists x, x ∈ l /\ f x = Raise e.
Proof.
  induction l as [|x l IH]; simpl; [discriminate|].
  destruct (f x) as [y|e'] eqn:Hx; simpl.
  - destruct (mapM f l) as [ys|e'] eqn:Hl; simpl; [discriminate|].
    intros [= ->]. destruct IH as [z [Hz Hfz]]; [reflexivity|].
    exists z; split; [right; exact Hz | exact Hfz].
  - intros [= ->]. exists x; split; [left | exact Hx].
Qed.

(** The splitting of complex elements can only fail on an element that has no
    real and imaginary part. *)
Lemma split_complex_to_pairs_Raise (ca : list elem) (e : exn) :
  split_complex_to_pairs ca = Raise e -> e = AttributeError \/ e = IndexError.
Proof.
  unfold split_complex_to_pairs. intros Hraise.
  apply mapM_Raise_inv in Hraise as [i [_ Hi]].
  destruct (ca !! (i / 2)%nat) as [c|]; [|injection Hi as <-; right; reflexivity].
  destruct (i mod 2 =? 0)%nat; destruct c; simpl in Hi; try discriminate;
    injection Hi as <-; left; reflexivity.
Qed.

(** A refused write raises one of the two errors of the fields. *)
Lemma check_value_Raise (kind : FieldKind) (x : elem) (e : exn) :
  check_value kind x = Raise e -> e = ValueOutOfRange \/ e = FieldTypeError.
Proof.
  unfold check_value, check_int64, check_range.
  destruct kind, x; try (intros [= <-]; right; reflexivity); try discriminate;
    match goal with
    | |- context [if ?c then _ else _] => destruct c
    end; cbn [bind]; try discriminate; intros [= <-]; left; reflexivity.
Qed.

Lemma mapM_check_value_Raise (kind : FieldKind) (vals : list elem) (e : exn) :
  mapM (check_value kind) vals = Raise e -> e = ValueOutOfRange \/ e = FieldTypeError.
Proof.
  intros Hm. apply mapM_Raise_inv in Hm as (x & _ & Hx).
  exact (check_value_Raise kind x e Hx).
Qed.

(** What [extend_tensor_field] does on a tensor that has no value yet. *)
Lemma extend_tensor_field_cases (field : TensorField) (vals : list elem) (name : string)
    (data_type : DataType.t) :
  match mapM (check_value (field_kind field)) vals with
  | Ok stored =>
      exists t,
        extend_tensor_field field vals
          (mkTensorProto name data_type [] [] [] [] [] [] [] None) = Ok t
        /\ getattr_tensor t field = stored
        /\ tensor_name t = name /\ tensor_data_type t = data_type /\ tensor_dims t = []
        /\ raw_data t = None
  | Raise e =>
      extend_tensor_field field vals
        (mkTensorProto name data_type [] [] [] [] [] [] [] None) = Raise e
      /\ (e = ValueOutOfRange \/ e = FieldTypeError)
  end.
Proof.
  destruct (mapM (check_value (field_kind field)) vals) as [stored|e] eqn:Hm.
  - apply getattr_extend_tensor_field. exact Hm.
  - split; [apply extend_tensor_field_Raise; exact Hm|].
    exact (mapM_check_value_Raise _ _ _ Hm).
Qed.

(** What [make_tensor] does once the size check has passed: it never raises
    the error of the size check, and a tensor it returns has the name, the
    data type and the dims given. *)
Lemma make_tensor_after_size_check (name : string) (data_type : DataType.t) (dims : list Z)
    (vals : tensor_vals) (raw : bool) (r : result TensorProto) :
  r = (let* vals :=
         if is_complex data_type
         then (let* pairs := split_complex_to_pairs (vals_items vals) in Ok (ValList pairs))
         else Ok vals in
       let* tensor :=
         if raw then
           match vals with
           | ValBytes b =>
               Ok (set_raw_data b (mkTensorProto name data_type [] [] [] [] [] [] [] None))
           | ValList _ => Raise (TypeError "raw_data expects bytes")
           end
         else
           let* storage := lookup_table TENSOR_TYPE_TO_STORAGE_TENSOR_TYPE data_type in
           let* field := lookup_table STORAGE_TENSOR_TYPE_TO_FIELD storage in
           extend_tensor_field field (vals_items vals)
             (mkTensorProto name data_type [] [] [] [] [] [] [] None) in
       Ok (extend_dims dims tensor)) ->
  r <> Raise SizeMismatch
  /\ (forall t, r = Ok t ->
        tensor_name t = name /\ tensor_data_type t = data_type /\ tensor_dims t = dims).
Proof.
  intros ->.
  assert (Hvals : forall vals' : tensor_vals,
    let r := (let* tensor :=
         if raw then
           match vals' with
           | ValBytes b =>
               Ok (set_raw_data b (mkTensorProto name data_type [] [] [] [] [] [] [] None))
           | ValList _ => Raise (TypeError "raw_data expects bytes")
           end
         else
           let* storage := lookup_table TENSOR_TYPE_TO_STORAGE_TENSOR_TYPE data_type in
           let* field := lookup_table STORAGE_TENSOR_TYPE_TO_FIELD storage in
           extend_tensor_field field (vals_items vals')
             (mkTensorProto name data_type [] [] [] [] [] [] [] None) in
       Ok (extend_dims dims tensor)) in
    r <> Raise SizeMismatch
    /\ (forall t, r = Ok t ->
          tensor_name t = name /\ tensor_data_type t = data_type /\ tensor_dims t = dims)).
  { intros vals'. cbv zeta. destruct raw.
    - destruct vals' as [l|b]; cbn [bind]; (split; [discriminate|]); [discriminate|].
      intros t [= <-]. auto.
    - unfold lookup_table.
      destruct (TENSOR_TYPE_TO_STORAGE_TENSOR_TYPE data_type) as [storage|]; cbn [bind];
        [|split; discriminate].
      destruct (STORAGE_TENSOR_TYPE_TO_FIELD storage) as [field|]; cbn [bind];
        [|split; discriminate].
      pose proof (extend_tensor_field_cases field (vals_items vals') name data_type) as Hext.
      destruct (mapM (check_value (field_kind field)) (vals_items vals')) as [stored|e].
      + destruct Hext as (t0 & -> & _ & Hname & Htype & Hdims & _). cbn [bind].
        split; [discriminate|]. intros t [= <-].
        destruct (extend_dims_fields dims t0) as (-> & -> & -> & _).
        rewrite Hname, Htype, Hdims. auto.
      + destruct Hext as (-> & He). cbn [bind].
        split; [|discriminate]. destruct He as [-> | ->]; discriminate. }
  cbv zeta in Hvals.
  destruct (is_complex data_type); [|exact (Hvals vals)].
  destruct (split_complex_to_pairs (vals_items vals)) as [pairs|e] eqn:Hsplit; cbn [bind].
  - exact (Hvals (ValList pairs)).
  - split; [|discriminate].
    apply split_complex_to_pairs_Raise in Hsplit as [-> | ->]; discriminate.
Qed.


End TensorProperties.

(** ** Value infos *)

Section ValueInfoProperties.
Context `{Host}.

Lemma append_assoc (a b c : string) : (a +:+ b) +:+ c = a +:+ (b +:+ c).
Proof.
  induction a as [|x a IH]; [reflexivity|].
  change (String x ((a +:+ b) +:+ c) = String x (a +:+ (b +:+ c))).
  rewrite IH. reflexivity.
Qed.

Lemma append_cancel_l (a b c : string) : a +:+ b = a +:+ c -> b = c.
Proof.
  induction a as [|x a IH]; [intros Heq; exact Heq|].
  change (String x (a +:+ b) = String x (a +:+ c) -> b = c).
  intros [= Heq]. apply IH; exact Heq.
Qed.

(** An empty [shape_denotation] is read as an absent one. *)
Lemma make_shape_empty_denotation (shape : list shape_item) :
  make_shape shape (Some []) = make_shape shape None.
Proof. reflexivity. Qed.

Lemma make_shape_mismatch (shape : list shape_item) (den : list string) :
  den <> [] -> length den <> length shape ->
  make_shape shape (Some den) = Raise DenotationLengthMismatch.
Proof.
  intros Hne Hlen. unfold make_shape.
  destruct den as [|s den]; [contradiction|]. cbn [truthy_list from_option id].
  rewrite bool_decide_eq_true_2 by exact Hlen. reflexivity.
Qed.

Lemma make_dims_from (den : list string) (l : list shape_item) (k : nat) :
  den <> [] ->
  (k + length l <= length den)%nat ->
  Forall (fun d => d <> ShapeOther) l ->
  mapM (make_dim (Some den)) (zip (seq k (length l)) l)
  = Ok (zip_with denoted_dim l (drop k den)).
Proof.
  intros Hne. revert k; induction l as [|d l IH]; intros k Hk Hvalid; [reflexivity|].
  inversion Hvalid as [|? ? Hd Hl]; subst.
  cbn [length seq zip zip_with mapM]. cbn [length] in Hk.
  destruct (lookup_lt_is_Some_2 den k) as [s Hs]; [lia|].
  rewrite (drop_S den s k Hs). cbn [zip_with].
  assert (Hdim : make_dim (Some den) (k, d) = Ok (denoted_dim d s)).
  { unfold make_dim. destruct den as [|s0 den0]; [contradiction|].
    cbn [truthy_list from_option id]. rewrite Hs.
    destruct d; try reflexivity. contradiction. }
  rewrite Hdim. cbn [bind].
  rewrite IH by (try exact Hl; lia). reflexivity.
Qed.

Lemma make_shape_positional (shape : list shape_item) (den : list string) :
  den <> [] -> length den = length shape ->
  Forall (fun d => d <> ShapeOther) shape ->
  make_shape shape (Some den) = Ok (zip_with denoted_dim shape den).
Proof.
  intros Hne Hlen Hvalid. unfold make_shape.
  destruct den as [|s den']; [contradiction|]. cbn [truthy_list from_option id].
  rewrite bool_decide_eq_false_2 by (intros Hn; apply Hn; exact Hlen). cbn [bind].
  unfold enumerate. rewrite make_dims_from; [reflexivity|exact Hne|lia|exact Hvalid].
Qed.


(** C8. With an explicitly empty [shape] the type of the value info has a
    shape, of no dimension, and is printed as a scalar; with [shape=None] it
    has no shape and is printed with the element type alone.  The two value
    infos differ, and so do their printed forms. *)
Theorem empty_shape_is_not_absent_shape (name : string) (elem_type : DataType.t)
    (doc_string : string) (den : option (list string)) :
  truthy_list den = false ->
  exists v_empty v_absent,
    make_tensor_value_info name elem_type (Some []) doc_string den = Ok v_empty
    /\ make_tensor_value_info name elem_type None doc_string den = Ok v_absent
    /\ vi_shape v_empty = Some []
    /\ vi_shape v_absent = None
    /\ printable_type (vi_type v_empty) = Ok (DataType.Name elem_type +:+ ", scalar")
    /\ printable_type (vi_type v_absent) = Ok (DataType.Name elem_type)
    /\ v_empty <> v_absent
    /\ printable_value_info v_empty <> printable_value_info v_absent.
Proof.
  intros Hden.
  unfold make_tensor_value_info, make_optional_shape, make_shape.
  rewrite Hden. cbn [bind enumerate length seq zip zip_with mapM].
  eexists _, _. do 6 (split; [reflexivity|]).
  split; [discriminate|].
  unfold printable_value_info. cbn [vi_type vi_name printable_type tt_shape tt_elem_type
                                    nonempty bind].
  intros [= Heq].
  apply append_cancel_l in Heq. apply append_cancel_l in Heq.
  rewrite append_assoc in Heq. apply append_cancel_l in Heq. discriminate Heq.
Qed.

End ValueInfoProperties.

(** ** The printer *)

Section PrinterProperties.
Context `{Collaborators}.

Lemma bind_Ok_inv {A B} (r : result A) (k : A -> result B) (y : B) :
  bind r k = Ok y -> exists x, r = Ok x /\ k x = Ok y.
Proof. destruct r as [x|e]; simpl; [eauto | discriminate]. Qed.

Lemma mapM_ext {A B} (f g : A -> result B) (l : list A) :
  (forall x, x ∈ l -> f x = g x) -> mapM f l = mapM g l.
Proof.
  induction l as [|x l IH]; intros Hfg; simpl; [reflexivity|].
  rewrite Hfg by left. rewrite IH; [reflexivity|].
  intros y Hy; apply Hfg; right; exact Hy.
Qed.

Lemma mapM_map {A B C} (f : B -> result C) (h : A -> B) (l : list A) :
  mapM f (map h l) = mapM (fun x => f (h x)) l.
Proof. induction l as [|x l IH]; simpl; [reflexivity|]. rewrite IH. reflexivity. Qed.

Lemma le_list_max (x : nat) (l : list nat) : x ∈ l -> (x <= list_max l)%nat.
Proof.
  induction l as [|y l IH]; [intros Hin; inversion Hin|].
  rewrite elem_of_cons. cbn [list_max foldr]. fold (list_max l).
  intros [->|Hin]; [lia|]. specialize (IH Hin). lia.
Qed.

Lemma graph_depth_eq (g : GraphProto) :
  graph_depth g = S (list_max (map node_depth (graph_node g))).
Proof. destruct g; reflexivity. Qed.

Lemma node_depth_eq (n : NodeProto) :
  node_depth n = list_max (map attr_depth (node_attribute n)).
Proof. destruct n; reflexivity. Qed.

Lemma attr_depth_eq (a : AttributeProto) :
  attr_depth a =
  Nat.max (match attr_g a with Some g => graph_depth g | None => 0%nat end)
          (list_max (map graph_depth (attr_graphs a))).
Proof. destruct a; reflexivity. Qed.

(** The graphs that an attribute hands up are its [g] field or its [graphs]
    field. *)
Lemma printable_attribute_graphs (a : AttributeProto) (s : string) (gs : list GraphProto) :
  printable_attribute a = Ok (s, gs) ->
  gs = [] \/ (exists g, attr_g a = Some g /\ gs = [g]) \/ gs = attr_graphs a.
Proof.
  unfold printable_attribute. intros Hp.
  apply bind_Ok_inv in Hp as ([value graphs] & Hv & Hr).
  injection Hr as _ <-.
  destruct (attr_f a); [injection Hv as _ <-; left; reflexivity|].
  destruct (attr_i a); [injection Hv as _ <-; left; reflexivity|].
  destruct (attr_s a); [injection Hv as _ <-; left; reflexivity|].
  destruct (attr_t a) as [t|].
  { destruct (0 <? length (tensor_dims t))%nat; [injection Hv as _ <-; left; reflexivity|].
    apply bind_Ok_inv in Hv as (field & _ & Hv). injection Hv as _ <-; left; reflexivity. }
  destruct (attr_g a) as [g|]; [injection Hv as _ <-; right; left; eauto|].
  destruct (nonempty (attr_floats a)); [injection Hv as _ <-; left; reflexivity|].
  destruct (nonempty (attr_ints a)); [injection Hv as _ <-; left; reflexivity|].
  destruct (nonempty (attr_strings a)); [injection Hv as _ <-; left; reflexivity|].
  destruct (nonempty (attr_tensors a)); [injection Hv as _ <-; left; reflexivity|].
  destruct (nonempty (attr_graphs a)); injection Hv as _ <-; [right; right|left]; reflexivity.
Qed.

Lemma printable_attribute_depth (a : AttributeProto) (s : string) (gs : list GraphProto) :
  printable_attribute a = Ok (s, gs) ->
  forall g, g ∈ gs -> (graph_depth g <= attr_depth a)%nat.
Proof.
  intros Hp g Hg. rewrite attr_depth_eq.
  apply printable_attribute_graphs in Hp as [-> | [(g' & Hg' & ->) | ->]].
  - inversion Hg.
  - apply list_elem_of_singleton in Hg as ->. rewrite Hg'. lia.
  - assert (graph_depth g <= list_max (map graph_depth (attr_graphs a)))%nat; [|lia].
    apply le_list_max, list_elem_of_fmap. exists g; auto.
Qed.

(** The graphs handed up by a list of printed items, each of them below a
    bound for its item. *)
Lemma mapM_graphs_depth {A} (f : A -> result (string * list GraphProto)) (depth : A -> nat)
    (l : list A) (printed : list (string * list GraphProto)) :
  (forall x s gs, f x = Ok (s, gs) -> forall g, g ∈ gs -> (graph_depth g <= depth x)%nat) ->
  mapM f l = Ok printed ->
  forall g, g ∈ concat (map snd printed) -> (graph_depth g <= list_max (map depth l))%nat.
Proof.
  intros Hf. revert printed; induction l as [|x l IH]; intros printed; simpl.
  - intros [= <-] g Hg. inversion Hg.
  - intros Hm.
    apply bind_Ok_inv in Hm as ([s gs] & Hx & Hm).
    apply bind_Ok_inv in Hm as (ys & Hl & Hm). injection Hm as <-.
    intros g. cbn [map snd concat]. rewrite elem_of_app.
    intros [Hg|Hg].
    + specialize (Hf x s gs Hx g Hg). lia.
    + specialize (IH ys Hl g Hg). fold (list_max (map depth l)). lia.
Qed.

Lemma printable_node_depth (n : NodeProto) (prefix s : string) (gs : list GraphProto) :
  printable_node n prefix = Ok (s, gs) ->
  forall g, g ∈ gs -> (graph_depth g <= node_depth n)%nat.
Proof.
  unfold printable_node. intros Hp.
  apply bind_Ok_inv in Hp as (printed & Hm & Hr). injection Hr as _ <-.
  rewrite node_depth_eq.
  eapply mapM_graphs_depth; [|exact Hm]. apply printable_attribute_depth.
Qed.

(** The lines of a graph's own block end with the closing bracket, and the
    graphs of the block are those of its nodes, in the order of the nodes. *)
Lemma graph_block_inv (graph : GraphProto) (prefix : string) (content : list string)
    (graphs : list GraphProto) :
  graph_block graph prefix = Ok (content, graphs) ->
  exists lines printed,
    mapM (fun node => printable_node node (prefix +:+ "  ")) (graph_node graph) = Ok printed
    /\ graphs = concat (map snd printed)
    /\ content = lines ++ map fst printed ++ [last_line prefix graph; prefix +:+ "}"].
Proof.
  unfold graph_block. intros Hb.
  apply bind_Ok_inv in Hb as ([content0 header] & _ & Hb).
  apply bind_Ok_inv in Hb as (printed & Hm & Hb).
  injection Hb as <- <-.
  exists (content0 ++ [prefix +:+ join " " (header ++ ["{"])]), printed.
  split; [exact Hm|]. split; [reflexivity|].
  unfold last_line. rewrite <- !app_assoc.
  destruct (graph_output graph); reflexivity.
Qed.

Lemma graph_block_depth (graph : GraphProto) (prefix : string) (content : list string)
    (graphs : list GraphProto) :
  graph_block graph prefix = Ok (content, graphs) ->
  forall g, g ∈ graphs -> (graph_depth g < graph_depth graph)%nat.
Proof.
  intros Hb g Hg.
  apply graph_block_inv in Hb as (lines & printed & Hm & -> & _).
  rewrite (graph_depth_eq graph).
  assert (graph_depth g <= list_max (map node_depth (graph_node graph)))%nat; [|lia].
  eapply mapM_graphs_depth; [|exact Hm|exact Hg].
  intros x s gs. apply printable_node_depth.
Qed.

(** More depth than the nesting of the graph changes nothing. *)
Lemma printable_graph_rec_enough (n m : nat) (graph : GraphProto) (prefix : string) :
  (graph_depth graph <= n)%nat -> (graph_depth graph <= m)%nat ->
  printable_graph_rec n graph prefix = printable_graph_rec m graph prefix.
Proof.
  revert m graph prefix; induction n as [|n IH]; intros m graph prefix Hn Hm.
  - rewrite graph_depth_eq in Hn. lia.
  - destruct m as [|m]; [rewrite graph_depth_eq in Hm; lia|].
    cbn [printable_graph_rec].
    destruct (graph_block graph prefix) as [[content graphs]|e] eqn:Hb; [|reflexivity].
    cbn [bind].
    rewrite (mapM_ext _ (fun g => printable_graph_rec m g EmptyString)); [reflexivity|].
    intros g Hg. pose proof (graph_block_depth _ _ _ _ Hb g Hg).
    apply IH; lia.
Qed.

(** The recursion equation of [printable_graph]: the graph's own block, then
    the complete rendering of each graph its nodes handed up, each after a
    blank line. *)
Lemma printable_graph_eq (graph : GraphProto) (prefix : string) :
  printable_graph graph prefix =
  let* (content, graphs) := graph_block graph prefix in
  let* nested := mapM (fun g => printable_graph g EmptyString) graphs in
  Ok (join newline (content ++ map (fun s => newline +:+ s) nested)).
Proof.
  unfold printable_graph at 1.
  destruct (graph_depth graph) as [|d] eqn:Hd; [rewrite graph_depth_eq in Hd; discriminate|].
  cbn [printable_graph_rec].
  destruct (graph_block graph prefix) as [[content graphs]|e] eqn:Hb; [|reflexivity].
  cbn [bind].
  rewrite (mapM_ext _ (fun g => printable_graph g EmptyString)); [reflexivity|].
  intros g Hg. pose proof (graph_block_depth _ _ _ _ Hb g Hg).
  unfold printable_graph. apply printable_graph_rec_enough; lia.
Qed.

Lemma mapM_bind_Ok {A B C} (f : A -> result B) (h : B -> C) (l : list A) :
  mapM (fun x => let* y := f x in Ok (h y)) l = let* ys := mapM f l in Ok (map h ys).
Proof.
  induction l as [|x l IH]; simpl; [reflexivity|].
  destruct (f x) as [y|e]; simpl; [|reflexivity].
  rewrite IH. destruct (mapM f l); reflexivity.
Qed.

Lemma imap_map_hollow {B} (f f' : nat -> GraphProto -> B) (l : list GraphProto) :
  (forall i g, f i (hollow g) = f' i g) -> imap f (map hollow l) = imap f' l.
Proof.
  revert f f'; induction l as [|g l IH]; intros f f' Hf; simpl; [reflexivity|].
  rewrite Hf. f_equal. apply IH. intros i g'. apply Hf.
Qed.

Lemma nonempty_map {A B} (f : A -> B) (l : list A) : nonempty (map f l) = nonempty l.
Proof. destruct l; reflexivity. Qed.

(** The text of an attribute is the same when the graphs it carries are
    emptied: of a graph, only the name is printed. *)
Lemma printable_attribute_hollow (a : AttributeProto) :
  printable_attribute (hollow_attribute a)
  = let* p := printable_attribute a in Ok (hollow_graphs p).
Proof.
  destruct a as [n d ty f i s t g sp fl il sl tl gl spl].
  unfold printable_attribute, hollow_attribute.
  cbn [attr_name attr_f attr_i attr_s attr_t attr_g attr_floats attr_ints attr_strings
       attr_tensors attr_graphs].
  destruct f; [reflexivity|]. destruct i; [reflexivity|]. destruct s; [reflexivity|].
  destruct t as [t|].
  { destruct (0 <? length (tensor_dims t))%nat; [reflexivity|].
    destruct (lookup_table STORAGE_TENSOR_TYPE_TO_FIELD (tensor_data_type t)); reflexivity. }
  destruct g as [g|]; [reflexivity|]. cbn [fmap option_fmap option_map].
  destruct (nonempty fl); [reflexivity|]. destruct (nonempty il); [reflexivity|].
  destruct (nonempty sl); [reflexivity|]. destruct (nonempty tl); [reflexivity|].
  rewrite nonempty_map, length_map.
  destruct (nonempty gl); [|reflexivity].
  rewrite (imap_map_hollow _
             (fun (i : nat) (g : GraphProto) =>
                "<graph " +:+ graph_name g +:+ ">"
                +:+ (if bool_decide (i <> (length gl - 1)%nat)
                     then "," else EmptyString))); reflexivity.
Qed.

Lemma concat_hollow_graphs (printed : list (string * list GraphProto)) :
  map fst (map hollow_graphs printed) = map fst printed
  /\ concat (map snd (map hollow_graphs printed)) = map hollow (concat (map snd printed)).
Proof.
  induction printed as [|[s gs] printed [IH1 IH2]]; [split; reflexivity|].
  cbn [map fst snd concat hollow_graphs]. rewrite IH1, IH2, map_app. split; reflexivity.
Qed.

(** The line of a node is the same when the graphs of its attributes are
    emptied. *)
Lemma printable_node_hollow (node : NodeProto) (prefix : string) :
  printable_node (hollow_node node) prefix
  = let* p := printable_node node prefix in Ok (hollow_graphs p).
Proof.
  destruct node as [op inp out name doc dom attrs].
  unfold printable_node, hollow_node.
  cbn [node_output node_attribute node_input node_op_type].
  rewrite mapM_map.
  rewrite (mapM_ext _ (fun a => let* p := printable_attribute a in Ok (hollow_graphs p)))
    by (intros a _; apply printable_attribute_hollow).
  rewrite mapM_bind_Ok.
  destruct (mapM printable_attribute attrs) as [printed|e]; [|reflexivity].
  cbn [bind]. destruct (concat_hollow_graphs printed) as [-> ->].
  unfold hollow_graphs. cbn [fst snd].
  rewrite nonempty_map. reflexivity.
Qed.

(** A well-formed attribute hands up the graphs it carries. *)
Lemma printable_attribute_hands_up (a : AttributeProto) (s : string)
    (gs : list GraphProto) :
  well_formed_attribute a -> printable_attribute a = Ok (s, gs) -> gs = attribute_graphs a.
Proof.
  intros (key & doc & v & ->).
  destruct v as [x|i|b|t|t|g|l|l|l|l|l|l]; unfold printable_attribute, attribute_graphs;
    cbn [attribute_record attr_name attr_f attr_i attr_s attr_t attr_g attr_floats attr_ints
         attr_strings attr_tensors attr_graphs nonempty bind];
    try (destruct l; cbn [nonempty bind]);
    try (intros [= _ <-]; reflexivity).
  destruct (0 <? length (tensor_dims t))%nat; cbn [bind]; [intros [= _ <-]; reflexivity|].
  destruct (lookup_table STORAGE_TENSOR_TYPE_TO_FIELD (tensor_data_type t)); cbn [bind];
    [intros [= _ <-]; reflexivity | discriminate].
Qed.

(** The printed attributes of a well-formed node: one text per attribute, and
    the graphs of the attributes in their order. *)
Lemma mapM_printable_attribute_hands_up (attrs : list AttributeProto)
    (printed : list (string * list GraphProto)) :
  Forall well_formed_attribute attrs ->
  mapM printable_attribute attrs = Ok printed ->
  Forall2 (fun a text => printable_attribute a = Ok (text, attribute_graphs a))
    attrs (map fst printed)
  /\ concat (map snd printed) = flat_map attribute_graphs attrs.
Proof.
  intros Hwf. revert printed.
  induction Hwf as [|a attrs Ha _ IH]; intros printed; cbn [mapM].
  - intros [= <-]. split; [constructor | reflexivity].
  - intros Hm. apply bind_Ok_inv in Hm as ([text gs] & Hp & Hm).
    apply bind_Ok_inv in Hm as (rest & Hrest & Hm). injection Hm as <-.
    destruct (IH rest Hrest) as [Htexts Hgraphs].
    pose proof (printable_attribute_hands_up a text gs Ha Hp) as ->.
    cbn [map fst snd concat flat_map]. rewrite Hgraphs.
    split; [constructor; [exact Hp | exact Htexts] | reflexivity].
Qed.

(** The line of a well-formed node is made of the texts of its attributes,
    and the graphs it hands up are those of its attributes. *)
Lemma printable_node_hands_up (node : NodeProto) (prefix line : string)
    (gs : list GraphProto) :
  well_formed_node node ->
  printable_node node prefix = Ok (line, gs) ->
  exists texts,
    Forall2 (fun a text => printable_attribute a = Ok (text, attribute_graphs a))
      (node_attribute node) texts
    /\ line
       = prefix +:+
         join " "
           ((if nonempty (node_output node)
             then [join ", " (map percent (node_output node)); "="] else [])
            ++ [if nonempty (node_attribute node)
                then node_op_type node +:+ "[" +:+ join ", " (sorted texts) +:+ "]("
                     +:+ join ", " (map percent (node_input node)) +:+ ")"
                else node_op_type node +:+ "("
                     +:+ join ", " (map percent (node_input node)) +:+ ")"])
    /\ gs = node_graphs node.
Proof.
  intros Hwf. unfold printable_node. intros Hp.
  apply bind_Ok_inv in Hp as (printed & Hm & Hr).
  destruct (mapM_printable_attribute_hands_up _ _ Hwf Hm) as [Htexts Hgraphs].
  exists (map fst printed). split; [exact Htexts|].
  injection Hr as <- <-. split; [|exact Hgraphs].
  destruct (nonempty (node_attribute node)); reflexivity.
Qed.

Lemma mapM_printable_node_hands_up (nodes : list NodeProto) (prefix : string)
    (printed : list (string * list GraphProto)) :
  Forall well_formed_node nodes ->
  mapM (fun node => printable_node node prefix) nodes = Ok printed ->
  concat (map snd printed) = flat_map node_graphs nodes.
Proof.
  intros Hwf. revert printed.
  induction Hwf as [|n nodes Hn _ IH]; intros printed; cbn [mapM].
  - intros [= <-]. reflexivity.
  - intros Hm. apply bind_Ok_inv in Hm as ([line gs] & Hp & Hm).
    apply bind_Ok_inv in Hm as (rest & Hrest & Hm). injection Hm as <-.
    destruct (printable_node_hands_up n prefix line gs Hn Hp) as (_ & _ & _ & ->).
    cbn [map snd concat flat_map]. rewrite (IH rest Hrest). reflexivity.
Qed.

(** The graphs of the block of a graph are the graphs of the attributes of
    its nodes. *)
Lemma graph_block_hands_up (graph : GraphProto) (prefix : string) (content : list string)
    (graphs : list GraphProto) :
  well_formed_nodes graph ->
  graph_block graph prefix = Ok (content, graphs) ->
  graphs = nested_graphs graph /\ last content = Some (prefix +:+ "}").
Proof.
  intros Hwf Hb.
  apply graph_block_inv in Hb as (lines & printed & Hm & -> & ->).
  split; [exact (mapM_printable_node_hands_up _ _ _ Hwf Hm)|].
  rewrite !app_assoc.
  change [last_line prefix graph; prefix +:+ "}"]
    with ([last_line prefix graph] ++ [prefix +:+ "}"]).
  rewrite app_assoc. apply last_snoc.
Qed.

(** The printed form of a graph whose attributes are well formed: its block,
    then the rendering of the graphs of its attributes. *)
Lemma printable_graph_nested (graph : GraphProto) (prefix : string) :
  well_formed_nodes graph ->
  printable_graph graph prefix
  = (let* block := graph_block graph prefix in
     let* nested := mapM (fun g => printable_graph g EmptyString) (nested_graphs graph) in
     Ok (join newline (fst block ++ map (fun s => newline +:+ s) nested))).
Proof.
  intros Hwf. rewrite printable_graph_eq.
  destruct (graph_block graph prefix) as [[content graphs]|e] eqn:Hb; [|reflexivity].
  destruct (graph_block_hands_up _ _ _ _ Hwf Hb) as [-> _]. reflexivity.
Qed.

(** C10. A graph-valued attribute is printed as the placeholder
    [<graph NAME>] and hands its graph up.  The line of a node is made of the
    texts of its attributes, and does not change when the graphs of its
    attributes are emptied, so no nested graph is printed inside it; the
    graphs the node hands up are those of its attributes, in the order of the
    attributes.  [printable_graph] gives the graph's own block, which ends
    with the closing bracket, and then, each after a blank line, the complete
    rendering of the graphs of the attributes of its nodes, in the order of
    the nodes; the same holds inside each of them, so that a graph nested in a
    nested graph comes after the block of its parent. *)
Theorem printable_graph_hoists_nested_graphs (graph a b : GraphProto) (prefix : string)
    (cg ca cb : list string) :
  (forall key doc g,
     printable_attribute (attribute_record key doc (AGraph g))
     = Ok (join " " [key; "="; "<graph " +:+ graph_name g +:+ ">"], [g]))
  /\ (forall node line_prefix,
        printable_node (hollow_node node) line_prefix
        = let* p := printable_node node line_prefix in Ok (hollow_graphs p))
  /\ (forall node line_prefix line gs,
        well_formed_node node ->
        printable_node node line_prefix = Ok (line, gs) ->
        exists texts,
          Forall2 (fun a text => printable_attribute a = Ok (text, attribute_graphs a))
            (node_attribute node) texts
          /\ line
             = line_prefix +:+
               join " "
                 ((if nonempty (node_output node)
                   then [join ", " (map percent (node_output node)); "="] else [])
                  ++ [if nonempty (node_attribute node)
                      then node_op_type node +:+ "[" +:+ join ", " (sorted texts) +:+ "]("
                           +:+ join ", " (map percent (node_input node)) +:+ ")"
                      else node_op_type node +:+ "("
                           +:+ join ", " (map percent (node_input node)) +:+ ")"])
          /\ gs = node_graphs node)
  /\ (well_formed_nodes graph ->
      printable_graph graph prefix
      = (let* block := graph_block graph prefix in
         let* nested :=
           mapM (fun g => printable_graph g EmptyString) (nested_graphs graph) in
         Ok (join newline (fst block ++ map (fun s => newline +:+ s) nested))))
  /\ (forall content graphs,
        well_formed_nodes graph ->
        graph_block graph prefix = Ok (content, graphs) ->
        graphs = nested_graphs graph /\ last content = Some (prefix +:+ "}"))
  /\ (forall gg ga gb,
        well_formed_nodes graph -> well_formed_nodes a -> well_formed_nodes b ->
        nested_graphs graph = [a] -> nested_graphs a = [b] -> nested_graphs b = [] ->
        graph_block graph prefix = Ok (cg, gg) ->
        graph_block a EmptyString = Ok (ca, ga) ->
        graph_block b EmptyString = Ok (cb, gb) ->
        printable_graph graph prefix
        = Ok (join newline
                (cg ++ [newline +:+ join newline
                                     (ca ++ [newline +:+ join newline cb])]))).
Proof.
  split; [reflexivity|].
  split; [apply printable_node_hollow|].
  split; [apply printable_node_hands_up|].
  split; [apply printable_graph_nested|].
  split; [intros content graphs; apply graph_block_hands_up|].
  intros gg ga gb Hwg Hwa Hwb Hng Hna Hnb Hg Ha Hb.
  rewrite (printable_graph_nested graph prefix Hwg), Hg, Hng. cbn [bind mapM fst].
  rewrite (printable_graph_nested a EmptyString Hwa), Ha, Hna. cbn [bind mapM fst].
  rewrite (printable_graph_nested b EmptyString Hwb), Hb, Hnb. cbn [bind mapM map fst].
  rewrite app_nil_r. reflexivity.
Qed.

End PrinterProperties.

(** * Further properties *)

(** ** Sorting by a key *)

Lemma leb_trans (a b c : string) :
  String.leb a b = true -> String.leb b c = true -> String.leb a c = true.
Proof.
  intros Hab Hbc. apply Is_true_true.
  apply Is_true_true in Hab, Hbc.
  exact (@transitivity _ String.le _ a b c Hab Hbc).
Qed.

Lemma leb_false_le (a b : string) : String.leb a b = false -> String.leb b a = true.
Proof.
  intros Hab. destruct (String.leb_total a b) as [H|H]; [congruence | exact H].
Qed.

Section SortingByKey.
Context {A : Type} (key : A -> string).

Let key_le (x y : A) : Prop := text_le (key x) (key y).

Lemma insert_by_perm (a : A) (l : list A) : insert_by key a l ≡ₚ a :: l.
Proof.
  induction l as [|x l IH]; simpl; [reflexivity|].
  destruct (String.leb (key a) (key x)); [reflexivity|].
  rewrite IH. apply perm_swap.
Qed.

Lemma sorted_by_perm (l : list A) : sorted_by key l ≡ₚ l.
Proof.
  induction l as [|x l IH]; simpl; [reflexivity|].
  rewrite insert_by_perm, IH. reflexivity.
Qed.

Lemma insert_by_sorted (a : A) (l : list A) :
  StronglySorted key_le l -> StronglySorted key_le (insert_by key a l).
Proof.
  induction l as [|x l IH]; intros Hl; simpl.
  - constructor; constructor.
  - inversion Hl as [|? ? Hs Hall]; subst.
    destruct (String.leb (key a) (key x)) eqn:Hax.
    + constructor; [exact Hl|]. constructor; [exact Hax|].
      eapply Forall_impl; [exact Hall|]. intros y Hy. unfold key_le, text_le in *.
      eapply leb_trans; eauto.
    + constructor; [apply IH; exact Hs|].
      rewrite insert_by_perm. constructor; [|exact Hall].
      apply leb_false_le; exact Hax.
Qed.

Lemma sorted_by_sorted (l : list A) : StronglySorted key_le (sorted_by key l).
Proof.
  induction l as [|x l IH]; simpl; [constructor|]. apply insert_by_sorted; exact IH.
Qed.

(** Two insertions commute when the elements are told apart by their keys. *)
Lemma insert_by_comm (a b : A) (l : list A) :
  (key a = key b -> a = b) ->
  insert_by key a (insert_by key b l) = insert_by key b (insert_by key a l).
Proof.
  intros Hinj. induction l as [|x l IH]; simpl.
  - destruct (String.leb (key a) (key b)) eqn:Hab, (String.leb (key b) (key a)) eqn:Hba;
      try reflexivity.
    + rewrite (Hinj (String.leb_antisym _ _ Hab Hba)). reflexivity.
    + apply leb_false_le in Hab. congruence.
  - destruct (String.leb (key b) (key x)) eqn:Hbx, (String.leb (key a) (key x)) eqn:Hax;
      simpl.
    + destruct (String.leb (key a) (key b)) eqn:Hab, (String.leb (key b) (key a)) eqn:Hba;
        rewrite ?Hax, ?Hbx; try reflexivity.
      * rewrite (Hinj (String.leb_antisym _ _ Hab Hba)). reflexivity.
      * apply leb_false_le in Hab. congruence.
    + rewrite Hbx.
      assert (Hab : String.leb (key a) (key b) = false).
      { destruct (String.leb (key a) (key b)) eqn:Hab; [|reflexivity].
        rewrite (leb_trans _ _ _ Hab Hbx) in Hax. discriminate. }
      rewrite Hab, Hax. reflexivity.
    + rewrite Hax.
      assert (Hba : String.leb (key b) (key a) = false).
      { destruct (String.leb (key b) (key a)) eqn:Hba; [|reflexivity].
        rewrite (leb_trans _ _ _ Hba Hax) in Hbx. discriminate. }
      rewrite Hba, Hbx. reflexivity.
    + rewrite Hax, Hbx, IH. reflexivity.
Qed.

(** Sorting does not depend on the order of a list whose elements are told
    apart by their keys. *)
Lemma sorted_by_perm_eq (l l' : list A) :
  (forall a b, a ∈ l -> b ∈ l -> key a = key b -> a = b) ->
  l ≡ₚ l' -> sorted_by key l = sorted_by key l'.
Proof.
  intros Hinj Hperm. induction Hperm as [|x l l' Hperm IH|x y l|l l' l'' H1 IH1 H2 IH2].
  - reflexivity.
  - simpl. rewrite IH; [reflexivity|].
    intros a b Ha Hb. apply Hinj; right; assumption.
  - simpl. apply insert_by_comm. apply Hinj; [left | right; left].
  - rewrite IH1 by exact Hinj. apply IH2.
    intros a b Ha Hb. apply Hinj; rewrite H1; assumption.
Qed.

End SortingByKey.

Lemma insert_sorted_insert_by (s : string) (l : list string) :
  insert_sorted s l = insert_by (fun x => x) s l.
Proof. induction l as [|x l IH]; simpl; [reflexivity|]. rewrite IH. reflexivity. Qed.

Lemma sorted_sorted_by (l : list string) : sorted l = sorted_by (fun x => x) l.
Proof.
  induction l as [|x l IH]; [reflexivity|].
  unfold sorted, sorted_by in *. simpl. rewrite IH. apply insert_sorted_insert_by.
Qed.

Lemma map_insert_by {A} (key : A -> string) (a : A) (l : list A) :
  map key (insert_by key a l) = insert_by (fun x => x) (key a) (map key l).
Proof.
  induction l as [|x l IH]; simpl; [reflexivity|].
  destruct (String.leb (key a) (key x)); simpl; [reflexivity|]. rewrite IH. reflexivity.
Qed.

Lemma map_sorted_by {A} (key : A -> string) (l : list A) :
  map key (sorted_by key l) = sorted (map key l).
Proof.
  rewrite sorted_sorted_by.
  induction l as [|x l IH]; [reflexivity|].
  unfold sorted_by in *. simpl. rewrite map_insert_by, IH. reflexivity.
Qed.

Lemma sorted_perm_eq (l l' : list string) : l ≡ₚ l' -> sorted l = sorted l'.
Proof.
  intros Hperm. rewrite !sorted_sorted_by. apply sorted_by_perm_eq; [|exact Hperm].
  intros a b _ _ Heq; exact Heq.
Qed.

(** ** The version table, further *)

Lemma mapM_perm_Ok {A B} (f : A -> result B) (l l' : list A) (ys : list B) :
  l ≡ₚ l' -> mapM f l = Ok ys -> exists ys', mapM f l' = Ok ys' /\ ys ≡ₚ ys'.
Proof.
  intros Hperm. revert ys.
  induction Hperm as [|x l l' Hperm IH|x y l|l l' l'' H1 IH1 H2 IH2]; intros ys; simpl.
  - intros [= <-]. exists []. split; reflexivity.
  - destruct (f x) as [z|e]; simpl; [|discriminate].
    destruct (mapM f l) as [zs|e]; simpl; [|discriminate].
    intros [= <-]. destruct (IH zs eq_refl) as (zs' & -> & Hzs).
    exists (z :: zs'). split; [reflexivity|]. constructor; exact Hzs.
  - destruct (f y) as [v|e]; simpl; [|discriminate].
    destruct (f x) as [u|e]; simpl; [|discriminate].
    destruct (mapM f l) as [zs|e]; simpl; [|discriminate].
    intros [= <-]. exists (u :: v :: zs). split; [reflexivity | apply perm_swap].
  - intros Hys. destruct (IH1 ys Hys) as (ys1 & Hys1 & Hp1).
    destruct (IH2 ys1 Hys1) as (ys2 & Hys2 & Hp2).
    exists ys2. split; [exact Hys2 | etransitivity; eassumption].
Qed.

(** A loop whose rounds can only fail in one way fails in that way on every
    ordering of a list on which it fails. *)
Lemma mapM_perm_uniform {A B} (f : A -> result B) (e0 : exn) (l l' : list A) :
  (forall x, f x = Raise e0 \/ exists y, f x = Ok y) ->
  l ≡ₚ l' ->
  (mapM f l = Raise e0 /\ mapM f l' = Raise e0)
  \/ (exists ys ys', mapM f l = Ok ys /\ mapM f l' = Ok ys' /\ ys ≡ₚ ys').
Proof.
  intros Hf Hperm. destruct (mapM f l) as [ys|e] eqn:Hl.
  - right. destruct (mapM_perm_Ok f l l' ys Hperm Hl) as (ys' & Hl' & Hp). eauto.
  - left. apply mapM_Raise_inv in Hl as (x & Hx & Hfx).
    assert (e = e0) as ->.
    { destruct (Hf x) as [He|[y Hy]]; congruence. }
    split; [reflexivity|].
    apply mapM_Raise; [intros z _; apply Hf|].
    exists x. split; [rewrite <- Hperm; exact Hx | exact Hfx].
Qed.

Lemma py_max_perm (l l' : list Z) : l ≡ₚ l' -> py_max l = py_max l'.
Proof.
  intros Hperm. destruct l as [|x l], l' as [|x' l']; simpl.
  - reflexivity.
  - apply Permutation_nil_l in Hperm. discriminate.
  - symmetry in Hperm. apply Permutation_nil_l in Hperm. discriminate.
  - f_equal.
    destruct (foldl_max_spec l x) as [Hin Hall], (foldl_max_spec l' x') as [Hin' Hall'].
    rewrite Forall_forall in Hall, Hall'.
    rewrite Hperm in Hin. rewrite <- Hperm in Hin'.
    specialize (Hall _ Hin'). specialize (Hall' _ Hin). lia.
Qed.

Lemma find_min_ir_version_for_keys (l : list OperatorSetIdProto) :
  find_min_ir_version_for l =
  match map opset_key l with
  | [] => Ok default_min_version
  | _ :: _ =>
      let* versions :=
        mapM (fun k => match OP_SET_ID_VERSION_MAP !! k with
                       | Some ir => Ok ir
                       | None => Raise UnsupportedOpset
                       end) (map opset_key l) in
      py_max versions
  end.
Proof.
  destruct l as [|x l]; [reflexivity|].
  unfold find_min_ir_version_for. rewrite mapM_map.
  cbn [map]. f_equal.
Qed.

(** X1. [find_min_ir_version_for] depends on the operator-set ids only through
    their keys, the empty domain being read as ["ai.onnx"], and not on their
    order: two lists with the same keys up to order give the same version or
    the same failure. *)
Theorem find_min_ir_version_for_order (l l' : list OperatorSetIdProto) :
  map opset_key l ≡ₚ map opset_key l' ->
  find_min_ir_version_for l = find_min_ir_version_for l'.
Proof.
  intros Hperm. rewrite !find_min_ir_version_for_keys.
  destruct (map opset_key l) as [|k ks] eqn:Hl, (map opset_key l') as [|k' ks'] eqn:Hl'.
  - reflexivity.
  - apply Permutation_nil_l in Hperm. discriminate.
  - symmetry in Hperm. apply Permutation_nil_l in Hperm. discriminate.
  - destruct (mapM_perm_uniform
                (fun k => match OP_SET_ID_VERSION_MAP !! k with
                          | Some ir => Ok ir
                          | None => Raise UnsupportedOpset
                          end) UnsupportedOpset (k :: ks) (k' :: ks'))
      as [[-> ->]|(ys & ys' & -> & -> & Hys)]; [| exact Hperm | reflexivity |].
    + intros x. destruct (OP_SET_ID_VERSION_MAP !! x); eauto.
    + cbn [bind]. apply py_max_perm; exact Hys.
Qed.

Lemma OP_SET_ID_VERSION_MAP_bounds (k : string * Z) (ir : Z) :
  OP_SET_ID_VERSION_MAP !! k = Some ir -> 3 <= ir <= 7.
Proof.
  unfold OP_SET_ID_VERSION_MAP. rewrite create_op_set_id_version_map_lookup.
  destruct (first_row_introducing k VERSION_TABLE) as [row|] eqn:Hrow; [|discriminate].
  intros [= <-]. apply find_some in Hrow as [Hin _].
  assert (Hall : Forall (fun row => 3 <= row_ir_version row <= 7) VERSION_TABLE).
  { unfold VERSION_TABLE, row_ir_version. repeat constructor; simpl; lia. }
  rewrite Forall_forall in Hall. apply Hall, list_elem_of_In. exact Hin.
Qed.

(** X2. A version returned by [find_min_ir_version_for] is never below the
    default floor 3 and never above 7, the newest IR version of the table. *)
Theorem find_min_ir_version_for_bounds (l : list OperatorSetIdProto) (v : Z) :
  find_min_ir_version_for l = Ok v -> 3 <= v <= 7.
Proof.
  destruct l as [|x l]; [intros [= <-]; unfold default_min_version; lia|].
  unfold find_min_ir_version_for. intros Hv.
  apply bind_Ok_inv in Hv as (irs & Hirs & Hmax).
  apply mapM_Forall2 in Hirs.
  inversion Hirs as [|? ir0 ? irs' Hx Hl]; subst.
  cbn [py_max] in Hmax. injection Hmax as <-.
  destruct (foldl_max_spec irs' ir0) as [Hin _].
  assert (Hall : Forall (fun ir => 3 <= ir <= 7) (ir0 :: irs')).
  { eapply Forall2_Forall_r; [exact Hirs|]. apply Forall_forall.
    intros y _ ir Hy. rewrite find_min_key in Hy.
    destruct (OP_SET_ID_VERSION_MAP !! opset_key y) as [ir'|] eqn:Hk; [|discriminate].
    injection Hy as <-. eapply OP_SET_ID_VERSION_MAP_bounds; exact Hk. }
  rewrite Forall_forall in Hall. apply Hall; exact Hin.
Qed.

(** ** Attributes, further *)

Section FurtherAttributeProperties.
Context `{Collaborators}.

(** A record that [make_attribute] returns is the record of a variant. *)
Lemma make_attribute_is_record (key : string) (value : pyval) (doc : option string)
    (attr : AttributeProto) :
  make_attribute key value doc = Ok attr ->
  exists v, attr = attribute_record key (truthy_opt doc) v.
Proof.
  intros Hmake. destruct (one_shot value) eqn:Hone.
  - destruct value; try discriminate Hone.
    rewrite make_attribute_one_shot in Hmake. injection Hmake as <-.
    exists (AInts []); reflexivity.
  - rewrite make_attribute_refines_priority in Hmake by exact Hone.
    apply bind_Ok_inv in Hmake as (v & _ & Hmake).
    apply bind_Ok_inv in Hmake as (w & _ & Hattr). injection Hattr as <-.
    exists w; reflexivity.
Qed.

(** X3. Every record that [make_attribute] returns, from any host value, is
    well formed: it has the name given, exactly one populated variant and the
    kind tag of that variant; and [get_attribute_value] decodes it, to the
    host value of that variant. *)
Theorem make_attribute_well_formed (key : string) (value : pyval) (doc : option string)
    (attr : AttributeProto) :
  make_attribute key value doc = Ok attr ->
  exists v, attr = attribute_record key (truthy_opt doc) v
            /\ attr_name attr = key
            /\ get_attribute_value attr = Ok (host_value v).
Proof.
  intros Hmake. destruct (make_attribute_is_record _ _ _ _ Hmake) as [v ->].
  exists v. split; [reflexivity|]. split; [destruct v; reflexivity|].
  apply get_attribute_value_record.
Qed.

(** X4. The printer hands up exactly the graphs that an attribute carries:
    the graph of a [Graph] attribute, the graphs of a [Graphs] attribute in
    their order, and none for any other variant. *)
Theorem printable_attribute_hands_up_graphs (key : string) (doc : option string)
    (v : AttributeValue) (s : string) (gs : list GraphProto) :
  printable_attribute (attribute_record key doc v) = Ok (s, gs) -> gs = variant_graphs v.
Proof.
  destruct v as [x|i|b|t|t|g|l|l|l|l|l|l]; unfold printable_attribute;
    cbn [attribute_record attr_name attr_f attr_i attr_s attr_t attr_g attr_floats attr_ints
         attr_strings attr_tensors attr_graphs nonempty variant_graphs bind];
    try (destruct l; cbn [nonempty bind]);
    try (intros [= _ <-]; reflexivity).
  destruct (0 <? length (tensor_dims t))%nat; cbn [bind]; [intros [= _ <-]; reflexivity|].
  destruct (lookup_table STORAGE_TENSOR_TYPE_TO_FIELD (tensor_data_type t)); cbn [bind];
    [intros [= _ <-]; reflexivity | discriminate].
Qed.

(** X5. Printing a well-formed attribute fails in one case only: a tensor
    attribute of no dimension whose data type has no entry in
    [STORAGE_TENSOR_TYPE_TO_FIELD], where the lookup raises [KeyError]. *)
Theorem printable_attribute_fails_on_scalar_tensor (key : string) (doc : option string)
    (v : AttributeValue) (e : exn) :
  printable_attribute (attribute_record key doc v) = Raise e <->
  e = KeyError
  /\ exists t, v = ATensor t /\ tensor_dims t = []
               /\ STORAGE_TENSOR_TYPE_TO_FIELD (tensor_data_type t) = None.
Proof.
  split.
  - destruct v as [x|i|b|t|t|g|l|l|l|l|l|l]; unfold printable_attribute;
      cbn [attribute_record attr_name attr_f attr_i attr_s attr_t attr_g attr_floats attr_ints
           attr_strings attr_tensors attr_graphs nonempty bind];
      try discriminate; try (destruct l; cbn [nonempty bind]; discriminate).
    destruct (tensor_dims t) as [|d dims] eqn:Hdims; cbn [length Nat.ltb Nat.leb bind];
      [|discriminate].
    unfold lookup_table.
    destruct (STORAGE_TENSOR_TYPE_TO_FIELD (tensor_data_type t)) eqn:Hfield; cbn [bind];
      [discriminate|].
    intros [= <-]. split; [reflexivity|]. exists t. auto.
  - intros (-> & t & -> & Hdims & Hfield). unfold printable_attribute.
    cbn [attribute_record attr_name attr_f attr_i attr_s attr_t].
    rewrite Hdims. cbn [length Nat.ltb Nat.leb]. unfold lookup_table. rewrite Hfield.
    reflexivity.
Qed.

(** X6. A sparse-tensor attribute, a list of sparse tensors and an empty list
    of any kind have no text of their own: each is printed as [<Unknown>]. *)
Theorem printable_attribute_unknown (key : string) (doc : option string)
    (v : AttributeValue) :
  unprintable_variant v ->
  printable_attribute (attribute_record key doc v)
  = Ok (join " " [key; "="; "<Unknown>"], []).
Proof.
  destruct v as [x|i|b|t|t|g|l|l|l|l|l|l]; cbn [unprintable_variant];
    try contradiction; try (intros ->); reflexivity.
Qed.

End FurtherAttributeProperties.

(** ** Tensors, further *)

Section FurtherTensorProperties.
Context `{Collaborators}.

Lemma sequence_pairs (ca : list elem) :
  Forall (fun x => ~ is_bytes_elem x) ca ->
  mapM (fun r : result elem => r) (flat_map (fun c => [real c; imag c]) ca)
  = Ok (flat_map (fun c => [real_part c; imag_part c]) ca).
Proof.
  induction ca as [|c ca IH]; intros Hall; [reflexivity|].
  inversion Hall as [|? ? Hc Hca]; subst.
  cbn [flat_map app mapM]. rewrite (IH Hca).
  destruct c; try reflexivity. exfalso; apply Hc; exact I.
Qed.

Lemma sequence_pairs_bytes (ca : list elem) :
  Exists is_bytes_elem ca ->
  mapM (fun r : result elem => r) (flat_map (fun c => [real c; imag c]) ca)
  = Raise AttributeError.
Proof.
  induction ca as [|c ca IH]; intros Hex; [inversion Hex|].
  cbn [flat_map app mapM].
  destruct c; cbn [real imag bind]; try reflexivity;
    (inversion Hex as [? ? Hc|? ? Hca]; subst; [destruct Hc|]);
    rewrite (IH Hca); reflexivity.
Qed.

Lemma flat_map_parts_length (ca : list elem) :
  length (flat_map (fun c => [real_part c; imag_part c]) ca) = (2 * length ca)%nat.
Proof. induction ca as [|c ca IH]; simpl; [reflexivity|]. rewrite IH. lia. Qed.

(** X7. [split_complex_to_pairs] fails exactly when some element is a [bytes]
    object, which has no real and imaginary part, and then with
    [AttributeError]; it never reads outside the sequence.  Otherwise it
    returns, for every element in order, its real part and then its imaginary
    part (zero for a real number): twice as many entries as elements. *)
Theorem split_complex_to_pairs_spec (ca : list elem) :
  (forall e, split_complex_to_pairs ca = Raise e <->
             e = AttributeError /\ Exists is_bytes_elem ca)
  /\ (Forall (fun x => ~ is_bytes_elem x) ca ->
      split_complex_to_pairs ca = Ok (flat_map (fun c => [real_part c; imag_part c]) ca)
      /\ length (flat_map (fun c => [real_part c; imag_part c]) ca) = (2 * length ca)%nat)
  /\ (forall x, split_complex_to_pairs [EFloat x] = Ok [EFloat x; EFloat float_zero]).
Proof.
  assert (Hdec : Exists is_bytes_elem ca \/ Forall (fun x => ~ is_bytes_elem x) ca).
  { induction ca as [|c ca [IH|IH]].
    - right; constructor.
    - left; right; exact IH.
    - destruct c; try (right; constructor; [intros Hb; exact Hb|exact IH]).
      left; left; exact I. }
  split; [|split].
  - intros e. rewrite split_complex_to_pairs_flat. split.
    + intros Hraise. destruct Hdec as [Hex|Hall].
      * rewrite (sequence_pairs_bytes ca Hex) in Hraise. injection Hraise as <-. auto.
      * rewrite (sequence_pairs ca Hall) in Hraise. discriminate.
    + intros [-> Hex]. apply sequence_pairs_bytes; exact Hex.
  - intros Hall. rewrite split_complex_to_pairs_flat.
    split; [apply sequence_pairs; exact Hall | apply flat_map_parts_length].
  - reflexivity.
Qed.

(** A tensor whose typed field has been extended has its values in that
    field only, one entry per value. *)
Lemma extend_tensor_field_storage (field : TensorField) (vals : list elem) (name : string)
    (data_type : DataType.t) (dims : list Z) (t : TensorProto) :
  extend_tensor_field field vals (mkTensorProto name data_type [] [] [] [] [] [] [] None)
  = Ok t ->
  raw_data (extend_dims dims t) = None
  /\ (forall f, f <> field -> getattr_tensor (extend_dims dims t) f = [])
  /\ length (getattr_tensor (extend_dims dims t) field) = length vals.
Proof.
  unfold extend_tensor_field.
  destruct (mapM (check_value (field_kind field)) vals) as [stored|e] eqn:Hm; cbn [bind];
    [|discriminate].
  pose proof (mapM_Ok_length _ _ _ Hm) as Hlen.
  intros [= <-]. split; [destruct field; reflexivity|]. split.
  - intros f Hf. destruct field, f; try reflexivity; contradiction.
  - rewrite <- Hlen. destruct field; reflexivity.
Qed.

(** X8. A tensor returned by [make_tensor] has its values in exactly one
    place.  With [raw=True] they are the bytes given, in [raw_data], and every
    typed field is empty.  With [raw=False] [raw_data] is not set and the
    values are in one typed field, all the others being empty: as many
    entries as values, twice as many for a complex data type. *)
Theorem make_tensor_one_storage (name : string) (data_type : DataType.t) (dims : list Z)
    (vals : tensor_vals) (raw : bool) (t : TensorProto) :
  make_tensor name data_type dims vals raw = Ok t ->
  if raw then
    exists b, vals = ValBytes b /\ raw_data t = Some b
              /\ forall f, getattr_tensor t f = []
  else
    raw_data t = None
    /\ exists field,
         (forall f, f <> field -> getattr_tensor t f = [])
         /\ length (getattr_tensor t field)
            = if is_complex data_type then (2 * length (vals_items vals))%nat
              else length (vals_items vals).
Proof.
  unfold make_tensor.
  destruct (bool_decide (data_type = DataType.STRING) && raw); cbn [bind]; [discriminate|].
  destruct (if raw then lookup_table TENSOR_TYPE_TO_NP_TYPE_itemsize data_type else Ok 1)
    as [size|e]; cbn [bind]; [|discriminate].
  destruct (bool_decide (vals_len vals <> foldl Z.mul size dims)); [discriminate|].
  destruct (is_complex data_type) eqn:Hc.
  - destruct (split_complex_to_pairs (vals_items vals)) as [pairs|e] eqn:Hsplit; cbn [bind];
      [|discriminate].
    destruct raw; cbn [bind]; [discriminate|].
    unfold lookup_table.
    destruct (TENSOR_TYPE_TO_STORAGE_TENSOR_TYPE data_type) as [storage|]; cbn [bind];
      [|discriminate].
    destruct (STORAGE_TENSOR_TYPE_TO_FIELD storage) as [field|]; cbn [bind]; [|discriminate].
    destruct (extend_tensor_field field (vals_items (ValList pairs)) _) as [t0|e] eqn:Hext;
      cbn [bind]; [|discriminate].
    intros [= <-].
    destruct (extend_tensor_field_storage _ _ _ _ dims _ Hext) as (Hraw & Hother & Hfield).
    split; [exact Hraw|].
    exists field. split; [exact Hother|].
    assert (Hlen : length pairs = (2 * length (vals_items vals))%nat).
    { rewrite split_complex_to_pairs_flat in Hsplit.
      assert (Hall : Forall (fun x => ~ is_bytes_elem x) (vals_items vals)).
      { apply Forall_forall. intros x Hx Hb.
        rewrite sequence_pairs_bytes in Hsplit; [discriminate|].
        apply Exists_exists. exists x. split; [exact Hx | exact Hb]. }
      rewrite (sequence_pairs _ Hall) in Hsplit. injection Hsplit as <-.
      apply flat_map_parts_length. }
    rewrite Hfield. cbn [vals_items]. exact Hlen.
  - cbn [bind]. destruct raw.
    + destruct vals as [l|b]; cbn [bind]; [discriminate|].
      intros [= <-]. exists b. split; [reflexivity|]. split; [reflexivity|].
      intros f; destruct f; reflexivity.
    + unfold lookup_table.
      destruct (TENSOR_TYPE_TO_STORAGE_TENSOR_TYPE data_type) as [storage|]; cbn [bind];
        [|discriminate].
      destruct (STORAGE_TENSOR_TYPE_TO_FIELD storage) as [field|]; cbn [bind];
        [|discriminate].
      destruct (extend_tensor_field field (vals_items vals) _) as [t0|e] eqn:Hext;
        cbn [bind]; [|discriminate].
      intros [= <-].
      destruct (extend_tensor_field_storage _ _ _ _ dims _ Hext) as (Hraw & Hother & Hfield).
      split; [exact Hraw|]. exists field. split; [exact Hother | exact Hfield].
Qed.

(** X9. With [raw=True] and a complex data type [make_tensor] never returns a
    tensor: when the size check passes, the splitting has turned the values
    into a list, which the raw field does not take. *)
Theorem make_tensor_raw_complex_fails (name : string) (data_type : DataType.t)
    (dims : list Z) (vals : tensor_vals) :
  is_complex data_type = true ->
  exists e, make_tensor name data_type dims vals true = Raise e.
Proof.
  intros Hc. unfold make_tensor.
  destruct (bool_decide (data_type = DataType.STRING) && true); cbn [bind]; [eauto|].
  destruct (lookup_table TENSOR_TYPE_TO_NP_TYPE_itemsize data_type) as [size|e];
    cbn [bind]; [|eauto].
  destruct (bool_decide (vals_len vals <> foldl Z.mul size dims)); [eauto|].
  rewrite Hc.
  destruct (split_complex_to_pairs (vals_items vals)) as [pairs|e]; cbn [bind]; eauto.
Qed.

End FurtherTensorProperties.

(** ** Value infos, further *)

Section FurtherValueInfoProperties.
Context `{Collaborators}.

Lemma elem_of_enumerate {A} (l : list A) (i : nat) (x : A) :
  (i, x) ∈ enumerate l <-> l !! i = Some x.
Proof.
  unfold enumerate. rewrite list_elem_of_lookup. split.
  - intros [j Hj]. apply lookup_zip_with_Some in Hj as (a & b & Heq & Ha & Hb).
    injection Heq as -> ->. apply lookup_seq in Ha as [-> _]. exact Hb.
  - intros Hx. exists i. apply lookup_zip_with_Some. exists i, x.
    split; [reflexivity|]. split; [|exact Hx].
    apply lookup_seq. split; [reflexivity|]. eapply lookup_lt_Some; exact Hx.
Qed.

Lemma snd_enumerate {A} (l : list A) : map snd (enumerate l) = l.
Proof. unfold enumerate. apply snd_zip. rewrite length_seq. lia. Qed.

(** A round of the loop over the shape fails only on an entry of another
    type, when the denotation, if any, has the length of the shape. *)
Lemma make_dim_cases (den : option (list string)) (shape : list shape_item)
    (i : nat) (d : shape_item) :
  truthy_list den = false \/ length (default [] den) = length shape ->
  shape !! i = Some d ->
  match d with
  | ShapeOther => make_dim den (i, d) = Raise InvalidShapeItem
  | _ => exists dim, make_dim den (i, d) = Ok dim
  end.
Proof.
  intros Hden Hd. unfold make_dim.
  destruct d; cbn [bind]; try reflexivity;
    (destruct (truthy_list den) eqn:Ht; [|eauto]);
    (destruct Hden as [Hf|Hlen]; [discriminate|]);
    (destruct (lookup_lt_is_Some_2 (default [] den) i) as [s Hs];
       [rewrite Hlen; eapply lookup_lt_Some; exact Hd|]);
    rewrite Hs; eauto.
Qed.

Lemma make_shape_invalid_entry (shape : list shape_item) (den : option (list string)) :
  truthy_list den = false \/ length (default [] den) = length shape ->
  ShapeOther ∈ shape ->
  make_shape shape den = Raise InvalidShapeItem.
Proof.
  intros Hden Hin. unfold make_shape.
  assert (Hcheck : (if truthy_list den
                    then if bool_decide (length (default [] den) <> length shape)
                         then Raise DenotationLengthMismatch else Ok tt
                    else Ok tt) = Ok tt).
  { destruct (truthy_list den); [|reflexivity].
    destruct Hden as [Hf|Hlen]; [discriminate|].
    rewrite bool_decide_eq_false_2 by (intros Hn; apply Hn; exact Hlen). reflexivity. }
  rewrite Hcheck. cbn [bind].
  apply mapM_Raise.
  - intros [i d] Hentry. apply elem_of_enumerate in Hentry.
    pose proof (make_dim_cases den shape i d Hden Hentry) as Hcase.
    destruct d; try (right; exact Hcase). left; exact Hcase.
  - apply list_elem_of_lookup in Hin as [i Hi].
    exists (i, ShapeOther). split; [apply elem_of_enumerate; exact Hi|].
    exact (make_dim_cases den shape i ShapeOther Hden Hi).
Qed.

Lemma make_shape_plain (shape : list shape_item) (den : option (list string)) :
  truthy_list den = false -> ShapeOther ∉ shape ->
  make_shape shape den = Ok (map plain_dim shape).
Proof.
  intros Hden Hvalid. unfold make_shape. rewrite Hden. cbn [bind].
  rewrite (mapM_total _ (fun entry => plain_dim (snd entry))).
  - rewrite <- (snd_enumerate shape) at 2. rewrite map_map. reflexivity.
  - intros [i d] Hentry. apply elem_of_enumerate in Hentry.
    unfold make_dim. rewrite Hden.
    destruct d; try reflexivity.
    exfalso. apply Hvalid. apply list_elem_of_lookup. exists i; exact Hentry.
Qed.


Lemma sizeless_dec (dims : list Dimension) :
  Exists sizeless dims \/ Forall (fun d => ~ sizeless d) dims.
Proof.
  induction dims as [|d dims [IH|IH]].
  - right; constructor.
  - left; right; exact IH.
  - unfold sizeless. destruct (dim_which d) eqn:Hd.
    + left; left; exact Hd.
    + right; constructor; [rewrite Hd; discriminate | exact IH].
    + right; constructor; [rewrite Hd; discriminate | exact IH].
Qed.

Lemma printable_dims_sizeless (dims : list Dimension) :
  Exists sizeless dims -> mapM printable_dim dims = Raise (AssertionError EmptyString).
Proof.
  intros Hex. apply mapM_Raise.
  - intros d _. unfold printable_dim. destruct (dim_which d); eauto.
  - apply Exists_exists in Hex as (d & Hd & Hs). exists d. split; [exact Hd|].
    unfold printable_dim. rewrite Hs. reflexivity.
Qed.

Lemma printable_dims_sized (dims : list Dimension) :
  Forall (fun d => ~ sizeless d) dims -> exists l, mapM printable_dim dims = Ok l.
Proof.
  induction dims as [|d dims IH]; intros Hall; [exists []; reflexivity|].
  inversion Hall as [|? ? Hd Hdims]; subst.
  destruct (IH Hdims) as [l Hl]. cbn [mapM]. rewrite Hl.
  unfold printable_dim, sizeless in *. destruct (dim_which d); [contradiction| |];
    eexists; reflexivity.
Qed.

(** X11. [printable_type] fails in one case only: a tensor type whose shape
    has a dimension with neither a size nor a name, on which the assertion of
    [printable_dim] fails.  Every other type descriptor has a text. *)
Theorem printable_type_fails_on_sizeless (t : TypeProto) (e : exn) :
  printable_type t = Raise e <->
  e = AssertionError EmptyString
  /\ exists ty dims, t = tensor_type ty /\ tt_shape ty = Some dims /\ Exists sizeless dims.
Proof.
  split.
  - destruct t as [|ty|ty|ty']; cbn [printable_type]; try discriminate.
    destruct (tt_shape ty) as [dims|] eqn:Hshape; [|discriminate].
    destruct (nonempty dims); [|discriminate].
    destruct (sizeless_dec dims) as [Hex|Hall].
    + rewrite (printable_dims_sizeless dims Hex). cbn [bind].
      intros [= <-]. split; [reflexivity|]. exists ty, dims. auto.
    + destruct (printable_dims_sized dims Hall) as [l ->]. discriminate.
  - intros (-> & ty & dims & -> & Hshape & Hex). cbn [printable_type].
    rewrite Hshape.
    destruct dims as [|d dims]; [inversion Hex|]. cbn [nonempty].
    rewrite (printable_dims_sizeless _ Hex). reflexivity.
Qed.

Lemma printable_value_info_Raise (v : ValueInfoProto) (e : exn) :
  printable_value_info v = Raise e -> e = AssertionError EmptyString.
Proof.
  unfold printable_value_info.
  destruct (vi_type v) as [|ty|ty|ty']; cbn [printable_type bind]; try discriminate.
  destruct (tt_shape ty) as [dims|]; [|discriminate].
  destruct (nonempty dims); [|discriminate].
  destruct (sizeless_dec dims) as [Hex|Hall].
  - rewrite (printable_dims_sizeless dims Hex). cbn [bind]. intros [= <-]. reflexivity.
  - destruct (printable_dims_sized dims Hall) as [l ->]. discriminate.
Qed.


(** X13. A graph one of whose declared inputs cannot be printed cannot be
    printed either: [printable_graph] fails on the same assertion, whatever
    the rest of the graph. *)
Theorem printable_graph_fails_on_unprintable_input (graph : GraphProto) (prefix : string)
    (v : ValueInfoProto) :
  v ∈ graph_input graph ->
  printable_value_info v = Raise (AssertionError EmptyString) ->
  printable_graph graph prefix = Raise (AssertionError EmptyString).
Proof.
  intros Hin Hv. rewrite printable_graph_eq. unfold graph_block, graph_header.
  destruct (graph_input graph) as [|v0 inputs] eqn:Hinputs; [inversion Hin|].
  cbn [nonempty].
  rewrite (mapM_Raise _ _ (AssertionError EmptyString)); [reflexivity| |].
  - intros inp _. destruct (printable_value_info inp) as [s|e] eqn:Hinp; cbn [bind].
    + right; eauto.
    + left. apply printable_value_info_Raise in Hinp as ->. reflexivity.
  - exists v. split; [exact Hin|]. rewrite Hv. reflexivity.
Qed.

(** X14. The printer knows tensor types only: the value info that
    [make_sparse_tensor_value_info] or [make_sequence_value_info] returns is
    printed as [%NAME[Unknown type ...]], whatever its element type and
    shape. *)
Theorem printable_value_info_unknown_type (name : string) (elem_type : DataType.t)
    (shape : option (list shape_item)) (doc_string : string) (den : option (list string))
    (v : ValueInfoProto) :
  (make_sparse_tensor_value_info name elem_type shape doc_string den = Ok v ->
   printable_value_info v = Ok ("%" +:+ name +:+ "[Unknown type sparse_tensor_type]"))
  /\ (make_sequence_value_info name elem_type shape doc_string den = Ok v ->
      printable_value_info v = Ok ("%" +:+ name +:+ "[Unknown type sequence_type]")).
Proof.
  split.
  - unfold make_sparse_tensor_value_info. intros Hv.
    apply bind_Ok_inv in Hv as (sh & _ & Hv). injection Hv as <-. reflexivity.
  - unfold make_sequence_value_info. intros Hv.
    apply bind_Ok_inv in Hv as (tv & _ & Hv). injection Hv as <-. reflexivity.
Qed.

(** X15. [make_sequence_value_info] fails exactly as [make_tensor_value_info]
    does on the same arguments; when that one returns a value info, the
    sequence value info has the same name and doc string, and its element type
    is the type of the tensor value info, shape included. *)
Theorem make_sequence_value_info_wraps_tensor (name : string) (elem_type : DataType.t)
    (shape : option (list shape_item)) (doc_string : string) (den : option (list string)) :
  match make_tensor_value_info name elem_type shape doc_string den with
  | Ok tv =>
      make_sequence_value_info name elem_type shape doc_string den
      = Ok (mkValueInfoProto (vi_name tv) (vi_doc_string tv) (sequence_type (vi_type tv)))
  | Raise e => make_sequence_value_info name elem_type shape doc_string den = Raise e
  end.
Proof.
  unfold make_sequence_value_info.
  destruct (make_tensor_value_info name elem_type shape doc_string den) as [tv|e] eqn:Htv;
    [|reflexivity].
  cbn [bind]. unfold make_tensor_value_info in Htv.
  apply bind_Ok_inv in Htv as (sh & Hsh & Htv). injection Htv as <-.
  cbn [vi_name vi_doc_string vi_type type_tensor_shape tt_shape].
  destruct shape as [shape|]; cbn [make_optional_shape] in Hsh.
  - apply bind_Ok_inv in Hsh as (dims & _ & Hsh). injection Hsh as <-. reflexivity.
  - injection Hsh as <-. reflexivity.
Qed.

End FurtherValueInfoProperties.

(** ** Nodes, further *)

Section FurtherNodeProperties.
Context `{Collaborators}.

Lemma insert_item_insert_by (item : string * pyval) (l : list (string * pyval)) :
  insert_item item l = insert_by fst item l.
Proof. induction l as [|x l IH]; simpl; [reflexivity|]. rewrite IH. reflexivity. Qed.

Lemma sorted_items_sorted_by (l : list (string * pyval)) :
  sorted_items l = sorted_by fst l.
Proof.
  induction l as [|x l IH]; [reflexivity|].
  unfold sorted_items, sorted_by in *. simpl. rewrite IH. apply insert_item_insert_by.
Qed.

Lemma NoDup_map_inj_on {A B} (f : A -> B) (l : list A) (a b : A) :
  NoDup (map f l) -> a ∈ l -> b ∈ l -> f a = f b -> a = b.
Proof.
  induction l as [|x l IH]; intros Hnd Ha Hb Hf; [inversion Ha|].
  cbn [map] in Hnd. apply NoDup_cons in Hnd as [Hx Hnd].
  apply elem_of_cons in Ha as [->|Ha], Hb as [->|Hb].
  - reflexivity.
  - exfalso. apply Hx. rewrite Hf. apply list_elem_of_fmap. exists b. auto.
  - exfalso. apply Hx. rewrite <- Hf. apply list_elem_of_fmap. exists a. auto.
  - apply IH; assumption.
Qed.

(** X16. The node that [make_node] returns does not depend on the order in
    which the keyword attributes are passed: two orderings of the same
    keywords, whose names are distinct, give the same node or the same
    failure. *)
Theorem make_node_keyword_order (op_type : string) (inputs outputs : list string)
    (name doc_string domain : option string) (kwargs kwargs' : list (string * pyval)) :
  NoDup (map fst kwargs) -> kwargs ≡ₚ kwargs' ->
  make_node op_type inputs outputs name doc_string domain kwargs
  = make_node op_type inputs outputs name doc_string domain kwargs'.
Proof.
  intros Hnd Hperm. unfold make_node. rewrite !sorted_items_sorted_by.
  rewrite (sorted_by_perm_eq fst kwargs kwargs'); [reflexivity| |exact Hperm].
  intros a b Ha Hb. apply (NoDup_map_inj_on fst kwargs); assumption.
Qed.

(** X17. The attributes of a node built by [make_node] are named after the
    keywords and come in increasing order of their names, whatever the order
    of the keywords. *)
Theorem make_node_attributes_sorted (op_type : string) (inputs outputs : list string)
    (name doc_string domain : option string) (kwargs : list (string * pyval))
    (node : NodeProto) :
  make_node op_type inputs outputs name doc_string domain kwargs = Ok node ->
  map attr_name (node_attribute node) = sorted (map fst kwargs)
  /\ StronglySorted text_le (map attr_name (node_attribute node))
  /\ map attr_name (node_attribute node) ≡ₚ map fst kwargs.
Proof.
  unfold make_node. intros Hnode.
  apply bind_Ok_inv in Hnode as (attrs & Hattrs & Hnode). injection Hnode as <-.
  cbn [node_attribute].
  assert (Hnames : map attr_name attrs = sorted (map fst kwargs)).
  { rewrite <- map_sorted_by, <- sorted_items_sorted_by.
    apply mapM_Forall2 in Hattrs.
    induction Hattrs as [|item attr items attrs' Hitem _ IH]; [reflexivity|].
    cbn [map]. rewrite IH.
    destruct (make_attribute_is_record _ _ _ _ Hitem) as [v ->].
    destruct v; reflexivity. }
  rewrite Hnames. split; [reflexivity|]. split.
  - rewrite sorted_sorted_by. apply (sorted_by_sorted (fun x : string => x)).
  - rewrite sorted_sorted_by. apply sorted_by_perm.
Qed.

Lemma mapM_fails {A B} (f : A -> result B) (l : list A) :
  (exists x, x ∈ l /\ exists e, f x = Raise e) -> exists e, mapM f l = Raise e.
Proof.
  induction l as [|x l IH]; intros (z & Hz & e & Hfz); [inversion Hz|].
  cbn [mapM]. destruct (f x) as [y|e'] eqn:Hx; cbn [bind]; [|eauto].
  apply elem_of_cons in Hz as [->|Hz]; [congruence|].
  destruct IH as [e' He']; [eauto|]. rewrite He'. eauto.
Qed.

(** X18. [make_node] fails exactly when [make_attribute] fails on one of the
    keyword values; the other arguments are never the cause of a failure. *)
Theorem make_node_fails_iff (op_type : string) (inputs outputs : list string)
    (name doc_string domain : option string) (kwargs : list (string * pyval)) :
  (exists e, make_node op_type inputs outputs name doc_string domain kwargs = Raise e)
  <-> (exists item, item ∈ kwargs
                    /\ exists e, make_attribute (fst item) (snd item) None = Raise e).
Proof.
  unfold make_node. rewrite sorted_items_sorted_by. split.
  - intros [e He].
    destruct (mapM (fun item => make_attribute (fst item) (snd item) None)
                (sorted_by fst kwargs)) as [attrs|e'] eqn:Hm; [discriminate|].
    apply mapM_Raise_inv in Hm as (item & Hitem & Hfail).
    exists item. split; [rewrite <- (sorted_by_perm fst kwargs); exact Hitem | eauto].
  - intros (item & Hitem & Hfail).
    destruct (mapM_fails (fun item => make_attribute (fst item) (snd item) None)
                (sorted_by fst kwargs)) as [e He].
    + exists item. split; [rewrite (sorted_by_perm fst kwargs); exact Hitem | exact Hfail].
    + rewrite He. eauto.
Qed.

Lemma concat_snd_perm (l l' : list (string * list GraphProto)) :
  l ≡ₚ l' -> concat (map snd l) ≡ₚ concat (map snd l').
Proof.
  intros Hperm. induction Hperm as [|x l l' Hperm IH|x y l|l l' l'' H1 IH1 H2 IH2];
    cbn [map concat].
  - reflexivity.
  - rewrite IH. reflexivity.
  - rewrite !app_assoc. rewrite (Permutation_app_comm (snd y) (snd x)). reflexivity.
  - etransitivity; eassumption.
Qed.

Lemma nonempty_perm {A} (l l' : list A) : l ≡ₚ l' -> nonempty l = nonempty l'.
Proof.
  intros Hperm. destruct l, l'; try reflexivity.
  - apply Permutation_nil_l in Hperm. discriminate.
  - symmetry in Hperm. apply Permutation_nil_l in Hperm. discriminate.
Qed.

(** X19. The line that [printable_node] prints does not depend on the order
    of the attributes of the node: they are sorted by their printed text.  Two
    nodes that differ only in the order of their attributes have the same
    line, and hand up the same graphs, in another order. *)
Theorem printable_node_attribute_order (node node' : NodeProto) (prefix line : string)
    (gs : list GraphProto) :
  node_op_type node' = node_op_type node ->
  node_input node' = node_input node ->
  node_output node' = node_output node ->
  node_attribute node ≡ₚ node_attribute node' ->
  printable_node node prefix = Ok (line, gs) ->
  exists gs', printable_node node' prefix = Ok (line, gs') /\ gs ≡ₚ gs'.
Proof.
  intros Hop Hin Hout Hperm. unfold printable_node. intros Hp.
  apply bind_Ok_inv in Hp as (printed & Hm & Hp). injection Hp as <- <-.
  destruct (mapM_perm_Ok _ _ _ _ Hperm Hm) as (printed' & -> & Hprinted).
  cbn [bind]. rewrite Hop, Hin, Hout.
  rewrite <- (nonempty_perm _ _ Hperm).
  rewrite <- (sorted_perm_eq (map fst printed) (map fst printed'))
    by (apply Permutation_map; exact Hprinted).
  eexists. split; [reflexivity|]. apply concat_snd_perm; exact Hprinted.
Qed.

(** X20. A graph built by [make_graph] with no declared input is printed with
    the one-line header [graph NAME {], then one line per node in the order of
    the nodes, the [return] line and the closing bracket, then the nested
    graphs: the header has no parenthesised section and no initializer is
    listed, whatever initializers the graph has. *)
Theorem printable_graph_without_inputs (nodes : list NodeProto) (name : string)
    (outputs : list ValueInfoProto) (initializer : option (list TensorProto))
    (doc_string : option string) (value_info : option (list ValueInfoProto))
    (sparse_initializer : option (list SparseTensorProto)) (prefix : string)
    (printed : list (string * list GraphProto)) :
  let graph :=
    make_graph nodes name [] outputs initializer doc_string value_info sparse_initializer in
  mapM (fun node => printable_node node (prefix +:+ "  ")) nodes = Ok printed ->
  printable_graph graph prefix
  = let* nested :=
      mapM (fun g => printable_graph g EmptyString) (concat (map snd printed)) in
    Ok (join newline
          ([prefix +:+ join " " ["graph"; name; "{"]]
           ++ map fst printed
           ++ [last_line prefix graph; prefix +:+ "}"]
           ++ map (fun s => newline +:+ s) nested)).
Proof.
  intros graph Hprinted. rewrite printable_graph_eq.
  unfold graph_block, graph_header. subst graph.
  cbn [make_graph graph_input graph_node graph_name graph_output nonempty bind].
  rewrite Hprinted. cbn [bind].
  destruct (mapM (fun g => printable_graph g EmptyString) (concat (map snd printed)))
    as [nested|e]; [|reflexivity].
  cbn [bind]. unfold last_line. cbn [graph_output]. rewrite <- !app_assoc.
  destruct outputs; reflexivity.
Qed.

Lemma substring_all (s : string) : String.substring 0 (String.length s) s = s.
Proof. induction s as [|c s IH]; [reflexivity|]. cbn. rewrite IH. reflexivity. Qed.

Lemma substring_length (n : nat) (s : string) :
  (n <= String.length s)%nat -> String.length (String.substring 0 n s) = n.
Proof.
  revert n; induction s as [|c s IH]; intros n Hn.
  - cbn in Hn. destruct n; [reflexivity | lia].
  - destruct n as [|n]; [reflexivity|]. cbn in *. rewrite IH by lia. reflexivity.
Qed.

(** X21. [_sanitize_str] leaves a text of fewer than 64 characters as it is.
    A longer one is cut to its first 64 characters, followed by the number of
    characters left out.  A text of exactly 64 characters is not cut and still
    gets the suffix, with the count 0. *)
Theorem sanitize_str_cut (s : bytes) :
  let text := decode_utf8_ignore s in
  ((String.length text < 64)%nat -> _sanitize_str s = text)
  /\ ((64 <= String.length text)%nat ->
      _sanitize_str s
      = String.substring 0 64 text
        +:+ "...<+len=" +:+ pretty (Z.of_nat (String.length text - 64)) +:+ ">"
      /\ String.length (String.substring 0 64 text) = 64%nat)
  /\ (String.length text = 64%nat -> _sanitize_str s = text +:+ "...<+len=0>").
Proof.
  intros text. unfold _sanitize_str. fold text. split; [|split].
  - intros Hlt. apply Nat.ltb_lt in Hlt. rewrite Hlt. reflexivity.
  - intros Hge. apply Nat.ltb_ge in Hge. rewrite Hge.
    split; [reflexivity|]. apply substring_length. apply Nat.ltb_ge; exact Hge.
  - intros Heq. rewrite Heq. cbn [Nat.ltb Nat.leb Nat.sub].
    rewrite <- Heq at 1. rewrite substring_all. reflexivity.
Qed.

End FurtherNodeProperties.

(** ** Stripping doc strings *)

Section StripProperties.
Context `{Collaborators}.

Lemma strip_doc_string_eq (g : GraphProto) :
  strip_doc_string g =
  mkGraphProto (graph_name g)
    (map strip_doc_string_node (graph_node g))
    (map strip_doc_string_value_info (graph_input g))
    (map strip_doc_string_value_info (graph_output g))
    (graph_initializer g)
    (graph_sparse_initializer g)
    (map strip_doc_string_value_info (graph_value_info g))
    None.
Proof. destruct g; reflexivity. Qed.

Lemma strip_doc_string_node_eq (n : NodeProto) :
  strip_doc_string_node n =
  mkNodeProto (node_op_type n) (node_input n) (node_output n) (node_name n) None
    (node_domain n) (map strip_doc_string_attribute (node_attribute n)).
Proof. destruct n; reflexivity. Qed.

Lemma strip_doc_string_attribute_eq (a : AttributeProto) :
  strip_doc_string_attribute a =
  mkAttributeProto (attr_name a) None (attr_type a) (attr_f a) (attr_i a) (attr_s a)
    (attr_t a)
    (match attr_g a with Some g => Some (strip_doc_string g) | None => None end)
    (attr_sparse_tensor a) (attr_floats a) (attr_ints a) (attr_strings a) (attr_tensors a)
    (map strip_doc_string (attr_graphs a))
    (attr_sparse_tensors a).
Proof. destruct a; reflexivity. Qed.

Lemma doc_free_eq (g : GraphProto) :
  doc_free g <->
  graph_doc_string g = None
  /\ (forall n, n ∈ graph_node g -> doc_free_node n)
  /\ Forall (fun v => vi_doc_string v = None)
       (graph_input g ++ graph_output g ++ graph_value_info g).
Proof.
  destruct g as [name nodes inputs outputs init sinit vinfo doc]. cbn.
  assert (Hfold : foldr (fun n rest => doc_free_node n /\ rest) True nodes
                  <-> forall n, n ∈ nodes -> doc_free_node n).
  { induction nodes as [|n nodes IH]; cbn.
    - split; [intros _ n Hn; inversion Hn | auto].
    - rewrite IH. split.
      + intros [Hn Hall] n' Hn'. apply elem_of_cons in Hn' as [->|Hn']; auto.
      + intros Hall. split; [apply Hall; left | intros n' Hn'; apply Hall; right; exact Hn']. }
  rewrite Hfold. reflexivity.
Qed.

Lemma doc_free_node_eq (n : NodeProto) :
  doc_free_node n <->
  node_doc_string n = None /\ (forall a, a ∈ node_attribute n -> doc_free_attribute a).
Proof.
  destruct n as [op inp out name doc dom attrs]. cbn.
  assert (Hfold : foldr (fun a rest => doc_free_attribute a /\ rest) True attrs
                  <-> forall a, a ∈ attrs -> doc_free_attribute a).
  { induction attrs as [|a attrs IH]; cbn.
    - split; [intros _ a Ha; inversion Ha | auto].
    - rewrite IH. split.
      + intros [Ha Hall] a' Ha'. apply elem_of_cons in Ha' as [->|Ha']; auto.
      + intros Hall. split; [apply Hall; left | intros a' Ha'; apply Hall; right; exact Ha']. }
  rewrite Hfold. reflexivity.
Qed.

Lemma doc_free_attribute_eq (a : AttributeProto) :
  doc_free_attribute a <->
  attr_doc_string a = None
  /\ (forall g, attr_g a = Some g -> doc_free g)
  /\ (forall g, g ∈ attr_graphs a -> doc_free g).
Proof.
  destruct a as [n d ty f i s t g sp fl il sl tl gl spl]. cbn.
  assert (Hfold : foldr (fun g rest => doc_free g /\ rest) True gl
                  <-> forall g, g ∈ gl -> doc_free g).
  { induction gl as [|g0 gl IH]; cbn.
    - split; [intros _ g' Hg; inversion Hg | auto].
    - rewrite IH. split.
      + intros [Hg Hall] g' Hg'. apply elem_of_cons in Hg' as [->|Hg']; auto.
      + intros Hall. split; [apply Hall; left | intros g' Hg'; apply Hall; right; exact Hg']. }
  rewrite Hfold. split.
  - intros (Hd & Hg & Hgl). split; [exact Hd|]. split; [|exact Hgl].
    intros g' [= ->]. exact Hg.
  - intros (Hd & Hg & Hgl). split; [exact Hd|]. split; [|exact Hgl].
    destruct g; [apply Hg; reflexivity | exact I].
Qed.

(** A graph nested in another one is less deeply nested itself. *)
Lemma nested_in_depth (g' g : GraphProto) :
  nested_in g' g -> (graph_depth g' < graph_depth g)%nat.
Proof.
  intros (n & a & Hn & Ha & Hg). rewrite (graph_depth_eq g).
  assert (Hnode : (node_depth n <= list_max (map node_depth (graph_node g)))%nat).
  { apply le_list_max, list_elem_of_fmap. exists n; auto. }
  assert (Hattr : (attr_depth a <= node_depth n)%nat).
  { rewrite node_depth_eq. apply le_list_max, list_elem_of_fmap. exists a; auto. }
  assert (Hgraph : (graph_depth g' <= attr_depth a)%nat).
  { rewrite attr_depth_eq. destruct Hg as [Hg|Hg].
    - rewrite Hg. lia.
    - assert (graph_depth g' <= list_max (map graph_depth (attr_graphs a)))%nat; [|lia].
      apply le_list_max, list_elem_of_fmap. exists g'; auto. }
  lia.
Qed.

(** Induction over the nesting of graphs. *)
Lemma graph_nested_ind (P : GraphProto -> Prop) :
  (forall g, (forall g', nested_in g' g -> P g') -> P g) -> forall g, P g.
Proof.
  intros Hstep.
  assert (Hall : forall n g, (graph_depth g < n)%nat -> P g).
  { induction n as [|n IH]; intros g Hg; [lia|].
    apply Hstep. intros g' Hnested. apply IH.
    pose proof (nested_in_depth g' g Hnested). lia. }
  intros g. apply (Hall (S (graph_depth g))). lia.
Qed.

Lemma map_ext_elem_of {A B} (f g : A -> B) (l : list A) :
  (forall x, x ∈ l -> f x = g x) -> map f l = map g l.
Proof.
  induction l as [|x l IH]; intros Hfg; [reflexivity|].
  cbn [map]. rewrite Hfg by left. rewrite IH; [reflexivity|].
  intros y Hy; apply Hfg; right; exact Hy.
Qed.

(** X22. After [strip_doc_string] no doc string is left in the graph, in its
    inputs, outputs and value infos, in its nodes, in their attributes and in
    the graphs nested in them, at any depth; and stripping a second time
    changes nothing. *)
Theorem strip_doc_string_clears_all (g : GraphProto) :
  doc_free (strip_doc_string g)
  /\ strip_doc_string (strip_doc_string g) = strip_doc_string g.
Proof.
  induction g as [g IH] using graph_nested_ind. split.
  - rewrite strip_doc_string_eq. apply doc_free_eq.
    cbn [graph_doc_string graph_node graph_input graph_output graph_value_info].
    split; [reflexivity|]. split.
    + intros n' Hn'. apply list_elem_of_fmap in Hn' as (n & -> & Hn).
      rewrite strip_doc_string_node_eq. apply doc_free_node_eq.
      cbn [node_doc_string node_attribute]. split; [reflexivity|].
      intros a' Ha'. apply list_elem_of_fmap in Ha' as (a & -> & Ha).
      rewrite strip_doc_string_attribute_eq. apply doc_free_attribute_eq.
      cbn [attr_doc_string attr_g attr_graphs]. split; [reflexivity|]. split.
      * intros g' Hg'. destruct (attr_g a) as [g0|] eqn:Hg0; [|discriminate].
        injection Hg' as <-. apply IH. exists n, a. auto.
      * intros g' Hg'. apply list_elem_of_fmap in Hg' as (g0 & -> & Hg0).
        apply IH. exists n, a. auto.
    + rewrite <- !map_app. apply Forall_forall. intros v' Hv'.
      apply list_elem_of_fmap in Hv' as (v & -> & _). reflexivity.
  - rewrite (strip_doc_string_eq (strip_doc_string g)), (strip_doc_string_eq g).
    cbn [graph_name graph_node graph_input graph_output graph_initializer
         graph_sparse_initializer graph_value_info].
    rewrite !map_map. f_equal.
    apply map_ext_elem_of. intros n Hn.
    rewrite (strip_doc_string_node_eq (strip_doc_string_node n)),
      (strip_doc_string_node_eq n).
    cbn [node_op_type node_input node_output node_name node_domain node_attribute].
    rewrite map_map. f_equal.
    apply map_ext_elem_of. intros a Ha.
    rewrite (strip_doc_string_attribute_eq (strip_doc_string_attribute a)),
      (strip_doc_string_attribute_eq a).
    cbn [attr_name attr_type attr_f attr_i attr_s attr_t attr_g attr_sparse_tensor
         attr_floats attr_ints attr_strings attr_tensors attr_graphs attr_sparse_tensors].
    rewrite map_map. f_equal.
    + destruct (attr_g a) as [g0|] eqn:Hg0; [|reflexivity].
      f_equal. apply IH. exists n, a. auto.
    + apply map_ext_elem_of. intros g0 Hg0. apply IH. exists n, a. auto.
Qed.

Lemma strip_doc_string_name (g : GraphProto) :
  graph_name (strip_doc_string g) = graph_name g.
Proof. destruct g; reflexivity. Qed.

Lemma imap_map_names {B} (h : GraphProto -> GraphProto) (f : nat -> GraphProto -> B)
    (l : list GraphProto) :
  (forall i g, f i (h g) = f i g) -> imap f (map h l) = imap f l.
Proof.
  revert f; induction l as [|g l IH]; intros f Hf; simpl; [reflexivity|].
  rewrite Hf. f_equal. apply IH. intros i g'. apply Hf.
Qed.

(** The text of an attribute whose graphs are replaced by graphs of the same
    names, everything else but the doc string being kept. *)
Lemma printable_attribute_strip (a : AttributeProto) :
  printable_attribute (strip_doc_string_attribute a)
  = let* p := printable_attribute a in Ok (fst p, map strip_doc_string (snd p)).
Proof.
  rewrite strip_doc_string_attribute_eq. unfold printable_attribute.
  cbn [attr_name attr_f attr_i attr_s attr_t attr_g attr_floats attr_ints attr_strings
       attr_tensors attr_graphs].
  destruct (attr_f a); [reflexivity|]. destruct (attr_i a); [reflexivity|].
  destruct (attr_s a); [reflexivity|].
  destruct (attr_t a) as [t|].
  { destruct (0 <? length (tensor_dims t))%nat; [reflexivity|].
    destruct (lookup_table STORAGE_TENSOR_TYPE_TO_FIELD (tensor_data_type t)); reflexivity. }
  destruct (attr_g a) as [g|].
  { cbn [bind fst snd map]. rewrite strip_doc_string_name. reflexivity. }
  destruct (nonempty (attr_floats a)); [reflexivity|].
  destruct (nonempty (attr_ints a)); [reflexivity|].
  destruct (nonempty (attr_strings a)); [reflexivity|].
  destruct (nonempty (attr_tensors a)); [reflexivity|].
  rewrite nonempty_map, length_map.
  destruct (nonempty (attr_graphs a)); [|reflexivity].
  rewrite imap_map_names; [reflexivity|].
  intros i g. rewrite strip_doc_string_name. reflexivity.
Qed.

Lemma concat_strip_graphs (printed : list (string * list GraphProto)) :
  map fst (map (fun p => (fst p, map strip_doc_string (snd p))) printed) = map fst printed
  /\ concat (map snd (map (fun p => (fst p, map strip_doc_string (snd p))) printed))
     = map strip_doc_string (concat (map snd printed)).
Proof.
  induction printed as [|[s gs] printed [IH1 IH2]]; [split; reflexivity|].
  cbn [map fst snd concat]. rewrite IH1, IH2, map_app. split; reflexivity.
Qed.

Lemma printable_node_strip (node : NodeProto) (prefix : string) :
  printable_node (strip_doc_string_node node) prefix
  = let* p := printable_node node prefix in Ok (fst p, map strip_doc_string (snd p)).
Proof.
  rewrite strip_doc_string_node_eq. unfold printable_node.
  cbn [node_output node_attribute node_input node_op_type].
  rewrite mapM_map.
  rewrite (mapM_ext _ (fun a => let* p := printable_attribute a in
                                Ok (fst p, map strip_doc_string (snd p))))
    by (intros a _; apply printable_attribute_strip).
  rewrite (mapM_bind_Ok printable_attribute
             (fun p => (fst p, map strip_doc_string (snd p)))).
  destruct (mapM printable_attribute (node_attribute node)) as [printed|e]; [|reflexivity].
  cbn [bind]. destruct (concat_strip_graphs printed) as [-> ->].
  rewrite nonempty_map. reflexivity.
Qed.

Lemma graph_header_strip (graph : GraphProto) (prefix : string) :
  graph_header (strip_doc_string graph) prefix = graph_header graph prefix.
Proof.
  rewrite strip_doc_string_eq. unfold graph_header.
  cbn [graph_name graph_input graph_initializer].
  rewrite nonempty_map, mapM_map.
  rewrite (map_map strip_doc_string_value_info vi_name). reflexivity.
Qed.

(** The own block of a graph does not show its doc strings. *)
Lemma graph_block_strip (graph : GraphProto) (prefix : string) :
  graph_block (strip_doc_string graph) prefix
  = let* p := graph_block graph prefix in Ok (fst p, map strip_doc_string (snd p)).
Proof.
  assert (Hnodes : graph_node (strip_doc_string graph)
                   = map strip_doc_string_node (graph_node graph))
    by (destruct graph; reflexivity).
  assert (Houtputs : graph_output (strip_doc_string graph)
                     = map strip_doc_string_value_info (graph_output graph))
    by (destruct graph; reflexivity).
  unfold graph_block. rewrite graph_header_strip, Hnodes, Houtputs.
  destruct (graph_header graph prefix) as [[content header]|e]; [|reflexivity].
  cbn [bind]. rewrite mapM_map.
  rewrite (mapM_ext _ (fun node => let* p := printable_node node (prefix +:+ "  ") in
                                   Ok (fst p, map strip_doc_string (snd p))))
    by (intros node _; apply printable_node_strip).
  rewrite (mapM_bind_Ok (fun node => printable_node node (prefix +:+ "  "))
             (fun p => (fst p, map strip_doc_string (snd p)))).
  destruct (mapM _ (graph_node graph)) as [printed|e]; [|reflexivity].
  cbn [bind fst snd]. destruct (concat_strip_graphs printed) as [-> ->].
  rewrite nonempty_map, map_map. reflexivity.
Qed.

(** X23. Doc strings are never printed: [printable_graph] gives the same text
    for a graph and for the graph that [strip_doc_string] makes of it, and
    fails on the one when it fails on the other. *)
Theorem printable_graph_ignores_doc_strings (graph : GraphProto) (prefix : string) :
  printable_graph (strip_doc_string graph) prefix = printable_graph graph prefix.
Proof.
  revert prefix.
  assert (Hall : forall n g, (graph_depth g < n)%nat ->
                 forall prefix, printable_graph (strip_doc_string g) prefix
                                = printable_graph g prefix).
  { induction n as [|n IH]; intros g Hg prefix; [lia|].
    rewrite (printable_graph_eq (strip_doc_string g)), (printable_graph_eq g).
    rewrite graph_block_strip.
    destruct (graph_block g prefix) as [[content graphs]|e] eqn:Hb; [|reflexivity].
    cbn [bind fst snd]. rewrite mapM_map.
    rewrite (mapM_ext _ (fun g' => printable_graph g' EmptyString)); [reflexivity|].
    intros g' Hg'. apply IH.
    pose proof (graph_block_depth _ _ _ _ Hb g' Hg'). lia. }
  intros prefix. apply (Hall (S (graph_depth graph))). lia.
Qed.

End StripProperties.

(** * The properties on concrete inputs *)

(** The float nearest to one tenth comes back as the single-precision value
    nearest to it, which is another float, and the integer 2^63 is refused:
    for neither of them does decoding give the original back. *)
Lemma attribute_round_trip_counterexample :
  (exists attr,
     make_attribute "k" (host_value (AFloat tenth)) None = Ok attr
     /\ get_attribute_value attr = Ok (PyFloat (float32 tenth)))
  /\ float32 tenth <> tenth
  /\ ~ (exists attr,
          make_attribute "k" (host_value (AFloat tenth)) None = Ok attr
          /\ get_attribute_value attr = Ok (host_value (AFloat tenth)))
  /\ make_attribute "k" (host_value (AInt 9223372036854775808)) None
     = Raise ValueOutOfRange
  /\ ~ (exists attr,
          make_attribute "k" (host_value (AInt 9223372036854775808)) None = Ok attr
          /\ get_attribute_value attr = Ok (host_value (AInt 9223372036854775808))).
Proof.
  split; [eexists; split; reflexivity|].
  split; [discriminate|].
  split.
  - intros (attr & Hmake & Hget).
    assert (Hattr : make_attribute "k" (host_value (AFloat tenth)) None
                    = Ok (attribute_record "k" None (AFloat (float32 tenth))))
      by reflexivity.
    rewrite Hattr in Hmake. injection Hmake as <-. discriminate Hget.
  - split; [reflexivity|].
    intros (attr & Hmake & _). discriminate Hmake.
Defined.

(** The float 1 and the integers of a short list come back as they are; one
    tenth comes back rounded; 2^63 is refused. *)
Lemma attribute_round_trip_witness :
  (fits_fields (AFloats [one; two])
   /\ exists attr,
        make_attribute "k" (host_value (AFloats [one; two])) None = Ok attr
        /\ get_attribute_value attr = Ok (host_value (AFloats [one; two])))
  /\ (fits_fields (AInt 9223372036854775807)
      /\ exists attr,
           make_attribute "k" (host_value (AInt 9223372036854775807)) None = Ok attr
           /\ get_attribute_value attr = Ok (host_value (AInt 9223372036854775807)))
  /\ (~ fits_int64 9223372036854775808
      /\ make_attribute "k" (PyInt 9223372036854775808) None = Raise ValueOutOfRange)
  /\ (Exists (fun i => ~ fits_int64 i) [1; -9223372036854775809]
      /\ make_attribute "k" (PyList (map PyInt [1; -9223372036854775809])) None
         = Raise ValueOutOfRange)
  /\ (exists attr,
        make_attribute "k" (PyList (map PyFloat [tenth])) None = Ok attr
        /\ get_attribute_value attr = Ok (PyList (map PyFloat (map float32 [tenth]))))
  /\ (single_precision (float_of_int 1) /\ single_precision two
      /\ exists attr,
           make_attribute "k" (PyList [PyInt 1; PyFloat two]) None = Ok attr
           /\ get_attribute_value attr = Ok (PyList [PyFloat (float_of_int 1); PyFloat two])).
Proof.
  destruct (@attribute_round_trip binary64 "k" None)
    as (Hfits & _ & Hfloats & Hint & Hints & _ & Hmixed & _).
  assert (Hone : single_precision one) by reflexivity.
  assert (Htwo : single_precision two) by reflexivity.
  assert (Hpair : fits_fields (AFloats [one; two])) by (repeat constructor).
  assert (Hmax : fits_fields (AInt 9223372036854775807)) by (split; discriminate).
  assert (Hbig : ~ fits_int64 9223372036854775808) by (intros [_ Hhi]; apply Hhi; reflexivity).
  assert (Hsmall : Exists (fun i => ~ fits_int64 i) [1; -9223372036854775809]).
  { right; left. intros [Hlo _]. apply Hlo; reflexivity. }
  split; [split; [exact Hpair | exact (Hfits _ Hpair)]|].
  split; [split; [exact Hmax | exact (Hfits _ Hmax)]|].
  split; [split; [exact Hbig | exact (Hint _ Hbig)]|].
  split; [split; [exact Hsmall | exact (Hints _ Hsmall)]|].
  split; [exact (Hfloats [tenth])|].
  split; [exact Hone|]. split; [exact Htwo|]. exact (Hmixed two Hone Htwo).
Defined.

(** The pair [("ai.onnx.ml", 1)] is first introduced by row 1.0. *)
Lemma version_map_first_write_wins_witness :
  first_row_introducing ("ai.onnx.ml", 1) VERSION_TABLE = Some ("1.0", 3, [1; 1])
  /\ OP_SET_ID_VERSION_MAP !! ("ai.onnx.ml", 1) = Some 3
  /\ find_min_ir_version_for [mkOperatorSetIdProto "ai.onnx.ml" 1] = Ok 3.
Proof.
  split; [vm_compute; reflexivity|].
  destruct (version_map_first_write_wins VERSION_TABLE "ai.onnx.ml" 1 ("1.0", 3, [1; 1]))
    as (_ & Hfirst & _).
  apply Hfirst. vm_compute; reflexivity.
Defined.

(** Two known opset ids give the larger IR version; an unknown one fails. *)
Lemma find_min_ir_version_for_spec_witness :
  (exists m, find_min_ir_version_for
               [mkOperatorSetIdProto EmptyString 9; mkOperatorSetIdProto "ai.onnx.ml" 2] = Ok m
             /\ m ∈ [4; 6] /\ Forall (fun ir => ir <= m) [4; 6])
  /\ find_min_ir_version_for
       [mkOperatorSetIdProto EmptyString 9; mkOperatorSetIdProto "ai.onnx" 15]
     = Raise UnsupportedOpset.
Proof.
  split.
  - destruct (find_min_ir_version_for_spec
                [mkOperatorSetIdProto EmptyString 9; mkOperatorSetIdProto "ai.onnx.ml" 2])
      as (_ & Hlist).
    destruct (Hlist ltac:(discriminate)) as (_ & Hmax).
    apply Hmax. repeat constructor.
  - destruct (find_min_ir_version_for_spec
                [mkOperatorSetIdProto EmptyString 9; mkOperatorSetIdProto "ai.onnx" 15])
      as (_ & Hlist).
    destruct (Hlist ltac:(discriminate)) as (Hmissing & _).
    apply Hmissing. exists (mkOperatorSetIdProto "ai.onnx" 15).
    split; [right; left | vm_compute; reflexivity].
Defined.






Lemma empty_shape_is_not_absent_shape_witness :
  truthy_list (None : option (list string)) = false
  /\ exists v_empty v_absent,
       make_tensor_value_info "x" DataType.FLOAT (Some []) EmptyString None = Ok v_empty
       /\ make_tensor_value_info "x" DataType.FLOAT None EmptyString None = Ok v_absent
       /\ printable_value_info v_empty = Ok "%x[FLOAT, scalar]"
       /\ printable_value_info v_absent = Ok "%x[FLOAT]"
       /\ v_empty <> v_absent.
Proof.
  split; [reflexivity|].
  destruct (empty_shape_is_not_absent_shape "x" DataType.FLOAT EmptyString None eq_refl)
    as (v_empty & v_absent & Hempty & Habsent & _ & _ & _ & _ & Hne & _).
  exists v_empty, v_absent.
  split; [exact Hempty|]. split; [exact Habsent|].
  injection Hempty as <-. injection Habsent as <-.
  split; [reflexivity|]. split; [reflexivity | exact Hne].
Defined.



(** The printed form of [G]: its block, then the block of [A], then the block
    of [B], a blank line before each nested block.  The node of [G] hands up
    the graph of its attribute [then] and prints it as [<graph A>]. *)
Lemma printable_graph_hoists_nested_graphs_witness :
  well_formed_nodes graph_G /\ well_formed_nodes graph_A /\ well_formed_nodes graph_B
  /\ nested_graphs graph_G = [graph_A]
  /\ nested_graphs graph_A = [graph_B]
  /\ nested_graphs graph_B = []
  /\ graph_block graph_G EmptyString = Ok (block_G, [graph_A])
  /\ graph_block graph_A EmptyString = Ok (block_A, [graph_B])
  /\ graph_block graph_B EmptyString = Ok (block_B, [])
  /\ printable_graph graph_G EmptyString
     = Ok (join newline
             (block_G ++ [newline +:+ join newline
                                        (block_A ++ [newline +:+ join newline block_B])]))
  /\ last block_G = Some "}"
  /\ (exists texts,
        texts = ["then = <graph A>"; "axis = 3"]
        /\ Forall2 (fun a text => printable_attribute a = Ok (text, attribute_graphs a))
             [attribute_record "then" None (AGraph graph_A);
              attribute_record "axis" None (AInt 3)] texts).
Proof.
  assert (Hrecord : forall key doc v, well_formed_attribute (attribute_record key doc v))
    by (intros key doc v; exists key, doc, v; reflexivity).
  assert (HwG : well_formed_nodes graph_G) by (repeat constructor; apply Hrecord).
  assert (HwA : well_formed_nodes graph_A) by (repeat constructor; apply Hrecord).
  assert (HwB : well_formed_nodes graph_B) by constructor.
  assert (HG : graph_block graph_G EmptyString = Ok (block_G, [graph_A])) by reflexivity.
  assert (HA : graph_block graph_A EmptyString = Ok (block_A, [graph_B])) by reflexivity.
  assert (HB : graph_block graph_B EmptyString = Ok (block_B, [])) by reflexivity.
  destruct (printable_graph_hoists_nested_graphs graph_G graph_A graph_B EmptyString
              block_G block_A block_B) as (_ & _ & Hnode & _ & Hblock & Hnested).
  destruct (Hblock block_G [graph_A] HwG HG) as [HnG Hlast].
  split; [exact HwG|]. split; [exact HwA|]. split; [exact HwB|].
  split; [reflexivity|]. split; [reflexivity|]. split; [reflexivity|].
  split; [exact HG|]. split; [exact HA|]. split; [exact HB|].
  split; [exact (Hnested _ _ _ HwG HwA HwB eq_refl eq_refl eq_refl HG HA HB)|].
  split; [exact Hlast|].
  destruct (Hnode (mkNodeProto "Loop" ["x"] ["y"] None None None
                     [attribute_record "then" None (AGraph graph_A);
                      attribute_record "axis" None (AInt 3)])
                  "  " "  %y = Loop[axis = 3, then = <graph A>](%x)" [graph_A])
    as (texts & Htexts & _ & _).
  - repeat constructor; apply Hrecord.
  - reflexivity.
  - exists texts. split; [|exact Htexts].
    inversion Htexts as [|a1 t1 l1 r1 H1 Hrest]; subst.
    inversion Hrest as [|a2 t2 l2 r2 H2 Hnil]; subst.
    inversion Hnil; subst.
    injection H1 as <-. injection H2 as <-. reflexivity.
Defined.

(** * The further properties on concrete inputs *)

Lemma find_min_ir_version_for_order_witness :
  map opset_key [mkOperatorSetIdProto EmptyString 9; mkOperatorSetIdProto "ai.onnx.ml" 2]
    ≡ₚ map opset_key [make_operatorsetid "ai.onnx.ml" 2; make_opsetid "ai.onnx" 9]
  /\ find_min_ir_version_for
       [mkOperatorSetIdProto EmptyString 9; mkOperatorSetIdProto "ai.onnx.ml" 2]
     = find_min_ir_version_for [make_operatorsetid "ai.onnx.ml" 2; make_opsetid "ai.onnx" 9].
Proof.
  assert (Hperm : map opset_key
                    [mkOperatorSetIdProto EmptyString 9; mkOperatorSetIdProto "ai.onnx.ml" 2]
                  ≡ₚ map opset_key
                       [make_operatorsetid "ai.onnx.ml" 2; make_opsetid "ai.onnx" 9])
    by apply perm_swap.
  split; [exact Hperm|]. exact (find_min_ir_version_for_order _ _ Hperm).
Defined.

Lemma find_min_ir_version_for_bounds_witness :
  find_min_ir_version_for [mkOperatorSetIdProto EmptyString 9] = Ok 4 /\ 3 <= 4 <= 7.
Proof.
  assert (Hv : find_min_ir_version_for [mkOperatorSetIdProto EmptyString 9] = Ok 4)
    by (vm_compute; reflexivity).
  split; [exact Hv|]. exact (find_min_ir_version_for_bounds _ 4 Hv).
Defined.

Lemma make_attribute_well_formed_witness :
  make_attribute "k" (PyList [PyBool true; PyInt 2]) None
    = Ok (attribute_record "k" None (AInts [1; 2]))
  /\ exists v, attribute_record "k" None (AInts [1; 2]) = attribute_record "k" None v
               /\ attr_name (attribute_record "k" None (AInts [1; 2])) = "k"
               /\ get_attribute_value (attribute_record "k" None (AInts [1; 2]))
                  = Ok (host_value v).
Proof.
  assert (Hmake : make_attribute "k" (PyList [PyBool true; PyInt 2]) None
                  = Ok (attribute_record "k" None (AInts [1; 2]))) by reflexivity.
  split; [exact Hmake|].
  exact (make_attribute_well_formed "k" (PyList [PyBool true; PyInt 2]) None _ Hmake).
Defined.

Lemma printable_attribute_hands_up_graphs_witness :
  printable_attribute (attribute_record "then" None (AGraph graph_A))
    = Ok ("then = <graph A>", [graph_A])
  /\ [graph_A] = variant_graphs (AGraph graph_A).
Proof.
  assert (Hp : printable_attribute (attribute_record "then" None (AGraph graph_A))
               = Ok ("then = <graph A>", [graph_A])) by reflexivity.
  split; [exact Hp|].
  exact (printable_attribute_hands_up_graphs "then" None (AGraph graph_A) _ _ Hp).
Defined.

(** A scalar tensor attribute of type [UINT8] cannot be printed. *)
Lemma printable_attribute_fails_on_scalar_tensor_witness :
  tensor_dims scalar_uint8 = []
  /\ STORAGE_TENSOR_TYPE_TO_FIELD (tensor_data_type scalar_uint8) = None
  /\ printable_attribute (attribute_record "value" None (ATensor scalar_uint8))
     = Raise KeyError.
Proof.
  split; [reflexivity|]. split; [reflexivity|].
  apply (proj2 (printable_attribute_fails_on_scalar_tensor "value" None
                  (ATensor scalar_uint8) KeyError)).
  split; [reflexivity|]. exists scalar_uint8. repeat split.
Defined.

Lemma printable_attribute_unknown_witness :
  unprintable_variant (AInts [])
  /\ make_attribute "pads" (PyList []) None = Ok (attribute_record "pads" None (AInts []))
  /\ printable_attribute (attribute_record "pads" None (AInts []))
     = Ok ("pads = <Unknown>", []).
Proof.
  split; [reflexivity|]. split; [reflexivity|].
  exact (printable_attribute_unknown "pads" None (AInts []) eq_refl).
Defined.

Lemma split_complex_to_pairs_spec_witness :
  (Forall (fun x => ~ is_bytes_elem x) [EComplex one two; EInt 5]
   /\ split_complex_to_pairs [EComplex one two; EInt 5]
      = Ok [EFloat one; EFloat two; EInt 5; EInt 0])
  /\ (Exists is_bytes_elem [EFloat one; EBytes []]
      /\ split_complex_to_pairs [EFloat one; EBytes []] = Raise AttributeError).
Proof.
  split.
  - assert (Hall : Forall (fun x => ~ is_bytes_elem x) [EComplex one two; EInt 5])
      by (repeat constructor; intros Hb; exact Hb).
    split; [exact Hall|].
    destruct (split_complex_to_pairs_spec [EComplex one two; EInt 5]) as (_ & Hok & _).
    exact (proj1 (Hok Hall)).
  - assert (Hex : Exists is_bytes_elem [EFloat one; EBytes []])
      by (right; left; exact I).
    split; [exact Hex|].
    destruct (split_complex_to_pairs_spec [EFloat one; EBytes []]) as (Hraise & _).
    apply Hraise. split; [reflexivity | exact Hex].
Defined.

Lemma make_tensor_one_storage_witness :
  exists t,
    make_tensor "t" DataType.FLOAT [2] (ValList [EFloat one; EFloat two]) false = Ok t
    /\ raw_data t = None
    /\ exists field,
         (forall f, f <> field -> getattr_tensor t f = [])
         /\ length (getattr_tensor t field) = 2%nat.
Proof.
  exists (mkTensorProto "t" DataType.FLOAT [2] [EFloat one; EFloat two] [] [] [] [] [] None).
  assert (Hmake : make_tensor "t" DataType.FLOAT [2] (ValList [EFloat one; EFloat two]) false
                  = Ok (mkTensorProto "t" DataType.FLOAT [2] [EFloat one; EFloat two]
                          [] [] [] [] [] None)) by reflexivity.
  split; [exact Hmake|].
  exact (make_tensor_one_storage _ _ _ _ false _ Hmake).
Defined.

Lemma make_tensor_raw_complex_fails_witness :
  is_complex DataType.COMPLEX64 = true
  /\ exists e,
       make_tensor "t" DataType.COMPLEX64 [1]
         (ValBytes [x00; x00; x80; x3f; x00; x00; x00; x00]%byte) true = Raise e.
Proof.
  split; [reflexivity|].
  exact (make_tensor_raw_complex_fails "t" DataType.COMPLEX64 [1]
           (ValBytes [x00; x00; x80; x3f; x00; x00; x00; x00]%byte) eq_refl).
Defined.


Lemma printable_type_fails_on_sizeless_witness :
  Exists sizeless [mkDimension dim_unset None; mkDimension (dim_value 3) None]
  /\ printable_type (vi_type sizeless_info) = Raise (AssertionError EmptyString).
Proof.
  assert (Hex : Exists sizeless [mkDimension dim_unset None; mkDimension (dim_value 3) None])
    by (left; reflexivity).
  split; [exact Hex|].
  apply (proj2 (printable_type_fails_on_sizeless (vi_type sizeless_info)
                  (AssertionError EmptyString))).
  split; [reflexivity|]. eexists _, _. split; [reflexivity|]. split; [reflexivity | exact Hex].
Defined.


Lemma printable_graph_fails_on_unprintable_input_witness :
  sizeless_info ∈ graph_input graph_sizeless
  /\ printable_value_info sizeless_info = Raise (AssertionError EmptyString)
  /\ printable_graph graph_sizeless EmptyString = Raise (AssertionError EmptyString).
Proof.
  assert (Hin : sizeless_info ∈ graph_input graph_sizeless) by left.
  assert (Hv : printable_value_info sizeless_info = Raise (AssertionError EmptyString))
    by reflexivity.
  split; [exact Hin|]. split; [exact Hv|].
  exact (printable_graph_fails_on_unprintable_input graph_sizeless EmptyString
           sizeless_info Hin Hv).
Defined.

Lemma printable_value_info_unknown_type_witness :
  exists v,
    make_sparse_tensor_value_info "x" DataType.FLOAT (Some [ShapeInt 2]) EmptyString None = Ok v
    /\ printable_value_info v = Ok "%x[Unknown type sparse_tensor_type]".
Proof.
  eexists. split; [reflexivity|].
  exact (proj1 (printable_value_info_unknown_type "x" DataType.FLOAT (Some [ShapeInt 2])
                  EmptyString None _) eq_refl).
Defined.

Lemma make_node_keyword_order_witness :
  NoDup (map fst [("b", PyInt 1); ("a", PyFloat one)])
  /\ [("b", PyInt 1); ("a", PyFloat one)] ≡ₚ [("a", PyFloat one); ("b", PyInt 1)]
  /\ make_node "Op" ["x"] ["y"] None None None [("b", PyInt 1); ("a", PyFloat one)]
     = make_node "Op" ["x"] ["y"] None None None [("a", PyFloat one); ("b", PyInt 1)].
Proof.
  assert (Hnd : NoDup (map fst [("b", PyInt 1); ("a", PyFloat one)])).
  { cbn [map fst]. apply NoDup_cons. split.
    - intros Hin. apply list_elem_of_singleton in Hin. discriminate.
    - apply NoDup_singleton. }
  assert (Hperm : [("b", PyInt 1); ("a", PyFloat one)]
                  ≡ₚ [("a", PyFloat one); ("b", PyInt 1)]) by apply perm_swap.
  split; [exact Hnd|]. split; [exact Hperm|].
  exact (make_node_keyword_order "Op" ["x"] ["y"] None None None _ _ Hnd Hperm).
Defined.

Lemma make_node_attributes_sorted_witness :
  exists node,
    make_node "Op" ["x"] ["y"] None None None [("b", PyInt 1); ("a", PyFloat one)] = Ok node
    /\ map attr_name (node_attribute node) = ["a"; "b"]
    /\ StronglySorted text_le (map attr_name (node_attribute node)).
Proof.
  eexists. split; [reflexivity|].
  destruct (make_node_attributes_sorted "Op" ["x"] ["y"] None None None
              [("b", PyInt 1); ("a", PyFloat one)] _ eq_refl) as (Hnames & Hsorted & _).
  split; [exact Hnames | exact Hsorted].
Defined.

Lemma make_node_fails_iff_witness :
  ("a", PyNone) ∈ [("b", PyInt 1); ("a", PyNone)]
  /\ make_attribute "a" PyNone None = Raise UnsupportedAttributeType
  /\ exists e, make_node "Op" ["x"] ["y"] None None None [("b", PyInt 1); ("a", PyNone)]
               = Raise e.
Proof.
  assert (Hin : ("a", PyNone) ∈ [("b", PyInt 1); ("a", PyNone)]) by (right; left).
  split; [exact Hin|]. split; [reflexivity|].
  apply (proj2 (make_node_fails_iff "Op" ["x"] ["y"] None None None
                  [("b", PyInt 1); ("a", PyNone)])).
  exists ("a", PyNone). split; [exact Hin|].
  exists UnsupportedAttributeType. reflexivity.
Defined.

Lemma printable_node_attribute_order_witness :
  node_attribute node_then_axis ≡ₚ node_attribute node_axis_then
  /\ printable_node node_then_axis "  "
     = Ok ("  %y = Loop[axis = 3, then = <graph A>](%x)", [graph_A])
  /\ exists gs', printable_node node_axis_then "  "
                 = Ok ("  %y = Loop[axis = 3, then = <graph A>](%x)", gs')
                 /\ [graph_A] ≡ₚ gs'.
Proof.
  assert (Hperm : node_attribute node_then_axis ≡ₚ node_attribute node_axis_then)
    by apply perm_swap.
  assert (Hp : printable_node node_then_axis "  "
               = Ok ("  %y = Loop[axis = 3, then = <graph A>](%x)", [graph_A]))
    by reflexivity.
  split; [exact Hperm|]. split; [exact Hp|].
  exact (printable_node_attribute_order node_then_axis node_axis_then "  " _ _
           eq_refl eq_refl eq_refl Hperm Hp).
Defined.

Lemma printable_graph_without_inputs_witness :
  mapM (fun node => printable_node node (EmptyString +:+ "  ")) [node_relu]
    = Ok [("  %y = Relu(%x)", [])]
  /\ printable_graph
       (make_graph [node_relu] "G" [] [] (Some [scalar_uint8]) None None None) EmptyString
     = Ok (join newline ["graph G {"; "  %y = Relu(%x)"; "  return"; "}"]).
Proof.
  assert (Hm : mapM (fun node => printable_node node (EmptyString +:+ "  ")) [node_relu]
               = Ok [("  %y = Relu(%x)", [])]) by reflexivity.
  split; [exact Hm|].
  exact (printable_graph_without_inputs [node_relu] "G" [] (Some [scalar_uint8]) None None
           None EmptyString _ Hm).
Defined.

Lemma sanitize_str_cut_witness :
  String.length (decode_utf8_ignore bytes_64) = 64%nat
  /\ _sanitize_str bytes_64 = decode_utf8_ignore bytes_64 +:+ "...<+len=0>".
Proof.
  assert (Hlen : String.length (decode_utf8_ignore bytes_64) = 64%nat) by reflexivity.
  split; [exact Hlen|].
  destruct (sanitize_str_cut bytes_64) as (_ & _ & Hedge).
  exact (Hedge Hlen).
Defined.
